(** * Channel transcript downloader: caption normalizer, retriever, orchestrator

    A shallow embedding of [youtube_transcript_downloader.py] (the two
    per-channel copies share the same functions) and the properties of its
    design document.

    Text.  A Python [str] is modelled as a [list ascii]: a sequence of code
    points below 256.  The character classes of [str.strip], [\s], [\S] and
    [\d] are Python's, restricted to that range.

    Effects.  The two external-tool invocations, the clock and the file
    system are explicit: the tools and the clock are parameters of the
    development, the file system is part of the [world] threaded through
    [main].  A call to the file system may be refused: the parameter
    [fs_fault] names the exception on which each call ends, if any, and a
    call on the empty path is always refused.  An exception or [sys.exit]
    ends a computation unless the source catches it.  An invocation
    of a tool ends with the exit of the tool or with its timeout, the
    caption tool writes in the scratch directory only, and printing does
    not fail. *)

From Stdlib Require Import Ascii String ZArith DecimalString.
From stdpp Require Import base list gmap strings.

Open Scope string_scope.
Open Scope list_scope.

(** Python text and its literals. *)
Abbreviation str := (list ascii).
Coercion list_ascii_of_string : string >-> list.

(** ** Character classes *)

Module Char.

(** [str.isspace] on one character (also the class [\s] of [re] on [str]
    patterns): TAB LF VT FF CR, FS GS RS US, SPACE, NEL, NBSP. *)
Definition isspace (c : ascii) : bool :=
  let n := nat_of_ascii c in
  (((9 <=? n) && (n <=? 13)) || ((28 <=? n) && (n <=? 32))
   || (n =? 133) || (n =? 160))%nat.

(** The class [\d] on [str] patterns: decimal digits. *)
Definition isdigit (c : ascii) : bool :=
  let n := nat_of_ascii c in ((48 <=? n) && (n <=? 57))%nat.

Definition eqb (a b : ascii) : bool := Ascii.eqb a b.

(** Membership of a character in a set of characters given as text. *)
Definition among (chars : str) (c : ascii) : bool :=
  existsb (eqb c) chars.

End Char.

Arguments Char.isspace : simpl never.
Arguments Char.isdigit : simpl never.

(** ** Methods of [str] *)

Module Str.

Fixpoint startswith (s p : str) {struct p} : bool :=
  match p, s with
  | [], _ => true
  | _ :: _, [] => false
  | a :: p', b :: s' => Char.eqb a b && startswith s' p'
  end.

Definition endswith (s p : str) : bool := startswith (rev s) (rev p).

Fixpoint dropwhile (f : ascii -> bool) (s : str) : str :=
  match s with
  | [] => []
  | c :: s' => if f c then dropwhile f s' else s
  end.

Fixpoint takewhile (f : ascii -> bool) (s : str) : str :=
  match s with
  | [] => []
  | c :: s' => if f c then c :: takewhile f s' else []
  end.

Definition lstrip_by (f : ascii -> bool) (s : str) : str := dropwhile f s.
Definition rstrip_by (f : ascii -> bool) (s : str) : str :=
  rev (dropwhile f (rev s)).
Definition strip_by (f : ascii -> bool) (s : str) : str :=
  rstrip_by f (lstrip_by f s).

(** [s.strip()] *)
Definition strip (s : str) : str := strip_by Char.isspace s.
(** [s.strip(chars)] *)
Definition strip_chars (chars s : str) : str := strip_by (Char.among chars) s.

(** [s.split(sep)] for a one-character separator: never the empty list. *)
Fixpoint split (sep : ascii) (s : str) : list str :=
  match s with
  | [] => [[]]
  | c :: s' =>
      if Char.eqb c sep then [] :: split sep s'
      else match split sep s' with
           | [] => [[c]]
           | w :: ws => (c :: w) :: ws
           end
  end.

(** [s.split(sep, 1)]: cut at the first separator only. *)
Fixpoint split1 (sep : ascii) (s : str) : list str :=
  match s with
  | [] => [[]]
  | c :: s' =>
      if Char.eqb c sep then [[]; s']
      else match split1 sep s' with
           | w :: ws => (c :: w) :: ws
           | [] => [[c]]
           end
  end.

(** [sep.join(parts)] *)
Fixpoint join (sep : str) (parts : list str) : str :=
  match parts with
  | [] => []
  | [p] => p
  | p :: ps => p ++ sep ++ join sep ps
  end.

(** [s[:n]] *)
Definition slice_to (n : nat) (s : str) : str := firstn n s.

(** [c * n] *)
Definition times (c : ascii) (n : nat) : str := repeat c n.

(** [str(n)], the text an f-string field gives a non-negative integer. *)
Definition of_nat (n : nat) : str :=
  NilZero.string_of_uint (Nat.to_uint n).

(** Thousands separators, as the format [{n:,}] inserts them: the digits
    are grouped by three from the right. *)
Fixpoint group3 (k : nat) (rdigits : str) : str :=
  match rdigits with
  | [] => []
  | d :: ds =>
      match k with
      | 0 => match ds with
             | [] => [d]
             | _ :: _ => d :: "," ++ group3 2 ds
             end
      | S k' => d :: group3 k' ds
      end
  end.

Definition of_nat_commas (n : nat) : str := rev (group3 2 (rev (of_nat n))).

End Str.

(** ** The fragment of [re] the program uses

    A pattern is embedded as a matcher: applied to the text from some
    position onwards it gives the length of the match that starts there, or
    [None].  None of the program's patterns needs backtracking to decide
    that length. *)

Module Re.

Definition matcher := str -> option nat.

(** [\d\d:\d\d:\d\d\.\d\d\d], the shape [HH:MM:SS.mmm]; 12 characters. *)
Definition clock (s : str) : option str :=
  match s with
  | h1 :: h2 :: c1 :: m1 :: m2 :: c2 :: s1 :: s2 :: d :: f1 :: f2 :: f3 :: rest =>
      if Char.isdigit h1 && Char.isdigit h2 && Char.eqb c1 ":"
         && Char.isdigit m1 && Char.isdigit m2 && Char.eqb c2 ":"
         && Char.isdigit s1 && Char.isdigit s2 && Char.eqb d "."
         && Char.isdigit f1 && Char.isdigit f2 && Char.isdigit f3
      then Some rest else None
  | _ => None
  end.

(** [re.match] of [^\d{2}:\d{2}:\d{2}\.\d{3}\s*-->] on a line, as a truth
    value. *)
Definition match_cue_timing (line : str) : bool :=
  match clock line with
  | Some rest => Str.startswith (Str.dropwhile Char.isspace rest) "-->"
  | None => false
  end.

(** [<\d{2}:\d{2}:\d{2}\.\d{3}>] *)
Definition timing_tag : matcher := fun s =>
  match s with
  | c :: s' =>
      if Char.eqb c "<" then
        match clock s' with
        | Some (g :: _) => if Char.eqb g ">" then Some 14 else None
        | _ => None
        end
      else None
  | [] => None
  end.

(** [</?c>] *)
Definition c_tag : matcher := fun s =>
  if Str.startswith s "<c>" then Some 3
  else if Str.startswith s "</c>" then Some 4
  else None.

(** [key\S+] for a literal [key]: the key and the longest run of
    non-space characters after it, which must not be empty. *)
Definition keyed_token (key : str) : matcher := fun s =>
  if Str.startswith s key then
    match Str.takewhile (fun c => negb (Char.isspace c)) (skipn (length key) s) with
    | [] => None
    | run => Some (length key + length run)
    end
  else None.

(** [align:\S+] and [position:\S+] *)
Definition align_token : matcher := keyed_token "align:".
Definition position_token : matcher := keyed_token "position:".

(** A one-character class: any one of the characters of [chars]. *)
Definition char_class (chars : str) : matcher := fun s =>
  match s with
  | c :: _ => if Char.among chars c then Some 1 else None
  | [] => None
  end.

(** [re.sub] with the empty replacement: scanning from the left, the leftmost match is
    deleted and the scan resumes after it; where nothing matches, or only
    the empty string does, the character is kept.  [fuel] bounds the number
    of scan steps; [length s] is always enough. *)
Fixpoint sub_fuel (m : matcher) (fuel : nat) (s : str) : str :=
  match fuel with
  | 0 => s
  | S fuel' =>
      match s with
      | [] => []
      | c :: s' =>
          match m s with
          | Some (S n) => sub_fuel m fuel' (skipn n s')
          | _ => c :: sub_fuel m fuel' s'
          end
      end
  end.

Definition sub (m : matcher) (s : str) : str := sub_fuel m (length s) s.

(** [re.search(pattern, s)] as a truth value: some position carries a
    match. *)
Fixpoint search (m : matcher) (s : str) : bool :=
  match m s with
  | Some _ => true
  | None => match s with
            | [] => false
            | _ :: s' => search m s'
            end
  end.

End Re.

(** ** Caption normalizer: [clean_vtt] *)

(** The line feed, the tab, and the one-character text [\n]. *)
Definition LF : ascii := "010"%char.
Definition TAB : ascii := "009"%char.
Definition nl : str := [LF].

(** The lines the first four tests of the loop body skip. *)
Definition skipped_line (line : str) : bool :=
  Str.startswith line "WEBVTT"
  || (Str.startswith line "Kind:" || Str.startswith line "Language:")
  || Re.match_cue_timing line
  || match Str.strip line with [] => true | _ => false end.

(** The four substitutions and the final [strip] applied to a kept line. *)
Definition strip_markup (line : str) : str :=
  let text := Re.sub Re.timing_tag line in
  let text := Re.sub Re.c_tag text in
  let text := Re.sub Re.align_token text in
  let text := Re.sub Re.position_token text in
  Str.strip text.

(** One iteration of the loop over [lines], on the pair [(cleaned, seen)]. *)
Definition clean_step (st : list str * gset str) (line : str)
  : list str * gset str :=
  let '(cleaned, seen) := st in
  if skipped_line line then st
  else
    let text := strip_markup line in
    match text with
    | [] => st
    | _ :: _ =>
        if decide (text ∈ seen) then st
        else (cleaned ++ [text], {[ text ]} ∪ seen)
    end.

(** The list [cleaned] when the loop ends. *)
Definition clean_lines (vtt_text : str) : list str :=
  fst (foldl clean_step ([], ∅) (Str.split LF vtt_text)).

Definition clean_vtt (vtt_text : str) : str :=
  Str.join " " (clean_lines vtt_text).

(** ** Filename sanitization: [sanitize_filename] *)

(** The characters of the class in the first substitution: less-than,
    greater-than, colon, double quote (code 34), slash, backslash, bar,
    question mark, star. *)
Definition forbidden_chars : str := "<>:" ++ ["034"%char] ++ "/\|?*".

Definition sanitize_filename (title : str) : str :=
  let safe := Re.sub (Re.char_class forbidden_chars) title in
  let safe := Str.strip_chars ". " safe in
  match safe with
  | [] => "untitled"
  | _ :: _ => Str.slice_to 200 safe
  end.

(** ** The process and its surroundings *)

(** [os.path.join(a, b)] of [posixpath]. *)
Definition path_join (a b : str) : str :=
  if Str.startswith b "/" then b
  else match a with
       | [] => b
       | _ :: _ => if Str.endswith a "/" then a ++ b else a ++ "/" ++ b
       end.

(** The dict [main] hands to [json.dump]. *)
Record video_entry := VideoEntry {
  ve_id : str;
  ve_title : str;
  has_transcript : bool }.

Record manifest := Manifest {
  m_channel_url : str;
  m_channel_name : str;
  download_date : str;
  total_videos : nat;
  transcripts_downloaded : nat;
  transcripts_failed : nat;
  m_videos : list video_entry }.

(** What a file written by [main] holds: text, or the serialized manifest
    (kept as the value given to [json.dump]). *)
Inductive file_body :=
| Text (s : str)
| Json (m : manifest).

(** The part of the machine the program touches.  [scratch] is the listing
    of the scratch directory [temp_dir], in [os.listdir] order, each name
    with the text stored in the file; a path [os.path.join(temp_dir, name)]
    denotes the entry called [name].  [files] holds the other regular
    files, by path as written.  [archive] is the text written so far
    through the handle [combined].  The counters number the calls made to
    the caption tool, to the clock and to the file system, so that each
    call may be answered differently. *)
Record world := World {
  dirs : gset str;
  files : gmap str file_body;
  scratch : list (str * str);
  archive : str;
  stdout : str;
  stderr : str;
  tool_calls : nat;
  clock_reads : nat;
  slept : nat;
  fs_calls : nat }.

Definition with_dirs (f : gset str -> gset str) (w : world) : world :=
  World (f (dirs w)) (files w) (scratch w) (archive w) (stdout w) (stderr w)
        (tool_calls w) (clock_reads w) (slept w) (fs_calls w).
Definition with_files (f : gmap str file_body -> gmap str file_body)
    (w : world) : world :=
  World (dirs w) (f (files w)) (scratch w) (archive w) (stdout w) (stderr w)
        (tool_calls w) (clock_reads w) (slept w) (fs_calls w).
Definition with_scratch (d : list (str * str)) (w : world) : world :=
  World (dirs w) (files w) d (archive w) (stdout w) (stderr w)
        (tool_calls w) (clock_reads w) (slept w) (fs_calls w).
Definition with_archive (f : str -> str) (w : world) : world :=
  World (dirs w) (files w) (scratch w) (f (archive w)) (stdout w) (stderr w)
        (tool_calls w) (clock_reads w) (slept w) (fs_calls w).
Definition with_stdout (f : str -> str) (w : world) : world :=
  World (dirs w) (files w) (scratch w) (archive w) (f (stdout w)) (stderr w)
        (tool_calls w) (clock_reads w) (slept w) (fs_calls w).
Definition with_stderr (f : str -> str) (w : world) : world :=
  World (dirs w) (files w) (scratch w) (archive w) (stdout w) (f (stderr w))
        (tool_calls w) (clock_reads w) (slept w) (fs_calls w).
Definition tick_tool (w : world) : world :=
  World (dirs w) (files w) (scratch w) (archive w) (stdout w) (stderr w)
        (S (tool_calls w)) (clock_reads w) (slept w) (fs_calls w).
Definition tick_clock (w : world) : world :=
  World (dirs w) (files w) (scratch w) (archive w) (stdout w) (stderr w)
        (tool_calls w) (S (clock_reads w)) (slept w) (fs_calls w).
Definition with_slept (f : nat -> nat) (w : world) : world :=
  World (dirs w) (files w) (scratch w) (archive w) (stdout w) (stderr w)
        (tool_calls w) (clock_reads w) (f (slept w)) (fs_calls w).
Definition tick_fs (w : world) : world :=
  World (dirs w) (files w) (scratch w) (archive w) (stdout w) (stderr w)
        (tool_calls w) (clock_reads w) (slept w) (S (fs_calls w)).

(** How a computation ends: a value, [sys.exit(code)], or an exception
    nobody catches, by the name of its class. *)
Inductive outcome (A : Type) :=
| Ret (a : A)
| Exit (code : Z)
| Raised (exn : str).
Arguments Ret {A} a.
Arguments Exit {A} code.
Arguments Raised {A} exn.

(** The exit status of the process. *)
Definition exit_status {A} (o : outcome A) : Z :=
  match o with
  | Ret _ => 0
  | Exit code => code
  | Raised _ => 1
  end.

Definition M (A : Type) : Type := world -> outcome A * world.

Definition ret {A} (a : A) : M A := fun w => (Ret a, w).

Definition bind {A B} (c : M A) (k : A -> M B) : M B := fun w =>
  match c w with
  | (Ret a, w') => k a w'
  | (Exit code, w') => (Exit code, w')
  | (Raised e, w') => (Raised e, w')
  end.

Notation "x <- c ;; k" := (bind c (fun x => k))
  (at level 63, c at next level, right associativity).
Notation "c ;;; k" := (bind c (fun _ => k))
  (at level 63, right associativity).

Definition modify (f : world -> world) : M unit := fun w => (Ret tt, f w).
Definition gets {A} (f : world -> A) : M A := fun w => (Ret (f w), w).
Definition sys_exit {A} (code : Z) : M A := fun w => (Exit code, w).
Definition raise {A} (exn : str) : M A := fun w => (Raised exn, w).

(** [try: c  except <classes>: pass] *)
Definition try_pass (c : M unit) (caught : str -> bool) : M unit := fun w =>
  match c w with
  | (Raised e, w') => if caught e then (Ret tt, w') else (Raised e, w')
  | r => r
  end.

(** What leaving a [with] block does: [after] runs however [c] ends, and
    the way [c] ended is kept. *)
Definition finally {A} (c : M A) (after : M unit) : M A := fun w =>
  match c w with
  | (o, w') =>
      match after w' with
      | (Ret _, w'') => (o, w'')
      | (Exit code, w'') => (Exit code, w'')
      | (Raised e, w'') => (Raised e, w'')
      end
  end.

(** [for x in xs: st = body(st, x)] *)
Fixpoint for_each {A S} (body : S -> A -> M S) (st : S) (xs : list A) : M S :=
  match xs with
  | [] => ret st
  | x :: xs' => st' <- body st x ;; for_each body st' xs'
  end.

(** [print(s)] and [print(s, file=sys.stderr)] *)
Definition print (s : str) : M unit :=
  modify (with_stdout (fun o => o ++ s ++ nl)).
Definition eprint (s : str) : M unit :=
  modify (with_stderr (fun e => e ++ s ++ nl)).

(** A write through the handle [combined] extends the text of the
    handle. *)
Definition combined_write (s : str) : M unit :=
  modify (with_archive (fun t => t ++ s)).

(** [time.sleep(n)] *)
Definition sleep (n : nat) : M unit :=
  modify (with_slept (fun t => t + n)).

(** What [subprocess.run] gives for the listing tool. *)
Inductive run_result :=
| Completed (returncode : Z) (out err : str)
| TimeoutExpired.

(** The calls to the file system that can be refused, each with the path
    it is given: [os.makedirs(path, exist_ok=True)], [open(path, "w")],
    [open(path, "r")] with the [read] that follows, [os.listdir(path)],
    [os.remove(path)], [os.rmdir(path)]. *)
Inductive fs_call :=
| Mkdir (path : str)
| OpenWrite (path : str)
| ReadText (path : str)
| ListDir (path : str)
| Remove (path : str)
| Rmdir (path : str).

Definition call_path (c : fs_call) : str :=
  match c with
  | Mkdir p | OpenWrite p | ReadText p | ListDir p | Remove p | Rmdir p => p
  end.

(** [OSError] and its subclasses: what [except OSError] catches. *)
Definition os_errors : list str :=
  ["OSError" : str; "FileNotFoundError" : str; "FileExistsError" : str;
   "PermissionError" : str; "IsADirectoryError" : str;
   "NotADirectoryError" : str; "InterruptedError" : str;
   "BlockingIOError" : str; "TimeoutError" : str].

Definition is_oserror (e : str) : bool := bool_decide (e ∈ os_errors).

Definition SUBTITLE_LANG : str := "en".

Definition eighty : str := Str.times "=" 80.
Definition sixty : str := Str.times "=" 60.

(** [enumerate(xs, start)] *)
Fixpoint enumerate {A} (start : nat) (xs : list A) : list (nat * A) :=
  match xs with
  | [] => []
  | x :: xs' => (start, x) :: enumerate (S start) xs'
  end.

(** ** Channel enumerator: parsing the listing *)

Definition parse_line (line : str) : option (str * str) :=
  match Str.strip line with
  | [] => None
  | (_ :: _) as line' =>
      match Str.split1 TAB line' with
      | [video_id; title] => Some (Str.strip video_id, Str.strip title)
      | _ => None
      end
  end.

Definition parse_listing (out : str) : list (str * str) :=
  omap parse_line (Str.split LF (Str.strip out)).

(** ** Caption retriever: the scratch directory *)

Definition listdir (d : list (str * str)) : list str := map fst d.

Definition CR : ascii := "013"%char.

(** What text mode does to the line ends of a file that is read ([open]
    with the default [newline=None]): a carriage return followed by a line
    feed, and a carriage return alone, both become one line feed. *)
Fixpoint universal_newlines (s : str) : str :=
  match s with
  | [] => []
  | c :: s' =>
      if Char.eqb c CR then
        LF :: match s' with
              | c' :: s'' =>
                  if Char.eqb c' LF then universal_newlines s''
                  else universal_newlines s'
              | [] => []
              end
      else c :: universal_newlines s'
  end.

(** The text stored in the scratch file called [name]. *)
Definition stored_text (name : str) (d : list (str * str)) : str :=
  match List.find (fun e => bool_decide (fst e = name)) d with
  | Some e => snd e
  | None => []
  end.

(** The text [f.read()] gives for the scratch file called [name]. *)
Definition read_scratch (name : str) (d : list (str * str)) : str :=
  universal_newlines (stored_text name d).

(** One of the two expected names exists: the first loop of the search
    ends with a path. *)
Definition expected_listed (video_id : str) (d : list (str * str)) : bool :=
  existsb (fun suffix => bool_decide (video_id ++ suffix ∈ listdir d))
          ["." ++ SUBTITLE_LANG ++ ".vtt";
           "." ++ SUBTITLE_LANG ++ "-orig.vtt"].

(** The two expected names in order, then the first listed name that starts
    with the video id and ends in [.vtt]. *)
Definition find_vtt (video_id : str) (d : list (str * str)) : option str :=
  match List.find (fun suffix => bool_decide (video_id ++ suffix ∈ listdir d))
                  ["." ++ SUBTITLE_LANG ++ ".vtt";
                   "." ++ SUBTITLE_LANG ++ "-orig.vtt"] with
  | Some suffix => Some (video_id ++ suffix)
  | None =>
      List.find (fun f => Str.startswith f video_id && Str.endswith f ".vtt")
                (listdir d)
  end.

(** The scratch directory without the entry called [f]. *)
Definition without_entry (f : str) (d : list (str * str))
  : list (str * str) :=
  List.filter (fun e => negb (bool_decide (fst e = f))) d.

(** What the clean-up loop leaves when every removal goes through: the
    entries whose name does not start with the video id. *)
Definition remove_prefixed (video_id : str) (d : list (str * str))
  : list (str * str) :=
  List.filter (fun e => negb (Str.startswith (fst e) video_id)) d.

(** A path written as a path inside the directory [dir]. *)
Definition inside (dir path : str) : bool :=
  Str.startswith path (path_join dir []).

(** [os.rmdir] finds the scratch directory empty: nothing is listed in it,
    and no file or directory the machine holds is written as a path
    inside it. *)
Definition scratch_is_empty (temp_dir : str) (w : world) : bool :=
  match scratch w with [] => true | _ :: _ => false end
  && forallb (fun p => negb (inside temp_dir p))
             (map fst (map_to_list (files w)))
  && forallb (fun p => negb (inside temp_dir p)) (elements (dirs w)).

(** The local variables of the loop of [main]: the two counters and the
    failed list. *)
Record run_state := RunState {
  success_count : nat;
  fail_count : nat;
  failed_videos : list (str * str) }.

Record args := Args {
  channel_url : str;
  output_dir : str;
  combined_file : str;
  channel_name : option str }.

Definition watch_url (video_id : str) : str :=
  "https://www.youtube.com/watch?v=" ++ video_id.

(** The header block of the archive: four lines and a blank one. *)
Definition archive_header (name : str) (total : nat) (date url : str) : str :=
  ("# " ++ name ++ " - Complete YouTube Channel Transcripts" ++ nl)
  ++ ("# Total videos found: " ++ Str.of_nat total ++ nl)
  ++ ("# Downloaded: " ++ date ++ nl)
  ++ ("# Source: " ++ url ++ nl ++ nl).

(** A section of the archive: what the six writes of the loop body add. *)
Definition archive_section (video_id title transcript : str) : str :=
  (nl ++ nl ++ eighty ++ nl)
  ++ ("TITLE: " ++ title ++ nl)
  ++ ("VIDEO ID: " ++ video_id ++ nl)
  ++ ("URL: " ++ watch_url video_id ++ nl)
  ++ (eighty ++ nl ++ nl)
  ++ transcript.

(** The five writes to an individual file. *)
Definition individual_body (video_id title transcript : str) : str :=
  ("Title: " ++ title ++ nl)
  ++ ("Video ID: " ++ video_id ++ nl)
  ++ ("URL: " ++ watch_url video_id ++ nl)
  ++ (eighty ++ nl ++ nl)
  ++ transcript.

Definition individual_path (output_dir video_id title : str) : str :=
  path_join output_dir (sanitize_filename title ++ " [" ++ video_id ++ "].txt").

(** [args.channel_name or channel_url.split("@")[-1].split("/")[0]] *)
Definition display_name (a : args) : str :=
  match channel_name a with
  | Some (c :: n) => c :: n
  | _ => hd [] (Str.split "/" (List.last (Str.split "@" (channel_url a)) []))
  end.

Section Program.

(** The listing tool: what [subprocess.run] returns for a channel URL. *)
Variable list_channel : str -> run_result.

(** The caption tool.  Its [n]-th invocation, for a video id and a scratch
    directory path, turns the scratch listing into a new one and either
    exits ([false]) or is cut off by the timeout ([true]). *)
Variable caption_tool :
  nat -> str -> str -> list (str * str) -> bool * list (str * str).

(** [time.strftime("%Y-%m-%d %H:%M:%S")] at its [n]-th call. *)
Variable strftime : nat -> str.

(** The file system.  To the [n]-th call made to it the system answers
    with the exception it raises, if it refuses the call: a missing
    parent directory, a name longer than the system allows, a path that is
    a directory, missing rights, a full disk, and for a read also a file
    that is not UTF-8 ([UnicodeDecodeError]). *)
Variable fs_fault : nat -> fs_call -> option str.

(** The answer to a call.  The empty path is refused on every system. *)
Definition refusal (n : nat) (c : fs_call) : option str :=
  match call_path c with
  | [] => Some ("FileNotFoundError" : str)
  | _ :: _ => fs_fault n c
  end.

Definition syscall (c : fs_call) : M unit := fun w =>
  match refusal (fs_calls w) c with
  | Some e => (Raised e, tick_fs w)
  | None => (Ret tt, tick_fs w)
  end.

(** [os.makedirs(path, exist_ok=True)] *)
Definition makedirs (path : str) : M unit :=
  syscall (Mkdir path) ;;;
  modify (with_dirs (fun ds => {[ path ]} ∪ ds)).

(** [os.rmdir(temp_dir)]: the scratch directory goes when it is empty. *)
Definition os_rmdir (temp_dir : str) : M unit :=
  syscall (Rmdir temp_dir) ;;;
  empty <- gets (scratch_is_empty temp_dir) ;;
  if (empty : bool) then modify (with_dirs (fun ds => ds ∖ {[ temp_dir ]}))
  else raise "OSError".

(** [try: os.rmdir(temp_dir)  except OSError: pass] *)
Definition rmdir_scratch (temp_dir : str) : M unit :=
  try_pass (os_rmdir temp_dir) is_oserror.

(** [open] for writing, the writes, and the close, as one step. *)
Definition write_file (path : str) (body : file_body) : M unit :=
  syscall (OpenWrite path) ;;;
  modify (with_files (fun fs => <[ path := body ]> fs)).

(** The handle [combined]: opening it creates or truncates the file, and
    leaving the [with] block leaves the text written through the handle in
    the file (no other file of the run is taken to share the path of the
    archive while the handle is open). *)
Definition open_combined (path : str) : M unit :=
  syscall (OpenWrite path) ;;;
  modify (fun w =>
    with_archive (fun _ => []) (with_files (fun fs => <[ path := Text [] ]> fs) w)).
Definition close_combined (path : str) : M unit :=
  modify (fun w => with_files (fun fs => <[ path := Text (archive w) ]> fs) w).

(** [with open(path, "w", encoding="utf-8") as combined: body] *)
Definition with_combined {A} (path : str) (body : M A) : M A :=
  open_combined path ;;;
  finally body (close_combined path).

Definition now : M str := fun w =>
  (Ret (strftime (clock_reads w)), tick_clock w).

Definition run_caption_tool (video_id temp_dir : str) : M bool := fun w =>
  let '(timed_out, d) :=
    caption_tool (tool_calls w) video_id temp_dir (scratch w) in
  (Ret timed_out, tick_tool (with_scratch d w)).

Definition get_all_videos (url : str) : M (list (str * str)) :=
  match list_channel url with
  | TimeoutExpired => raise "TimeoutExpired"
  | Completed returncode out err =>
      if negb (returncode =? 0)%Z then
        eprint ("[ERROR] Failed to list channel videos:" ++ nl ++ err) ;;;
        sys_exit 1
      else ret (parse_listing out)
  end.

(** [os.listdir(temp_dir)] *)
Definition os_listdir (temp_dir : str) : M (list str) :=
  syscall (ListDir temp_dir) ;;;
  d <- gets scratch ;;
  ret (listdir d).

(** [with open(vtt_path, "r", encoding="utf-8") as f: f.read()] *)
Definition read_text (temp_dir name : str) : M str :=
  syscall (ReadText (path_join temp_dir name)) ;;;
  d <- gets scratch ;;
  ret (read_scratch name d).

(** [os.remove(os.path.join(temp_dir, f))] *)
Definition os_remove (temp_dir f : str) : M unit :=
  syscall (Remove (path_join temp_dir f)) ;;;
  modify (fun w => with_scratch (without_entry f (scratch w)) w).

(** The body of the clean-up loop. *)
Definition remove_if_prefixed (video_id temp_dir : str) (_ : unit) (f : str)
  : M unit :=
  if Str.startswith f video_id then os_remove temp_dir f else ret tt.

Definition download_subtitle (video_id temp_dir : str) : M (option str) :=
  timed_out <- run_caption_tool video_id temp_dir ;;
  if (timed_out : bool) then
    print ("  [TIMEOUT] Subtitle download timed out for " ++ video_id) ;;;
    ret None
  else
    d <- gets scratch ;;
    (* [os.path.exists] does not raise; the scan calls [os.listdir] *)
    (if expected_listed video_id d then ret tt
     else syscall (ListDir temp_dir)) ;;;
    match find_vtt video_id d with
    | None => ret None
    | Some vtt_path =>
        vtt_content <- read_text temp_dir vtt_path ;;
        names <- os_listdir temp_dir ;;
        for_each (remove_if_prefixed video_id temp_dir) tt names ;;;
        ret (Some (clean_vtt vtt_content))
    end.

(** The body of the loop of [main]. *)
Definition process_video (total : nat) (out_dir temp_dir : str)
    (st : run_state) (item : nat * (str * str)) : M run_state :=
  let idx := fst item in
  let video_id := fst (snd item) in
  let title := snd (snd item) in
  print ("[" ++ Str.of_nat idx ++ "/" ++ Str.of_nat total ++ "]"
         ++ " Processing: " ++ title) ;;;
  transcript <- download_subtitle video_id temp_dir ;;
  st' <- match transcript with
         | Some (c :: t) =>
             let transcript := c :: t in
             write_file (individual_path out_dir video_id title)
                        (Text (individual_body video_id title transcript)) ;;;
             combined_write (nl ++ nl ++ eighty ++ nl) ;;;
             combined_write ("TITLE: " ++ title ++ nl) ;;;
             combined_write ("VIDEO ID: " ++ video_id ++ nl) ;;;
             combined_write ("URL: " ++ watch_url video_id ++ nl) ;;;
             combined_write (eighty ++ nl ++ nl) ;;;
             combined_write transcript ;;;
             print ("  -> Saved transcript ("
                    ++ Str.of_nat_commas (length transcript) ++ " chars)") ;;;
             ret (RunState (S (success_count st)) (fail_count st)
                           (failed_videos st))
         | _ =>
             print "  -> No transcript available" ;;;
             ret (RunState (success_count st) (S (fail_count st))
                           (failed_videos st ++ [(video_id, title)]))
         end ;;
  (if (idx mod 10 =? 0)%nat then sleep 2 else ret tt) ;;;
  ret st'.

Definition make_manifest (a : args) (date : str) (videos : list (str * str))
    (st : run_state) : manifest :=
  Manifest (channel_url a) (display_name a) date (length videos)
           (success_count st) (fail_count st)
           (map (fun v => VideoEntry (fst v) (snd v)
                            (bool_decide (v ∉ failed_videos st)))
                videos).

Definition print_summary (a : args) (total : nat) (manifest_path : str)
    (st : run_state) : M unit :=
  print (nl ++ sixty) ;;;
  print "DOWNLOAD COMPLETE" ;;;
  print sixty ;;;
  print ("Total videos:          " ++ Str.of_nat total) ;;;
  print ("Transcripts saved:     " ++ Str.of_nat (success_count st)) ;;;
  print ("No transcript:         " ++ Str.of_nat (fail_count st)) ;;;
  print ("Individual files:      ./" ++ output_dir a ++ "/") ;;;
  print ("Combined file:         ./" ++ combined_file a) ;;;
  print ("Manifest:              ./" ++ manifest_path) ;;;
  match failed_videos st with
  | [] => ret tt
  | _ :: _ =>
      print (nl ++ "Videos without transcripts:") ;;;
      for_each (fun _ v => print ("  - " ++ snd v ++ " (" ++ fst v ++ ")"))
               tt (failed_videos st)
  end.

Definition main (a : args) : M unit :=
  print ("Fetching video list from: " ++ channel_url a) ;;;
  print ("This may take a moment for large channels..." ++ nl) ;;;
  videos <- get_all_videos (channel_url a) ;;
  let total := length videos in
  print ("Found " ++ Str.of_nat total
         ++ " videos. Starting transcript downloads..." ++ nl) ;;;
  makedirs (output_dir a) ;;;
  let temp_dir := path_join (output_dir a) ".tmp" in
  makedirs temp_dir ;;;
  st <- with_combined (combined_file a) (
    combined_write ("# " ++ display_name a
                    ++ " - Complete YouTube Channel Transcripts" ++ nl) ;;;
    combined_write ("# Total videos found: " ++ Str.of_nat total ++ nl) ;;;
    date <- now ;;
    combined_write ("# Downloaded: " ++ date ++ nl) ;;;
    combined_write ("# Source: " ++ channel_url a ++ nl ++ nl) ;;;
    for_each (process_video total (output_dir a) temp_dir)
             (RunState 0 0 []) (enumerate 1 videos)) ;;
  rmdir_scratch temp_dir ;;;
  let manifest_path := path_join (output_dir a) "_manifest.json" in
  date' <- now ;;
  write_file manifest_path (Json (make_manifest a date' videos st)) ;;;
  print_summary a total manifest_path st.

End Program.

(** * Vocabulary of the properties *)

(** ** Normalizer *)

(** The stripped text a line contributes, if any: what reaches the test
    [text not in seen]. *)
Definition kept_text (line : str) : option str :=
  if skipped_line line then None
  else match strip_markup line with
       | [] => None
       | c :: t => Some (c :: t)
       end.

(** The stripped text lines of a document, in order, repeats included. *)
Definition texts (vtt_text : str) : list str :=
  omap kept_text (Str.split LF vtt_text).

(** The last four lines of the loop body, on a stripped text. *)
Definition dedup_step (st : list str * gset str) (text : str)
  : list str * gset str :=
  if decide (text ∈ snd st) then st
  else (fst st ++ [text], {[ text ]} ∪ snd st).

(** The loop invariant: [seen] is the set of the elements of [cleaned],
    which has no repeats. *)
Definition dedup_inv (st : list str * gset str) : Prop :=
  (forall u, u ∈ snd st <-> u ∈ fst st) /\ NoDup (fst st).

Definition nonspace (c : ascii) : bool := negb (Char.isspace c).

(** A pattern is windowed when each of its matches is witnessed by a
    non-empty prefix free of white space: the pattern matches every text
    that starts with that prefix. *)
Definition windowed (m : Re.matcher) : Prop :=
  forall u, m u <> None ->
  exists p, p <> [] /\ forallb nonspace p = true /\ Str.startswith u p = true
            /\ forall u', Str.startswith u' p = true -> m u' <> None.

(** Every prefix of [r] free of white space is a prefix of [s]. *)
Definition prefix_kept (s r : str) : Prop :=
  forall p, forallb nonspace p = true ->
            Str.startswith r p = true -> Str.startswith s p = true.

(** A text that is empty or starts with white space. *)
Definition at_gap (s : str) : bool :=
  match s with
  | [] => true
  | c :: _ => Char.isspace c
  end.

Definition LT : ascii := "<"%char.

(** A timing tag or a [c] tag starts here. *)
Definition opens_tag (u : str) : bool :=
  match Re.timing_tag u, Re.c_tag u with
  | None, None => false
  | _, _ => true
  end.

(** Every [<] of the text opens a timing tag or a [c] tag. *)
Fixpoint angles_open_tags (s : str) : bool :=
  match s with
  | [] => true
  | c :: s' =>
      (if Char.eqb c LT then opens_tag s else true) && angles_open_tags s'
  end.

(** Every [<] of the text opens a [c] tag. *)
Fixpoint angles_open_c (s : str) : bool :=
  match s with
  | [] => true
  | c :: s' =>
      (if Char.eqb c LT
       then match Re.c_tag s with Some _ => true | None => false end
       else true) && angles_open_c s'
  end.

(** Every prefix of [s] free of [<] is a prefix of [r]. *)
Definition plain_prefix_kept (s r : str) : Prop :=
  forall p, LT ∉ p -> Str.startswith s p = true -> Str.startswith r p = true.

(** No white space at either end. *)
Definition edges_trimmed (s : str) : bool :=
  negb (match s with [] => false | c :: _ => Char.isspace c end)
  && negb (match rev s with [] => false | c :: _ => Char.isspace c end).

(** Already-normalized plain text: one line, not a header, metadata or
    cue-timing line, no timing tag, [c] tag or annotation token anywhere,
    no white space at either end. *)
Definition plain_text (s : str) : bool :=
  forallb (fun c => negb (Char.eqb c LF)) s
  && negb (Str.startswith s "WEBVTT")
  && negb (Str.startswith s "Kind:")
  && negb (Str.startswith s "Language:")
  && negb (Re.match_cue_timing s)
  && negb (Re.search Re.timing_tag s)
  && negb (Re.search Re.c_tag s)
  && negb (Re.search Re.align_token s)
  && negb (Re.search Re.position_token s)
  && edges_trimmed s.

(** ** Orchestrator *)

(** The truth value of [if transcript:] with the transcript it guards:
    [None] and the empty text both count as no transcript. *)
Definition obtained (r : option str) : option str :=
  match r with
  | Some (c :: t) => Some (c :: t)
  | _ => None
  end.

(** The update of the loop variables for a video and what the retriever
    returned for it. *)
Definition record_outcome (st : run_state) (vr : (str * str) * option str)
  : run_state :=
  match obtained (snd vr) with
  | Some _ => RunState (S (success_count st)) (fail_count st) (failed_videos st)
  | None => RunState (success_count st) (S (fail_count st))
                     (failed_videos st ++ [fst vr])
  end.

(** The section a video adds to the archive, if any. *)
Definition section_of (vr : (str * str) * option str) : str :=
  match obtained (snd vr) with
  | Some transcript => archive_section (fst (fst vr)) (snd (fst vr)) transcript
  | None => []
  end.

(** Whether [if transcript:] took the first branch. *)
Definition got (vr : (str * str) * option str) : bool :=
  match obtained (snd vr) with
  | Some _ => true
  | None => false
  end.

(** The videos that obtained a transcript, each with it, in order. *)
Definition successes (vrs : list ((str * str) * option str))
  : list ((str * str) * str) :=
  omap (fun vr => match obtained (snd vr) with
                  | Some transcript => Some (fst vr, transcript)
                  | None => None
                  end) vrs.

Definition sections_of (vrs : list ((str * str) * option str)) : str :=
  concat (map section_of vrs).

(** The files the loop leaves for the videos. *)
Definition individual_files (out_dir : str)
    (vrs : list ((str * str) * option str)) (fs : gmap str file_body)
  : gmap str file_body :=
  foldl (fun fs vr =>
           match obtained (snd vr) with
           | Some transcript =>
               <[ individual_path out_dir (fst (fst vr)) (snd (fst vr))
                  := Text (individual_body (fst (fst vr)) (snd (fst vr))
                                           transcript) ]> fs
           | None => fs
           end) fs vrs.

Definition manifest_path (a : args) : str :=
  path_join (output_dir a) "_manifest.json".

Definition temp_dir_of (a : args) : str := path_join (output_dir a) ".tmp".

(** ** Concrete inputs *)

Definition scenario_A_input : str :=
  "WEBVTT" ++ nl ++ nl
  ++ "00:00:00.000 --> 00:00:02.000" ++ nl
  ++ "Hello world" ++ nl ++ nl
  ++ "00:00:01.500 --> 00:00:03.000" ++ nl
  ++ "Hello world" ++ nl
  ++ "Next line" ++ nl.

Definition DQUOTE : ascii := "034"%char.

(** The title of Scenario D: A/B: then Test in double quotes, then ?* *)
Definition scenario_D_title : str :=
  "A/B: " ++ [DQUOTE] ++ "Test" ++ [DQUOTE] ++ "?*".

(** A line in which deleting one timing tag splices another together. *)
Definition nested_tag_input : str := "a<00:00:0<00:00:00.000>0.000>b".

(** A line of real auto-generated captions. *)
Definition tagged_line_input : str :=
  "Hello<00:00:01.000><c> world</c> align:start position:0%".

(** A document with the header line and the two metadata lines only. *)
Definition header_only_input : str :=
  "WEBVTT" ++ nl ++ "Kind: captions" ++ nl ++ "Language: en" ++ nl.

(** An empty machine. *)
Definition empty_world : world := World ∅ ∅ [] [] [] [] 0 0 0 0.

(** A file system that refuses no call (but the empty path). *)
Definition no_fault (n : nat) (c : fs_call) : option str := None.

Definition default_args (url : str) : args :=
  Args url "transcripts" "all_transcripts.txt" None.

(** Scenario B: three videos listed; the second invocation of the caption
    tool is cut off by the timeout, the others write the expected file; the
    file system refuses nothing. *)
Definition scenario_B_stdout : str :=
  "video1" ++ [TAB] ++ "One" ++ nl
  ++ "video2" ++ [TAB] ++ "Two" ++ nl
  ++ "video3" ++ [TAB] ++ "Three" ++ nl.

Definition scenario_B_listing (url : str) : run_result :=
  Completed 0 scenario_B_stdout [].

Definition scenario_B_tool (n : nat) (video_id temp_dir : str)
    (d : list (str * str)) : bool * list (str * str) :=
  match n with
  | 1 => (true, d)
  | _ => (false, d ++ [(video_id ++ ".en.vtt", scenario_A_input)])
  end.

Definition scenario_B_clock (n : nat) : str := "2024-01-01 00:00:00".

Definition scenario_B_url : str := "https://www.youtube.com/@Chan/videos".

Definition scenario_B_run : outcome unit * world :=
  main scenario_B_listing scenario_B_tool scenario_B_clock no_fault
       (default_args scenario_B_url) empty_world.

(** A listing tool that fails with status 1 and an error text. *)
Definition failing_listing (url : str) : run_result :=
  Completed 1 [] "ERROR: unable to download".

(** A caption tool that writes only the header-only document. *)
Definition header_only_tool (n : nat) (video_id temp_dir : str)
    (d : list (str * str)) : bool * list (str * str) :=
  (false, d ++ [(video_id ++ ".en.vtt", header_only_input)]).

(** A caption tool cut off by the timeout after it has started a file. *)
Definition partial_tool (n : nat) (video_id temp_dir : str)
    (d : list (str * str)) : bool * list (str * str) :=
  (true, d ++ [(video_id ++ ".en.vtt.part", ("WEBVTT" : str))]).

(** A caption tool that exits leaving a caption file in another format. *)
Definition other_format_tool (n : nat) (video_id temp_dir : str)
    (d : list (str * str)) : bool * list (str * str) :=
  (false, d ++ [(video_id ++ ".en.ttml", ("<tt></tt>" : str))]).

(** ** Further vocabulary *)

(** The texts a pass of the dedup loop adds when it starts from the set
    [seen]. *)
Fixpoint fresh_texts (seen : gset str) (ts : list str) : list str :=
  match ts with
  | [] => []
  | t :: ts' =>
      if decide (t ∈ seen) then fresh_texts seen ts'
      else t :: fresh_texts ({[ t ]} ∪ seen) ts'
  end.

(** The lengths of the lines of a text, one more for each line. *)
Definition weight (lines : list str) : nat :=
  foldr (fun l n => S (length l + n)) 0 lines.

(** Neither end of the text is a character of the class [f]. *)
Definition edges_free (f : ascii -> bool) (s : str) : bool :=
  negb (match s with [] => false | c :: _ => f c end)
  && negb (match rev s with [] => false | c :: _ => f c end).

(** A title that is already a safe file name: none of the nine characters,
    not empty, no dot or space at either end, at most 200 characters. *)
Definition safe_name (s : str) : bool :=
  forallb (fun c => negb (Char.among forbidden_chars c)) s
  && negb (match s with [] => true | _ :: _ => false end)
  && edges_free (Char.among ". ") s
  && (length s <=? 200)%nat.

(** One line of the listing, as the tool prints it for a video. *)
Definition listing_line (v : str * str) : str := fst v ++ TAB :: snd v.

(** The listing the tool prints for a list of videos: one line each. *)
Definition render_listing (videos : list (str * str)) : str :=
  concat (map (fun v => listing_line v ++ nl) videos).

(** An id and a title the listing carries unchanged: neither is empty or
    has white space at an end, neither holds a line feed, and the id holds
    no tab. *)
Definition listable (v : str * str) : bool :=
  negb (match fst v with [] => true | _ :: _ => false end)
  && negb (match snd v with [] => true | _ :: _ => false end)
  && edges_trimmed (fst v) && edges_trimmed (snd v)
  && forallb (fun c => negb (Char.eqb c TAB) && negb (Char.eqb c LF)) (fst v)
  && forallb (fun c => negb (Char.eqb c LF)) (snd v).

(** The test of the fallback scan of the scratch directory. *)
Definition is_caption_of (video_id f : str) : bool :=
  Str.startswith f video_id && Str.endswith f ".vtt".


(** [w'] differs from [w] at most in what was printed. *)
Definition only_printed (w w' : world) : Prop :=
  dirs w' = dirs w /\ files w' = files w /\ scratch w' = scratch w
  /\ archive w' = archive w /\ stderr w' = stderr w
  /\ tool_calls w' = tool_calls w /\ clock_reads w' = clock_reads w
  /\ slept w' = slept w /\ fs_calls w' = fs_calls w.

(** The 1-based positions in a list of [n] videos after which the loop
    pauses. *)
Definition pauses (start n : nat) : nat :=
  length (List.filter (fun i => (i mod 10 =? 0)%nat) (seq start n)).

(** A listing tool cut off by its timeout. *)
Definition timeout_listing (url : str) : run_result := TimeoutExpired.

Definition LBRACKET : ascii := "["%char.
Definition SLASH : ascii := "/"%char.
Definition AT : ascii := "@"%char.

(** ** First occurrences *)

(** A list without the repetitions of its elements: each element stays
    where it first occurs, every later copy is dropped. *)
Fixpoint first_occurrences (ts : list str) : list str :=
  match ts with
  | [] => []
  | t :: ts' =>
      t :: List.filter (fun u => negb (bool_decide (u = t)))
                       (first_occurrences ts')
  end.

(** The number of places of the text [s] at which the text [t] starts. *)
Fixpoint occurrences (t s : str) : nat :=
  (if Str.startswith s t then 1 else 0)
  + match s with
    | [] => 0
    | _ :: s' => occurrences t s'
    end.

(** A document of three cue blocks: the line of the first block comes
    again in the second, which adds its first word; the third block holds
    its second word. *)
Definition rolling_input : str :=
  "WEBVTT" ++ nl ++ nl
  ++ "00:00:00.000 --> 00:00:02.000" ++ nl
  ++ "Hello world" ++ nl ++ nl
  ++ "00:00:02.000 --> 00:00:04.000" ++ nl
  ++ "Hello world" ++ nl
  ++ "Hello" ++ nl ++ nl
  ++ "00:00:04.000 --> 00:00:06.000" ++ nl
  ++ "world" ++ nl.

(** ** Angle brackets that open no tag *)

(** What follows a [<] that no substitution can turn into the start of a
    timing tag: the end of the line, or a character that is neither a digit
    nor a [<]. *)
Definition harmless_after (u : str) : bool :=
  match u with
  | [] => true
  | c :: _ => negb (Char.isdigit c) && negb (Char.eqb c LT)
  end.

(** Every [<] of the text starts a match of [opens], or is followed as
    [harmless_after] says. *)
Fixpoint angles_guarded (opens : str -> bool) (s : str) : bool :=
  match s with
  | [] => true
  | c :: s' =>
      (if Char.eqb c LT then opens s || harmless_after s' else true)
      && angles_guarded opens s'
  end.

(** A [c] tag starts here. *)
Definition opens_c (u : str) : bool :=
  match Re.c_tag u with
  | Some _ => true
  | None => false
  end.

(** Every [<] of the line opens a complete timing tag or a [c] tag, or is
    followed by the end of the line or by a character that is neither a
    digit nor a [<]. *)
Definition angles_harmless (line : str) : bool :=
  angles_guarded opens_tag line.

(** Lines with the markup of real caption files: voice, italics and class
    tags, a comparison sign, and the tags the normalizer deletes. *)
Definition markup_input : str :=
  "<v Bob>Hello<00:00:01.000><c> world</c></v>" ++ nl
  ++ "<i>so</i> 1 < 2 <c.colorE5E5E5>and</c> align:start position:0%" ++ nl
  ++ "end <".

(** ** The file system of a run *)








(** A caption file with Windows line ends, and one with lone carriage
    returns. *)
Definition crlf_input : str :=
  "WEBVTT" ++ [CR] ++ nl ++ [CR] ++ nl
  ++ "00:00:00.000 --> 00:00:02.000" ++ [CR] ++ nl
  ++ "Hello world" ++ [CR] ++ nl.

Definition cr_input : str := "Hello" ++ [CR] ++ "World" ++ [CR] ++ "Again".

(** A caption tool that writes a file with lone carriage returns. *)
Definition cr_tool (n : nat) (video_id temp_dir : str)
    (d : list (str * str)) : bool * list (str * str) :=
  (false, d ++ [(video_id ++ ".en.vtt", cr_input)]).

(** A file system on which no file can be removed. *)
Definition no_remove_fault (n : nat) (c : fs_call) : option str :=
  match c with
  | Remove _ => Some ("PermissionError" : str)
  | _ => None
  end.


(** ** The retriever without refusals *)

Section Retrieval.

Variable caption_tool :
  nat -> str -> str -> list (str * str) -> bool * list (str * str).

(** What a call of the retriever returns and what it leaves in the scratch
    directory when the file system refuses none of its calls: [n] numbers
    the invocation of the caption tool, [d] is the scratch directory before
    the call. *)
Definition retrieve (n : nat) (video_id temp_dir : str)
    (d : list (str * str)) : option str * list (str * str) :=
  let '(timed_out, d') := caption_tool n video_id temp_dir d in
  if (timed_out : bool) then (None, d')
  else match find_vtt video_id d' with
       | None => (None, d')
       | Some name =>
           (Some (clean_vtt (read_scratch name d')),
            remove_prefixed video_id d')
       end.

(** What the retriever returns for the videos of a list, called for each in
    turn, each call starting with the scratch directory the one before it
    left. *)
Fixpoint retrievals (n : nat) (temp_dir : str) (videos : list (str * str))
    (d : list (str * str)) : list (option str) :=
  match videos with
  | [] => []
  | v :: vs =>
      fst (retrieve n (fst v) temp_dir d)
      :: retrievals (S n) temp_dir vs (snd (retrieve n (fst v) temp_dir d))
  end.

(** The scratch directory after those calls. *)
Fixpoint scratch_after (n : nat) (temp_dir : str) (videos : list (str * str))
    (d : list (str * str)) : list (str * str) :=
  match videos with
  | [] => d
  | v :: vs =>
      scratch_after (S n) temp_dir vs (snd (retrieve n (fst v) temp_dir d))
  end.

End Retrieval.

(** [w'] differs from [w] at most in the scratch directory, in what was
    printed and in the count of calls to the file system. *)
Definition same_outputs (w w' : world) : Prop :=
  dirs w' = dirs w /\ files w' = files w /\ archive w' = archive w
  /\ stderr w' = stderr w /\ clock_reads w' = clock_reads w
  /\ slept w' = slept w.

(** Two machines on which a call of the retriever goes the same way: the
    same count of invocations of the caption tool, the same scratch
    directory, the same count of calls to the file system. *)
Definition agree (w1 w2 : world) : Prop :=
  tool_calls w1 = tool_calls w2 /\ scratch w1 = scratch w2
  /\ fs_calls w1 = fs_calls w2.

(** A computation that ends the same way, and leaves machines that agree,
    when started on machines that agree. *)
Definition respects {A} (c : M A) : Prop :=
  forall w1 w2, agree w1 w2 ->
    fst (c w1) = fst (c w2) /\ agree (snd (c w1)) (snd (c w2)).

(** The paths the loop body gives to the file system for a video: the
    scratch directory, a file in it, an individual transcript file. *)
Definition video_path (out_dir temp_dir p : str) : Prop :=
  p = temp_dir \/ (exists f, p = path_join temp_dir f)
  \/ (exists video_id title, p = individual_path out_dir video_id title).

(** The paths a run gives to the file system. *)
Definition run_path (a : args) (p : str) : Prop :=
  p = output_dir a \/ p = combined_file a \/ p = manifest_path a
  \/ video_path (output_dir a) (temp_dir_of a) p.
(** * Properties *)

(** ** Text and substitution lemmas *)

Section SubLemmas.

Variable m : Re.matcher.

Lemma sub_fuel_enough fuel fuel' (s : str) :
  length s <= fuel -> length s <= fuel' ->
  Re.sub_fuel m fuel s = Re.sub_fuel m fuel' s.
Proof.
  revert fuel' s. induction fuel as [|fuel IH]; intros fuel' s Hf Hf'.
  - destruct s; simpl in Hf; [|lia]. destruct fuel'; reflexivity.
  - destruct fuel' as [|fuel'].
    + destruct s; simpl in Hf'; [reflexivity|lia].
    + destruct s as [|c s]; [reflexivity|]. simpl in Hf, Hf'. simpl.
      destruct (m (c :: s)) as [[|n]|].
      * f_equal. apply IH; lia.
      * apply IH; rewrite length_skipn; lia.
      * f_equal. apply IH; lia.
Qed.

Lemma sub_nil : Re.sub m [] = [].
Proof. reflexivity. Qed.

(** The equation of the scan. *)
Lemma sub_cons c (s : str) :
  Re.sub m (c :: s) =
  match m (c :: s) with
  | Some (S n) => Re.sub m (skipn n s)
  | _ => c :: Re.sub m s
  end.
Proof.
  unfold Re.sub. simpl.
  destruct (m (c :: s)) as [[|n]|]; try reflexivity.
  apply sub_fuel_enough; rewrite ?length_skipn; lia.
Qed.

(** Induction along the scan. *)
Lemma sub_scan_ind (P : str -> str -> Prop) :
  P [] [] ->
  (forall c s, m (c :: s) = None \/ m (c :: s) = Some 0 ->
               P s (Re.sub m s) -> P (c :: s) (c :: Re.sub m s)) ->
  (forall c s n, m (c :: s) = Some (S n) ->
                 P (skipn n s) (Re.sub m (skipn n s)) ->
                 P (c :: s) (Re.sub m (skipn n s))) ->
  forall s, P s (Re.sub m s).
Proof.
  intros Hnil Hkeep Hdrop s.
  remember (length s) as k eqn:Hk. revert s Hk.
  induction k as [k IH] using lt_wf_ind. intros s Hk.
  destruct s as [|c s]; [exact Hnil|].
  rewrite sub_cons. simpl in Hk.
  destruct (m (c :: s)) as [[|n]|] eqn:Hm.
  - apply Hkeep; [auto|]. apply (IH (length s)); [lia|reflexivity].
  - apply Hdrop; [exact Hm|].
    apply (IH (length (skipn n s))); [rewrite length_skipn; lia|reflexivity].
  - apply Hkeep; [auto|]. apply (IH (length s)); [lia|reflexivity].
Qed.

Lemma elem_of_skipn (n : nat) (s : str) c : c ∈ skipn n s -> c ∈ s.
Proof.
  revert s. induction n as [|n IH]; intros [|d s] H; simpl in H; auto.
  apply elem_of_cons. right. auto.
Qed.

(** Substitution only deletes. *)
Lemma elem_of_sub c (s : str) : c ∈ Re.sub m s -> c ∈ s.
Proof.
  revert c. apply (sub_scan_ind (fun s r => forall c, c ∈ r -> c ∈ s)).
  - auto.
  - intros d s' _ IH c Hc. apply elem_of_cons in Hc as [->|Hc].
    + apply elem_of_cons; auto.
    + apply elem_of_cons; right; auto.
  - intros d s' n _ IH c Hc. apply elem_of_cons; right.
    eapply elem_of_skipn; eauto.
Qed.

(** Where no position carries a match, substitution changes nothing. *)
Lemma sub_no_match (s : str) : Re.search m s = false -> Re.sub m s = s.
Proof.
  induction s as [|c s IH]; [reflexivity|].
  simpl. rewrite sub_cons.
  destruct (m (c :: s)); [discriminate|].
  intros H. f_equal. auto.
Qed.

End SubLemmas.

Lemma char_eqb_eq a b : Char.eqb a b = true <-> a = b.
Proof. apply Ascii.eqb_eq. Qed.

Lemma among_elem_of chars c : Char.among chars c = true <-> c ∈ chars.
Proof.
  unfold Char.among. rewrite existsb_exists. split.
  - intros (x & Hin & Heq). apply char_eqb_eq in Heq. subst.
    apply list_elem_of_In; exact Hin.
  - intros H. exists c. split; [apply list_elem_of_In; exact H|].
    apply char_eqb_eq; reflexivity.
Qed.

(** Deleting a character class leaves no character of the class. *)
Lemma sub_char_class chars (s : str) c :
  c ∈ Re.sub (Re.char_class chars) s -> c ∉ chars.
Proof.
  revert c.
  apply (sub_scan_ind (Re.char_class chars)
           (fun _ r => forall c, c ∈ r -> c ∉ chars)).
  - intros c H. inversion H.
  - intros d s' Hm IH c Hc. apply elem_of_cons in Hc as [->|Hc]; [|auto].
    intros Hin. apply among_elem_of in Hin.
    simpl in Hm. rewrite Hin in Hm. destruct Hm; discriminate.
  - intros d s' n _ IH c Hc. auto.
Qed.

Lemma elem_of_dropwhile f (s : str) c : c ∈ Str.dropwhile f s -> c ∈ s.
Proof.
  induction s as [|d s IH]; simpl; [auto|].
  destruct (f d); [|auto]. intros H. apply elem_of_cons; right; auto.
Qed.

Lemma elem_of_rev (s : str) c : c ∈ rev s <-> c ∈ s.
Proof. rewrite !list_elem_of_In. symmetry. apply in_rev. Qed.

Lemma elem_of_strip_by f (s : str) c : c ∈ Str.strip_by f s -> c ∈ s.
Proof.
  unfold Str.strip_by, Str.rstrip_by, Str.lstrip_by. intros H.
  apply (proj1 (elem_of_rev _ _)) in H. apply elem_of_dropwhile in H.
  apply (proj1 (elem_of_rev _ _)) in H. eapply elem_of_dropwhile; eauto.
Qed.

Lemma elem_of_firstn (n : nat) (s : str) c : c ∈ firstn n s -> c ∈ s.
Proof.
  revert s. induction n as [|n IH]; intros [|d s] H; simpl in H;
    try solve [inversion H].
  apply elem_of_cons in H as [->|H]; apply elem_of_cons; auto.
Qed.

(** ** Scenario A (C2) and the filename bound (C7) *)

(** C2. The normalizer maps the caption document of Scenario A (header,
    two cue blocks, the line "Hello world" in both, then "Next line") to
    exactly the text "Hello world Next line". *)
Theorem clean_vtt_scenario_A :
  clean_vtt scenario_A_input = "Hello world Next line".
Proof. vm_compute. reflexivity. Qed.

(** C7. For every title, the sanitized filename holds none of the nine
    forbidden characters, is at most 200 characters long and is not empty;
    the title of Scenario D maps to exactly "AB Test". *)
Theorem sanitize_filename_bound :
  (forall title : str,
      (forall c, c ∈ ["<"; ">"; ":"; DQUOTE; "/"; "\"; "|"; "?"; "*"]%char ->
                 c ∉ sanitize_filename title)
      /\ length (sanitize_filename title) <= 200
      /\ sanitize_filename title <> [])
  /\ sanitize_filename scenario_D_title = "AB Test".
Proof.
  split; [|vm_compute; reflexivity].
  intros title. unfold sanitize_filename.
  destruct (Str.strip_chars ". " (Re.sub (Re.char_class forbidden_chars) title))
    as [|a safe] eqn:Hsafe.
  - split; [|split].
    + intros c Hc Hin. apply among_elem_of in Hc.
      change (c ∈ ["u"; "n"; "t"; "i"; "t"; "l"; "e"; "d"]%char) in Hin.
      repeat (apply elem_of_cons in Hin as [->|Hin];
              [vm_compute in Hc; discriminate Hc|]).
      inversion Hin.
    + vm_compute. lia.
    + discriminate.
  - split; [|split].
    + intros c Hc Hin. unfold Str.slice_to in Hin.
      assert (Hin' : c ∈ a :: safe) by (eapply elem_of_firstn; eauto).
      rewrite <- Hsafe in Hin'. apply elem_of_strip_by in Hin'.
      apply sub_char_class in Hin'. apply Hin'. exact Hc.
    + unfold Str.slice_to. rewrite length_firstn. lia.
    + discriminate.
Qed.

(** ** The dedup property of the normalizer (C3) *)

Lemma clean_step_kept st line :
  clean_step st line =
  match kept_text line with
  | None => st
  | Some text => dedup_step st text
  end.
Proof.
  destruct st as [cleaned seen]. unfold clean_step, kept_text, dedup_step.
  destruct (skipped_line line); [reflexivity|].
  destruct (strip_markup line); reflexivity.
Qed.

Lemma foldl_clean_step lines st :
  foldl clean_step st lines = foldl dedup_step st (omap kept_text lines).
Proof.
  revert st. induction lines as [|line lines IH]; intros st; [reflexivity|].
  simpl. rewrite clean_step_kept.
  destruct (kept_text line); simpl; apply IH.
Qed.

Lemma clean_lines_texts doc :
  clean_lines doc = fst (foldl dedup_step ([], ∅) (texts doc)).
Proof. unfold clean_lines, texts. rewrite foldl_clean_step. reflexivity. Qed.

Lemma dedup_inv_init : dedup_inv ([], ∅).
Proof.
  split; [|constructor]. intros u; simpl.
  rewrite elem_of_nil. set_solver.
Qed.

Lemma dedup_run ts : forall st,
  dedup_inv st ->
  exists ext,
    fst (foldl dedup_step st ts) = fst st ++ ext
    /\ dedup_inv (foldl dedup_step st ts)
    /\ (forall u, u ∈ ext -> u ∈ ts)
    /\ (forall u, u ∈ ts -> u ∈ fst st ++ ext).
Proof.
  induction ts as [|t ts IH]; intros [cl seen] [Hseen Hnd]; simpl in *.
  - exists []. rewrite app_nil_r.
    split; [reflexivity|]. split; [split; assumption|].
    split; intros u Hu; inversion Hu.
  - unfold dedup_step at 2 4. simpl. destruct (decide (t ∈ seen)) as [Hin|Hnin].
    + destruct (IH (cl, seen)) as (ext & Heq & Hinv & Hsub & Hsup).
      { split; assumption. }
      exists ext. split; [exact Heq|]. split; [exact Hinv|]. split.
      * intros u Hu. apply elem_of_cons; right; auto.
      * intros u Hu. apply elem_of_cons in Hu as [->|Hu]; [|auto].
        apply elem_of_app; left. apply Hseen; exact Hin.
    + destruct (IH (cl ++ [t], {[ t ]} ∪ seen)) as (ext & Heq & Hinv & Hsub & Hsup).
      { split; simpl.
        - intros u. rewrite elem_of_union, elem_of_singleton, elem_of_app,
            list_elem_of_singleton, Hseen. tauto.
        - apply NoDup_app. split; [exact Hnd|]. split; [|apply NoDup_singleton].
          intros u Hu Hu'. apply list_elem_of_singleton in Hu'. subst u.
          apply Hnin, Hseen, Hu. }
      simpl in *. exists (t :: ext). rewrite <- app_assoc in Heq. simpl in Heq.
      split; [exact Heq|]. split; [exact Hinv|]. split.
      * intros u Hu. apply elem_of_cons in Hu as [->|Hu];
          apply elem_of_cons; auto.
      * intros u Hu. apply elem_of_cons in Hu as [->|Hu].
        -- apply elem_of_app; right; apply elem_of_cons; auto.
        -- specialize (Hsup u Hu). rewrite <- app_assoc in Hsup. exact Hsup.
Qed.

Lemma foldl_app_dedup st pre post :
  foldl dedup_step st (pre ++ post) = foldl dedup_step (foldl dedup_step st pre) post.
Proof. apply foldl_app. Qed.

Lemma foldl_dedup_fresh ts : forall cl seen,
  fst (foldl dedup_step (cl, seen) ts) = cl ++ fresh_texts seen ts.
Proof.
  induction ts as [|t ts IH]; intros cl seen; simpl.
  - rewrite app_nil_r. reflexivity.
  - unfold dedup_step at 2. simpl.
    destruct (decide (t ∈ seen)); [apply IH|].
    rewrite IH, <- app_assoc. reflexivity.
Qed.

Lemma filter_both {A} (p q : A -> bool) (l : list A) :
  List.filter p (List.filter q l) = List.filter (fun x => q x && p x) l.
Proof.
  induction l as [|x l IH]; [reflexivity|]. simpl.
  destruct (q x); simpl; [destruct (p x)|]; rewrite ?IH; reflexivity.
Qed.

Lemma filter_all {A} (p : A -> bool) (l : list A) :
  (forall x, x ∈ l -> p x = true) -> List.filter p l = l.
Proof.
  induction l as [|x l IH]; intros H; [reflexivity|]. simpl.
  rewrite (H x) by (apply elem_of_cons; auto). f_equal.
  apply IH. intros y Hy. apply H. apply elem_of_cons; auto.
Qed.

(** The seen-set loop started from the set [seen] retains the first
    occurrences that are not in [seen]. *)
Lemma fresh_first_occurrences ts : forall seen : gset str,
  fresh_texts seen ts
  = List.filter (fun u => bool_decide (u ∉ seen)) (first_occurrences ts).
Proof.
  induction ts as [|t ts IH]; intros seen; [reflexivity|].
  cbn [fresh_texts first_occurrences List.filter].
  destruct (decide (t ∈ seen)) as [Hin|Hnin].
  - rewrite bool_decide_eq_false_2 by (intros Hn; exact (Hn Hin)).
    rewrite IH, filter_both. apply filter_ext_in. intros u _.
    destruct (bool_decide (u = t)) eqn:Hu; [|reflexivity].
    apply bool_decide_eq_true_1 in Hu. subst u. simpl.
    apply bool_decide_eq_false_2. intros Hn; exact (Hn Hin).
  - rewrite bool_decide_eq_true_2 by exact Hnin. f_equal.
    rewrite IH, filter_both. apply filter_ext_in. intros u _.
    destruct (bool_decide (u = t)) eqn:Hu; simpl.
    + apply bool_decide_eq_true_1 in Hu. subst u.
      apply bool_decide_eq_false_2. intros Hn. apply Hn.
      apply elem_of_union. left. apply elem_of_singleton. reflexivity.
    + apply bool_decide_eq_false_1 in Hu. apply bool_decide_ext.
      rewrite elem_of_union, elem_of_singleton. tauto.
Qed.

Lemma elem_of_first_occurrences ts u : u ∈ first_occurrences ts <-> u ∈ ts.
Proof.
  induction ts as [|t ts IH]; [reflexivity|].
  cbn [first_occurrences]. rewrite !elem_of_cons, <- IH.
  rewrite !list_elem_of_In, filter_In, <- !list_elem_of_In.
  destruct (decide (u = t)) as [->|Hne]; [tauto|].
  rewrite bool_decide_eq_false_2 by exact Hne. simpl. tauto.
Qed.

Lemma first_occurrences_app a : forall b,
  first_occurrences (a ++ b)
  = first_occurrences a
    ++ List.filter (fun u => bool_decide (u ∉ a)) (first_occurrences b).
Proof.
  induction a as [|x a IH]; intros b.
  - cbn [app first_occurrences]. symmetry. apply filter_all. intros u _.
    apply bool_decide_eq_true_2. apply not_elem_of_nil.
  - cbn [app first_occurrences]. f_equal.
    rewrite IH, List.filter_app. f_equal.
    rewrite filter_both. apply filter_ext_in. intros u _.
    destruct (decide (u = x)) as [->|Hne].
    + rewrite (bool_decide_eq_false_2 (x ∉ x :: a))
        by (intros Hn; apply Hn; apply elem_of_cons; auto).
      rewrite (bool_decide_eq_true_2 (x = x)) by reflexivity.
      apply andb_false_r.
    + rewrite (bool_decide_eq_false_2 (u = x)) by exact Hne.
      cbn [negb]. rewrite andb_true_r. apply bool_decide_ext.
      rewrite elem_of_cons. tauto.
Qed.

Lemma join_around (b a : list str) (t : str) :
  Str.join " " (b ++ t :: a)
  = concat (map (fun u => u ++ " ") b) ++ t
    ++ concat (map (fun u => " " ++ u) a).
Proof.
  assert (Hbase : forall (a : list str) (t : str),
             Str.join " " (t :: a) = t ++ concat (map (fun u => " " ++ u) a)).
  { clear. induction a as [|x a IH]; intros t.
    - simpl. rewrite app_nil_r. reflexivity.
    - change (Str.join " " (t :: x :: a))
        with (t ++ (" " : str) ++ Str.join " " (x :: a)).
      rewrite IH. cbn [map concat]. rewrite <- !app_assoc. reflexivity. }
  induction b as [|x b IH]; [apply Hbase|].
  destruct b as [|y b].
  - cbn [app map concat].
    change (Str.join " " (x :: t :: a))
      with (x ++ (" " : str) ++ Str.join " " (t :: a)).
    rewrite Hbase, app_nil_r, <- !app_assoc. reflexivity.
  - change (Str.join " " ((x :: y :: b) ++ t :: a))
      with (x ++ (" " : str) ++ Str.join " " ((y :: b) ++ t :: a)).
    rewrite IH. cbn [map concat]. rewrite <- !app_assoc. reflexivity.
Qed.

Lemma clean_lines_first_occurrences doc :
  clean_lines doc = first_occurrences (texts doc).
Proof.
  rewrite clean_lines_texts, foldl_dedup_fresh, fresh_first_occurrences.
  simpl. apply filter_all. intros u _.
  apply bool_decide_eq_true_2. apply not_elem_of_empty.
Qed.

(** C3, as stated, fails on the output text: when other retained lines
    spell the repeated line, its content stands in the output more than
    once.  The line [Hello world] of the first two cue blocks is retained
    once, and the lines [Hello] and [world] that follow spell it again. *)
Lemma clean_vtt_dedup_counterexample :
  texts rolling_input
  = [("Hello world" : str); ("Hello world" : str); ("Hello" : str);
     ("world" : str)]
  /\ clean_vtt rolling_input = "Hello world Hello world"
  /\ occurrences "Hello world" (clean_vtt rolling_input) = 2.
Proof. vm_compute. repeat split; reflexivity. Qed.

(** C3, amended.  The list of retained lines, which the output joins with
    single spaces, is the list of the stripped text lines of the document
    without the repetitions: each text stands where it first occurs, in
    the order of the first occurrences.  So a text [t] that first occurs
    after the stripped lines [pre] is retained exactly once, after the
    first occurrences of [pre] and before lines that come after it in the
    document; in the output it starts right after the retained lines that
    precede it, each followed by one space. *)
Theorem clean_vtt_dedup (doc : str) :
  clean_lines doc = first_occurrences (texts doc)
  /\ clean_vtt doc = Str.join " " (first_occurrences (texts doc))
  /\ forall (pre post : list str) (t : str),
       texts doc = pre ++ t :: post -> t ∉ pre ->
       exists after,
         clean_lines doc = first_occurrences pre ++ t :: after
         /\ (t ∉ first_occurrences pre) /\ (t ∉ after)
         /\ (forall u, u ∈ after -> u ∈ post)
         /\ clean_vtt doc
            = concat (map (fun u => u ++ " ") (first_occurrences pre))
              ++ t ++ concat (map (fun u => " " ++ u) after).
Proof.
  split; [apply clean_lines_first_occurrences|].
  split; [unfold clean_vtt; rewrite clean_lines_first_occurrences; reflexivity|].
  intros pre post t Htexts Hpre.
  exists (List.filter (fun u => bool_decide (u ∉ pre))
            (List.filter (fun u => negb (bool_decide (u = t)))
                         (first_occurrences post))).
  assert (Hcl : clean_lines doc
                = first_occurrences pre
                  ++ t :: List.filter (fun u => bool_decide (u ∉ pre))
                            (List.filter (fun u => negb (bool_decide (u = t)))
                                         (first_occurrences post))).
  { rewrite clean_lines_first_occurrences, Htexts, first_occurrences_app.
    cbn [first_occurrences List.filter].
    rewrite bool_decide_eq_true_2 by exact Hpre. reflexivity. }
  split; [exact Hcl|].
  split; [rewrite elem_of_first_occurrences; exact Hpre|].
  split.
  { intros Hin. apply list_elem_of_In, filter_In in Hin as [Hin _].
    apply filter_In in Hin as [_ Hin].
    rewrite bool_decide_eq_true_2 in Hin by reflexivity. discriminate. }
  split.
  { intros u Hu. apply list_elem_of_In, filter_In in Hu as [Hu _].
    apply filter_In in Hu as [Hu _].
    apply elem_of_first_occurrences, list_elem_of_In, Hu. }
  unfold clean_vtt. rewrite Hcl. apply join_around.
Qed.

Lemma clean_vtt_dedup_witness :
  exists after,
    clean_lines rolling_input
    = first_occurrences [] ++ ("Hello world" : str) :: after
    /\ (("Hello world" : str) ∉ first_occurrences [])
    /\ (("Hello world" : str) ∉ after)
    /\ (forall u, u ∈ after ->
          u ∈ [("Hello world" : str); ("Hello" : str); ("world" : str)])
    /\ clean_vtt rolling_input
       = concat (map (fun u => u ++ " ") (first_occurrences []))
         ++ ("Hello world" : str) ++ concat (map (fun u => " " ++ u) after).
Proof.
  apply (proj2 (proj2 (clean_vtt_dedup rolling_input)) []
           [("Hello world" : str); ("Hello" : str); ("world" : str)]
           "Hello world").
  - vm_compute. reflexivity.
  - apply not_elem_of_nil.
Defined.

(** ** Matches and windows *)

Lemma startswith_spec (s p : str) :
  Str.startswith s p = true <-> exists x, s = p ++ x.
Proof.
  revert s. induction p as [|a p IH]; intros s; simpl.
  - split; [intros _; exists s; reflexivity|auto].
  - destruct s as [|b s].
    + split; [discriminate|]. intros [x Hx]; discriminate.
    + rewrite andb_true_iff, char_eqb_eq, IH. split.
      * intros [-> [x ->]]. exists x; reflexivity.
      * intros [x Hx]. injection Hx as -> ->. split; [reflexivity|eauto].
Qed.

Lemma startswith_app (p x : str) : Str.startswith (p ++ x) p = true.
Proof. apply startswith_spec. eauto. Qed.

Lemma search_false_cons m c (s : str) :
  Re.search m (c :: s) = false <-> m (c :: s) = None /\ Re.search m s = false.
Proof.
  simpl. destruct (m (c :: s)); split; try discriminate; intuition auto.
  discriminate.
Qed.

Lemma search_false_nil m : Re.search m [] = false <-> m [] = None.
Proof. simpl. destruct (m []); split; auto; discriminate. Qed.

Lemma search_false_skipn m n (s : str) :
  Re.search m s = false -> Re.search m (skipn n s) = false.
Proof.
  revert s. induction n as [|n IH]; intros s H; [exact H|].
  destruct s as [|c s]; [exact H|]. simpl skipn.
  apply search_false_cons in H as [_ H]. auto.
Qed.

Lemma search_false_head m (s : str) : Re.search m s = false -> m s = None.
Proof. destruct s; simpl; destruct (m _); auto; discriminate. Qed.

Lemma prefix_kept_cons c s r : prefix_kept s r -> prefix_kept (c :: s) (c :: r).
Proof.
  intros H [|a p] Hp Hr; [reflexivity|]. simpl in *.
  apply andb_true_iff in Hp as [_ Hp]. apply andb_true_iff in Hr as [-> Hr].
  simpl. auto.
Qed.

Lemma prefix_kept_gap s r : at_gap r = true -> prefix_kept s r.
Proof.
  intros Hg [|a p] Hp Hr; [reflexivity|]. exfalso.
  destruct r as [|c r]; [discriminate|]. simpl in *.
  apply andb_true_iff in Hr as [Heq _]. apply char_eqb_eq in Heq. subst c.
  apply andb_true_iff in Hp as [Hp _]. unfold nonspace in Hp.
  rewrite Hg in Hp. discriminate.
Qed.

Lemma windowed_prefix_kept m s r :
  windowed m -> prefix_kept s r -> m s = None -> m r = None.
Proof.
  intros Hw Hk Hs. destruct (m r) eqn:Hr; [|reflexivity]. exfalso.
  destruct (Hw r) as (p & _ & Hp & Hpre & Hall); [congruence|].
  apply (Hall s); auto.
Qed.

Section Keyed.

Variable key : str.
Hypothesis key_nonspace : forallb nonspace key = true.
Hypothesis key_nonempty : key <> [].

Lemma skipn_length_app (p x : str) : skipn (length p) (p ++ x) = x.
Proof. induction p; simpl; auto. Qed.

Lemma keyed_token_spec u :
  Re.keyed_token key u <> None <->
  exists d x, nonspace d = true /\ u = key ++ d :: x.
Proof.
  unfold Re.keyed_token. split.
  - destruct (Str.startswith u key) eqn:Hs; [|congruence].
    apply startswith_spec in Hs as [x ->]. rewrite skipn_length_app.
    destruct x as [|d x]; simpl; [congruence|].
    fold (nonspace d). destruct (nonspace d) eqn:Hd; [|congruence].
    intros _. eauto.
  - intros (d & x & Hd & ->). rewrite startswith_app, skipn_length_app.
    simpl. fold (nonspace d). rewrite Hd. discriminate.
Qed.

Lemma keyed_token_positive u : Re.keyed_token key u <> Some 0.
Proof.
  unfold Re.keyed_token. destruct (Str.startswith u key); [|discriminate].
  destruct (Str.takewhile _ _) eqn:Ht; [discriminate|].
  simpl. rewrite Nat.add_succ_r. discriminate.
Qed.

Lemma windowed_keyed_token : windowed (Re.keyed_token key).
Proof.
  intros u Hu. apply keyed_token_spec in Hu as (d & x & Hd & ->).
  exists (key ++ [d]). split; [|split; [|split]].
  - destruct key; discriminate.
  - rewrite forallb_app, key_nonspace. simpl. rewrite Hd. reflexivity.
  - apply startswith_spec. exists x. rewrite <- app_assoc. reflexivity.
  - intros u' Hu'. apply startswith_spec in Hu' as [x' ->].
    apply keyed_token_spec. exists d, x'. split; [exact Hd|].
    rewrite <- app_assoc. reflexivity.
Qed.

Lemma keyed_token_gap u : at_gap u = true -> Re.keyed_token key u = None.
Proof.
  intros Hg. destruct (Re.keyed_token key u) eqn:Hk; [|reflexivity]. exfalso.
  assert (Hne : Re.keyed_token key u <> None) by congruence.
  apply keyed_token_spec in Hne as (d & x & _ & ->).
  destruct key as [|k key']; [congruence|]. simpl in *.
  apply andb_true_iff in key_nonspace as [Hk0 _]. unfold nonspace in Hk0.
  rewrite Hg in Hk0. discriminate.
Qed.

(** What follows a match is empty or starts with white space. *)
Lemma keyed_token_rest c (s : str) n :
  Re.keyed_token key (c :: s) = Some (S n) -> at_gap (skipn n s) = true.
Proof.
  unfold Re.keyed_token. destruct (Str.startswith (c :: s) key) eqn:Hs; [|discriminate].
  apply startswith_spec in Hs as [x Hx]. rewrite Hx, skipn_length_app.
  destruct (Str.takewhile _ x) as [|d run] eqn:Hrun; [discriminate|].
  intros [= Hn].
  assert (Hskip : skipn n s = skipn (length (d :: run)) x).
  { change (skipn n s) with (skipn (S n) (c :: s)).
    rewrite Hx, <- Hn, skipn_app, Nat.add_comm, Nat.add_sub.
    rewrite (skipn_all2 key) by lia. reflexivity. }
  rewrite Hskip, <- Hrun. clear.
  induction x as [|a x IH]; simpl; [reflexivity|].
  destruct (Char.isspace a) eqn:Ha; simpl; [exact Ha|exact IH].
Qed.

Lemma sub_keyed_gap u :
  at_gap u = true -> at_gap (Re.sub (Re.keyed_token key) u) = true.
Proof.
  intros Hg. destruct u as [|c u]; [reflexivity|].
  rewrite sub_cons, (keyed_token_gap _ Hg). exact Hg.
Qed.

(** Deleting the tokens of a key keeps every space-free prefix among the
    prefixes of the original. *)
Lemma sub_keyed_prefix_kept s : prefix_kept s (Re.sub (Re.keyed_token key) s).
Proof.
  apply (sub_scan_ind (Re.keyed_token key) prefix_kept).
  - intros p _ H; exact H.
  - intros c s' _ IH. apply prefix_kept_cons, IH.
  - intros c s' n Hm _. apply prefix_kept_gap, sub_keyed_gap.
    eapply keyed_token_rest; eauto.
Qed.

(** After the deletion no token of the key is left. *)
Lemma sub_keyed_clears s :
  Re.search (Re.keyed_token key) (Re.sub (Re.keyed_token key) s) = false.
Proof.
  apply (sub_scan_ind (Re.keyed_token key)
           (fun _ r => Re.search (Re.keyed_token key) r = false)).
  - apply search_false_nil. unfold Re.keyed_token.
    destruct key; [congruence|reflexivity].
  - intros c s' Hm IH. apply search_false_cons. split; [|exact IH].
    destruct Hm as [Hm|Hm]; [|destruct (keyed_token_positive _ Hm)].
    eapply windowed_prefix_kept; [apply windowed_keyed_token| |exact Hm].
    apply prefix_kept_cons, sub_keyed_prefix_kept.
  - intros c s' n _ IH. exact IH.
Qed.

(** The deletion creates no match of a windowed pattern. *)
Lemma sub_keyed_preserves m s :
  windowed m ->
  Re.search m s = false -> Re.search m (Re.sub (Re.keyed_token key) s) = false.
Proof.
  intros Hw.
  apply (sub_scan_ind (Re.keyed_token key)
           (fun s r => Re.search m s = false -> Re.search m r = false)).
  - auto.
  - intros c s' _ IH H. apply search_false_cons in H as [Hh Ht].
    apply search_false_cons. split; [|auto].
    eapply windowed_prefix_kept; [exact Hw| |exact Hh].
    apply prefix_kept_cons, sub_keyed_prefix_kept.
  - intros c s' n _ IH H. apply IH.
    apply search_false_cons in H as [_ H]. apply search_false_skipn, H.
Qed.

End Keyed.

Lemma digit_nonspace d : Char.isdigit d = true -> nonspace d = true.
Proof.
  destruct d as [[] [] [] [] [] [] [] []]; vm_compute; congruence.
Qed.

Lemma timing_tag_spec u :
  Re.timing_tag u <> None <->
  exists h1 h2 m1 m2 s1 s2 f1 f2 f3 x,
    forallb Char.isdigit [h1; h2; m1; m2; s1; s2; f1; f2; f3] = true
    /\ u = ["<"; h1; h2; ":"; m1; m2; ":"; s1; s2; "."; f1; f2; f3; ">"]%char ++ x.
Proof.
  split.
  - unfold Re.timing_tag, Re.clock.
    destruct u as [|c u]; [congruence|].
    destruct (Char.eqb c "<") eqn:Hc; [|congruence].
    destruct u as [|h1 [|h2 [|c1 [|m1 [|m2 [|c2 [|s1 [|s2 [|d [|f1 [|f2 [|f3 rest]]]]]]]]]]]];
      try congruence.
    match goal with |- context [if ?b then Some rest else None] =>
      destruct b eqn:Hb end; [|congruence].
    destruct rest as [|g rest]; [congruence|].
    destruct (Char.eqb g ">") eqn:Hg; [|congruence]. intros _.
    do 11 (apply andb_true_iff in Hb as [Hb ?]).
    repeat match goal with H : Char.eqb _ _ = true |- _ =>
      apply char_eqb_eq in H; subst end.
    exists h1, h2, m1, m2, s1, s2, f1, f2, f3, rest. split; [|reflexivity].
    simpl. repeat match goal with H : Char.isdigit _ = true |- _ =>
      rewrite H; clear H end. reflexivity.
  - intros (h1 & h2 & m1 & m2 & s1 & s2 & f1 & f2 & f3 & x & Hd & ->).
    simpl in Hd. do 9 (apply andb_true_iff in Hd as [? Hd]).
    unfold Re.timing_tag, Re.clock. simpl.
    repeat match goal with H : Char.isdigit _ = true |- _ =>
      rewrite H; clear H end.
    simpl. discriminate.
Qed.

Lemma windowed_timing_tag : windowed Re.timing_tag.
Proof.
  intros u Hu.
  apply timing_tag_spec in Hu
    as (h1 & h2 & m1 & m2 & s1 & s2 & f1 & f2 & f3 & x & Hd & ->).
  exists ["<"; h1; h2; ":"; m1; m2; ":"; s1; s2; "."; f1; f2; f3; ">"]%char.
  split; [discriminate|]. split; [|split].
  - simpl in Hd. do 9 (apply andb_true_iff in Hd as [? Hd]).
    simpl. repeat match goal with H : Char.isdigit _ = true |- _ =>
      apply digit_nonspace in H; rewrite H; clear H end.
    reflexivity.
  - apply startswith_app.
  - intros u' Hu'. apply startswith_spec in Hu' as [x' ->].
    apply timing_tag_spec. exists h1, h2, m1, m2, s1, s2, f1, f2, f3, x'.
    split; [exact Hd|reflexivity].
Qed.

Lemma windowed_gap m u : windowed m -> at_gap u = true -> m u = None.
Proof.
  intros Hw Hg. destruct (m u) eqn:Hm; [|reflexivity]. exfalso.
  destruct (Hw u) as (p & Hne & Hp & Hpre & _); [congruence|].
  destruct p as [|a p]; [congruence|].
  destruct u as [|c u]; [discriminate|]. simpl in *.
  apply andb_true_iff in Hpre as [Heq _]. apply char_eqb_eq in Heq. subst c.
  apply andb_true_iff in Hp as [Hp _]. unfold nonspace in Hp.
  rewrite Hg in Hp. discriminate.
Qed.

Lemma prefix_kept_app_gap a b : at_gap b = true -> prefix_kept a (a ++ b).
Proof.
  intros Hg. induction a as [|c a IH]; simpl.
  - apply prefix_kept_gap, Hg.
  - apply prefix_kept_cons, IH.
Qed.

(** Joining two texts at white space: no match of a windowed pattern
    appears. *)
Lemma search_app_gap m a b :
  windowed m -> at_gap b = true ->
  Re.search m a = false -> Re.search m b = false ->
  Re.search m (a ++ b) = false.
Proof.
  intros Hw Hg Ha Hb. induction a as [|c a IH]; [exact Hb|].
  apply search_false_cons in Ha as [Hh Ht].
  change ((c :: a) ++ b) with (c :: (a ++ b)).
  apply search_false_cons. split; [|auto].
  eapply windowed_prefix_kept; [exact Hw| |exact Hh].
  apply (prefix_kept_app_gap (c :: a) b Hg).
Qed.

(** Cutting the end of a text off: no match of a windowed pattern
    appears. *)
Lemma search_prefix m a b :
  windowed m -> Re.search m (a ++ b) = false -> Re.search m a = false.
Proof.
  intros Hw. induction a as [|c a IH]; intros H.
  - apply search_false_nil. apply windowed_gap; auto.
  - change ((c :: a) ++ b) with (c :: (a ++ b)) in H.
    apply search_false_cons in H as [Hh Ht].
    apply search_false_cons. split; [|auto].
    destruct (m (c :: a)) eqn:Hm; [|reflexivity]. exfalso.
    destruct (Hw (c :: a)) as (p & _ & _ & Hpre & Hall); [congruence|].
    apply (Hall (c :: a ++ b)); [|exact Hh].
    apply startswith_spec in Hpre as [x Hx]. apply startswith_spec.
    exists (x ++ b). change (c :: a ++ b) with ((c :: a) ++ b).
    rewrite Hx, <- app_assoc. reflexivity.
Qed.

Lemma dropwhile_suffix f (s : str) : exists x, s = x ++ Str.dropwhile f s.
Proof.
  induction s as [|c s [x IH]]; simpl; [exists []; reflexivity|].
  destruct (f c); [|exists []; reflexivity].
  exists (c :: x). simpl. f_equal. exact IH.
Qed.

Lemma dropwhile_skipn f (s : str) : exists k, Str.dropwhile f s = skipn k s.
Proof.
  induction s as [|c s [k IH]]; simpl; [exists 0; reflexivity|].
  destruct (f c); [exists (S k); exact IH|exists 0; reflexivity].
Qed.

Lemma rstrip_prefix f (s : str) : exists y, s = Str.rstrip_by f s ++ y.
Proof.
  unfold Str.rstrip_by. destruct (dropwhile_suffix f (rev s)) as [x Hx].
  exists (rev x). rewrite <- rev_app_distr, <- Hx, rev_involutive. reflexivity.
Qed.

Lemma search_strip m (s : str) :
  windowed m -> Re.search m s = false -> Re.search m (Str.strip s) = false.
Proof.
  intros Hw H. unfold Str.strip, Str.strip_by, Str.lstrip_by.
  destruct (dropwhile_skipn Char.isspace s) as [k Hk]. rewrite Hk.
  apply (search_false_skipn m k) in H.
  destruct (rstrip_prefix Char.isspace (skipn k s)) as [y Hy].
  rewrite Hy in H. eapply search_prefix; eauto.
Qed.

Lemma search_join m (parts : list str) :
  windowed m ->
  (forall t, t ∈ parts -> Re.search m t = false) ->
  Re.search m (Str.join " " parts) = false.
Proof.
  intros Hw. induction parts as [|p ps IH]; intros H.
  - apply search_false_nil, windowed_gap; auto.
  - destruct ps as [|q ps].
    + simpl. apply H. apply elem_of_cons; auto.
    + change (Str.join " " (p :: q :: ps))
        with (p ++ (" " : str) ++ Str.join " " (q :: ps)).
      apply search_app_gap; auto.
      * apply H. apply elem_of_cons; auto.
      * change ((" " : str) ++ Str.join " " (q :: ps))
          with (" "%char :: Str.join " " (q :: ps)).
        apply search_false_cons. split.
        -- apply windowed_gap; auto.
        -- apply IH. intros t Ht. apply H. apply elem_of_cons; auto.
Qed.

(** Every retained line is the stripped markup of a line of the document. *)
Lemma clean_lines_origin doc t :
  t ∈ clean_lines doc ->
  exists line, line ∈ Str.split LF doc /\ t = strip_markup line.
Proof.
  intros Ht. rewrite clean_lines_texts in Ht.
  destruct (dedup_run (texts doc) ([], ∅) dedup_inv_init) as (ext & Heq & _ & Hsub & _).
  rewrite Heq in Ht. simpl in Ht. apply Hsub in Ht.
  unfold texts in Ht. apply list_elem_of_omap in Ht as (line & Hline & Hk).
  exists line. split; [exact Hline|].
  unfold kept_text in Hk. destruct (skipped_line line); [discriminate|].
  destruct (strip_markup line); [discriminate|]. congruence.
Qed.

Lemma nonspace_align : forallb nonspace ("align:" : str) = true.
Proof. reflexivity. Qed.
Lemma nonspace_position : forallb nonspace ("position:" : str) = true.
Proof. reflexivity. Qed.

Lemma windowed_align : windowed Re.align_token.
Proof. apply windowed_keyed_token; [reflexivity|discriminate]. Qed.
Lemma windowed_position : windowed Re.position_token.
Proof. apply windowed_keyed_token; [reflexivity|discriminate]. Qed.

Lemma strip_markup_no_align line :
  Re.search Re.align_token (strip_markup line) = false.
Proof.
  unfold strip_markup. apply search_strip; [apply windowed_align|].
  apply sub_keyed_preserves; [reflexivity|discriminate|apply windowed_align|].
  apply sub_keyed_clears; [reflexivity|discriminate].
Qed.

Lemma strip_markup_no_position line :
  Re.search Re.position_token (strip_markup line) = false.
Proof.
  unfold strip_markup. apply search_strip; [apply windowed_position|].
  apply sub_keyed_clears; [reflexivity|discriminate].
Qed.

Lemma clean_vtt_no_align doc : Re.search Re.align_token (clean_vtt doc) = false.
Proof.
  apply search_join; [apply windowed_align|]. intros t Ht.
  apply clean_lines_origin in Ht as (line & _ & ->). apply strip_markup_no_align.
Qed.

Lemma clean_vtt_no_position doc :
  Re.search Re.position_token (clean_vtt doc) = false.
Proof.
  apply search_join; [apply windowed_position|]. intros t Ht.
  apply clean_lines_origin in Ht as (line & _ & ->).
  apply strip_markup_no_position.
Qed.

(** ** Inline tags *)

Lemma angles_open_tags_skipn n s :
  angles_open_tags s = true -> angles_open_tags (skipn n s) = true.
Proof.
  revert s. induction n as [|n IH]; intros [|c s] H; simpl; auto.
  simpl in H. apply andb_true_iff in H as [_ H]. auto.
Qed.

Lemma angles_open_c_skipn n s :
  angles_open_c s = true -> angles_open_c (skipn n s) = true.
Proof.
  revert s. induction n as [|n IH]; intros [|c s] H; simpl; auto.
  simpl in H. apply andb_true_iff in H as [_ H]. auto.
Qed.

Lemma timing_tag_head c s n : Re.timing_tag (c :: s) = Some n -> c = LT /\ n = 14.
Proof.
  unfold Re.timing_tag. destruct (Char.eqb c "<") eqn:Hc; [|discriminate].
  apply char_eqb_eq in Hc. destruct (Re.clock s) as [[|g r]|]; try discriminate.
  destruct (Char.eqb g ">"); [|discriminate]. intros [= <-]. auto.
Qed.

Lemma c_tag_spec u :
  Re.c_tag u <> None <-> Str.startswith u "<c>" = true \/ Str.startswith u "</c>" = true.
Proof.
  unfold Re.c_tag. destruct (Str.startswith u "<c>"); [intuition congruence|].
  destruct (Str.startswith u "</c>"); intuition congruence.
Qed.

Lemma c_tag_positive u : Re.c_tag u <> Some 0.
Proof.
  unfold Re.c_tag. destruct (Str.startswith u "<c>"); [discriminate|].
  destruct (Str.startswith u "</c>"); discriminate.
Qed.

Lemma startswith_cons c (s : str) a p :
  Str.startswith (c :: s) (a :: p) = Char.eqb a c && Str.startswith s p.
Proof. reflexivity. Qed.

Lemma sub_timing_plain_prefix s : plain_prefix_kept s (Re.sub Re.timing_tag s).
Proof.
  apply (sub_scan_ind Re.timing_tag plain_prefix_kept).
  - intros p _ H; exact H.
  - intros c s' _ IH [|a p] Hp H; [reflexivity|]. simpl in *.
    apply andb_true_iff in H as [-> H]. simpl. apply IH; [|exact H].
    intros Hin. apply Hp. apply elem_of_cons; auto.
  - intros c s' n Hm _ [|a p] Hp H; [reflexivity|]. exfalso.
    apply timing_tag_head in Hm as [-> _]. simpl in H.
    apply andb_true_iff in H as [Ha _]. apply char_eqb_eq in Ha. subst a.
    apply Hp. apply elem_of_cons; auto.
Qed.

(** After the timing tags are deleted, every [<] left opens a [c] tag. *)
Lemma sub_timing_angles s :
  angles_open_tags s = true -> angles_open_c (Re.sub Re.timing_tag s) = true.
Proof.
  apply (sub_scan_ind Re.timing_tag
           (fun s r => angles_open_tags s = true -> angles_open_c r = true)).
  - auto.
  - intros c s' Hm IH H. simpl in H. apply andb_true_iff in H as [Hc H].
    simpl. apply andb_true_iff. split; [|auto].
    destruct (Char.eqb c LT) eqn:Hlt; [|reflexivity].
    apply char_eqb_eq in Hlt. subst c.
    assert (Hnone : Re.timing_tag (LT :: s') = None).
    { destruct Hm as [Hm|Hm]; [exact Hm|].
      apply timing_tag_head in Hm as [_ Hm]. discriminate. }
    unfold opens_tag in Hc. rewrite Hnone in Hc.
    assert (Hct : Re.c_tag (LT :: s') <> None)
      by (destruct (Re.c_tag (LT :: s')); congruence).
    assert (Hct' : Re.c_tag (LT :: Re.sub Re.timing_tag s') <> None).
    { apply c_tag_spec. apply c_tag_spec in Hct as [Hs|Hs]; [left|right].
      - change ("<c>" : str) with (LT :: ("c>" : str)) in Hs |- *.
        rewrite startswith_cons in Hs |- *.
        apply andb_true_iff in Hs as [_ Hs]. apply andb_true_iff.
        split; [reflexivity|].
        apply (sub_timing_plain_prefix s'); [|exact Hs].
        intros Hin. repeat (apply elem_of_cons in Hin as [Hin|Hin];
                            [discriminate Hin|]). inversion Hin.
      - change ("</c>" : str) with (LT :: ("/c>" : str)) in Hs |- *.
        rewrite startswith_cons in Hs |- *.
        apply andb_true_iff in Hs as [_ Hs]. apply andb_true_iff.
        split; [reflexivity|].
        apply (sub_timing_plain_prefix s'); [|exact Hs].
        intros Hin. repeat (apply elem_of_cons in Hin as [Hin|Hin];
                            [discriminate Hin|]). inversion Hin. }
    destruct (Re.c_tag (LT :: Re.sub Re.timing_tag s')); congruence.
  - intros c s' n _ IH H. apply IH.
    change (skipn n s') with (skipn (S n) (c :: s')).
    apply angles_open_tags_skipn, H.
Qed.

(** Deleting the [c] tags then leaves no [<]. *)
Lemma sub_c_no_angle s :
  angles_open_c s = true -> LT ∉ Re.sub Re.c_tag s.
Proof.
  apply (sub_scan_ind Re.c_tag
           (fun s r => angles_open_c s = true -> LT ∉ r)).
  - intros _ H. inversion H.
  - intros c s' Hm IH H Hin. simpl in H. apply andb_true_iff in H as [Hc H].
    apply elem_of_cons in Hin as [Heq|Hin]; [|exact (IH H Hin)].
    subst c. rewrite (proj2 (char_eqb_eq LT LT) eq_refl) in Hc.
    destruct Hm as [Hm|Hm]; [rewrite Hm in Hc; discriminate|].
    exact (c_tag_positive _ Hm).
  - intros c s' n _ IH H. apply IH.
    change (skipn n s') with (skipn (S n) (c :: s')).
    apply angles_open_c_skipn, H.
Qed.

Lemma strip_markup_no_angle line :
  angles_open_tags line = true -> LT ∉ strip_markup line.
Proof.
  intros H Hin. unfold strip_markup in Hin.
  apply elem_of_strip_by, elem_of_sub, elem_of_sub in Hin.
  revert Hin. apply sub_c_no_angle, sub_timing_angles, H.
Qed.

Lemma elem_of_join c sep (parts : list str) :
  c ∈ Str.join sep parts -> c ∈ sep \/ exists p, p ∈ parts /\ c ∈ p.
Proof.
  induction parts as [|p ps IH]; [intros H; inversion H|].
  destruct ps as [|q ps].
  - simpl. intros H. right. exists p. split; [apply elem_of_cons; auto|exact H].
  - change (Str.join sep (p :: q :: ps)) with (p ++ sep ++ Str.join sep (q :: ps)).
    rewrite !elem_of_app. intros [H|[H|H]]; auto.
    + right. exists p. split; [apply elem_of_cons; auto|exact H].
    + destruct (IH H) as [H'|(p' & Hp' & Hc)]; auto.
      right. exists p'. split; [apply elem_of_cons; auto|exact Hc].
Qed.

Lemma no_angle_no_timing_tag s : LT ∉ s -> Re.search Re.timing_tag s = false.
Proof.
  induction s as [|c s IH]; intros H; [reflexivity|].
  apply search_false_cons. split.
  - destruct (Re.timing_tag (c :: s)) eqn:Hm; [|reflexivity]. exfalso.
    apply timing_tag_head in Hm as [-> _]. apply H. apply elem_of_cons; auto.
  - apply IH. intros Hin. apply H. apply elem_of_cons; auto.
Qed.

Lemma clean_vtt_no_angle doc :
  (forall line, line ∈ Str.split LF doc -> angles_open_tags line = true) ->
  LT ∉ clean_vtt doc.
Proof.
  intros H Hin. apply elem_of_join in Hin as [Hin|(t & Ht & Hin)].
  - apply elem_of_cons in Hin as [Hin|Hin]; [discriminate|inversion Hin].
  - apply clean_lines_origin in Ht as (line & Hline & ->).
    revert Hin. apply strip_markup_no_angle, H, Hline.
Qed.


(** ** Angle brackets that open no tag *)

Lemma angles_guarded_skipn opens n s :
  angles_guarded opens s = true -> angles_guarded opens (skipn n s) = true.
Proof.
  revert s. induction n as [|n IH]; intros [|c s] H; simpl; auto.
  simpl in H. apply andb_true_iff in H as [_ H]. auto.
Qed.

Lemma timing_tag_angle c s : c <> LT -> Re.timing_tag (c :: s) = None.
Proof.
  intros Hc. destruct (Re.timing_tag (c :: s)) eqn:Hm; [|reflexivity].
  apply timing_tag_head in Hm as [-> _]. congruence.
Qed.

Lemma c_tag_angle c s : c <> LT -> Re.c_tag (c :: s) = None.
Proof.
  intros Hc. destruct (Re.c_tag (c :: s)) eqn:Hm; [|reflexivity]. exfalso.
  assert (Hne : Re.c_tag (c :: s) <> None) by congruence.
  apply c_tag_spec in Hne as [H|H].
  - change ("<c>" : str) with (LT :: ("c>" : str)) in H.
    rewrite startswith_cons in H. apply andb_true_iff in H as [H _].
    apply char_eqb_eq in H. apply Hc. symmetry. exact H.
  - change ("</c>" : str) with (LT :: ("/c>" : str)) in H.
    rewrite startswith_cons in H. apply andb_true_iff in H as [H _].
    apply char_eqb_eq in H. apply Hc. symmetry. exact H.
Qed.

(** A substitution whose matches all start with [<] keeps what follows a
    [<] harmless. *)
Lemma harmless_after_sub m s :
  (forall c s', c <> LT -> m (c :: s') = None) ->
  harmless_after s = true -> harmless_after (Re.sub m s) = true.
Proof.
  intros Hm H. destruct s as [|d s]; [reflexivity|].
  simpl in H. apply andb_true_iff in H as [Hd Hlt].
  assert (Hne : d <> LT).
  { intros ->. rewrite (proj2 (char_eqb_eq LT LT) eq_refl) in Hlt.
    discriminate. }
  rewrite sub_cons, (Hm d s Hne). simpl. rewrite Hd, Hlt. reflexivity.
Qed.

(** After the timing tags are deleted, every [<] left opens a [c] tag or
    is followed harmlessly. *)
Lemma sub_timing_guarded s :
  angles_guarded opens_tag s = true ->
  angles_guarded opens_c (Re.sub Re.timing_tag s) = true.
Proof.
  apply (sub_scan_ind Re.timing_tag
           (fun s r => angles_guarded opens_tag s = true ->
                       angles_guarded opens_c r = true)).
  - auto.
  - intros c s' Hm IH H. simpl in H. apply andb_true_iff in H as [Hc H].
    simpl. apply andb_true_iff. split; [|auto].
    destruct (Char.eqb c LT) eqn:Hlt; [|reflexivity].
    apply char_eqb_eq in Hlt. subst c.
    assert (Hnone : Re.timing_tag (LT :: s') = None).
    { destruct Hm as [Hm|Hm]; [exact Hm|].
      apply timing_tag_head in Hm as [_ Hm]. discriminate. }
    apply orb_true_iff in Hc as [Hc|Hc].
    + apply orb_true_iff. left.
      unfold opens_tag in Hc. rewrite Hnone in Hc.
      assert (Hct : Re.c_tag (LT :: s') <> None)
        by (destruct (Re.c_tag (LT :: s')); congruence).
      assert (Hct' : Re.c_tag (LT :: Re.sub Re.timing_tag s') <> None).
      { apply c_tag_spec. apply c_tag_spec in Hct as [Hs|Hs]; [left|right].
        - change ("<c>" : str) with (LT :: ("c>" : str)) in Hs |- *.
          rewrite startswith_cons in Hs |- *.
          apply andb_true_iff in Hs as [_ Hs]. apply andb_true_iff.
          split; [reflexivity|].
          apply (sub_timing_plain_prefix s'); [|exact Hs].
          intros Hin. repeat (apply elem_of_cons in Hin as [Hin|Hin];
                              [discriminate Hin|]). inversion Hin.
        - change ("</c>" : str) with (LT :: ("/c>" : str)) in Hs |- *.
          rewrite startswith_cons in Hs |- *.
          apply andb_true_iff in Hs as [_ Hs]. apply andb_true_iff.
          split; [reflexivity|].
          apply (sub_timing_plain_prefix s'); [|exact Hs].
          intros Hin. repeat (apply elem_of_cons in Hin as [Hin|Hin];
                              [discriminate Hin|]). inversion Hin. }
      unfold opens_c.
      destruct (Re.c_tag (LT :: Re.sub Re.timing_tag s')); congruence.
    + apply orb_true_iff. right.
      apply harmless_after_sub; [apply timing_tag_angle|exact Hc].
  - intros c s' n _ IH H. apply IH.
    change (skipn n s') with (skipn (S n) (c :: s')).
    apply angles_guarded_skipn, H.
Qed.

(** After the [c] tags are deleted too, every [<] left is followed
    harmlessly. *)
Lemma sub_c_guarded s :
  angles_guarded opens_c s = true ->
  angles_guarded (fun _ => false) (Re.sub Re.c_tag s) = true.
Proof.
  apply (sub_scan_ind Re.c_tag
           (fun s r => angles_guarded opens_c s = true ->
                       angles_guarded (fun _ => false) r = true)).
  - auto.
  - intros c s' Hm IH H. simpl in H. apply andb_true_iff in H as [Hc H].
    simpl. apply andb_true_iff. split; [|auto].
    destruct (Char.eqb c LT) eqn:Hlt; [|reflexivity].
    apply orb_true_iff in Hc as [Hc|Hc].
    + exfalso. unfold opens_c in Hc.
      destruct Hm as [Hm|Hm]; [rewrite Hm in Hc; discriminate|].
      exact (c_tag_positive _ Hm).
    + apply harmless_after_sub; [apply c_tag_angle|exact Hc].
  - intros c s' n _ IH H. apply IH.
    change (skipn n s') with (skipn (S n) (c :: s')).
    apply angles_guarded_skipn, H.
Qed.

(** No timing tag starts at a [<] that is followed harmlessly. *)
Lemma guarded_no_timing_tag s :
  angles_guarded (fun _ => false) s = true ->
  Re.search Re.timing_tag s = false.
Proof.
  induction s as [|c s IH]; intros H; [reflexivity|].
  simpl in H. apply andb_true_iff in H as [Hc H].
  apply search_false_cons. split; [|auto].
  destruct (Re.timing_tag (c :: s)) eqn:Hm; [|reflexivity]. exfalso.
  assert (Hne : Re.timing_tag (c :: s) <> None) by congruence.
  apply timing_tag_spec in Hne
    as (h1 & h2 & m1 & m2 & s1 & s2 & f1 & f2 & f3 & x & Hd & Heq).
  injection Heq as -> ->.
  change (Char.eqb "<" LT) with true in Hc.
  simpl in Hd. apply andb_true_iff in Hd as [Hd _].
  simpl in Hc. rewrite Hd in Hc. discriminate.
Qed.

Lemma strip_markup_no_timing_tag line :
  angles_harmless line = true ->
  Re.search Re.timing_tag (strip_markup line) = false.
Proof.
  intros H. unfold strip_markup.
  apply search_strip; [apply windowed_timing_tag|].
  apply sub_keyed_preserves;
    [reflexivity|discriminate|apply windowed_timing_tag|].
  apply sub_keyed_preserves;
    [reflexivity|discriminate|apply windowed_timing_tag|].
  apply guarded_no_timing_tag, sub_c_guarded, sub_timing_guarded, H.
Qed.

Lemma clean_vtt_no_timing_tag doc :
  (forall line, line ∈ Str.split LF doc -> angles_harmless line = true) ->
  Re.search Re.timing_tag (clean_vtt doc) = false.
Proof.
  intros H. apply search_join; [apply windowed_timing_tag|]. intros t Ht.
  apply clean_lines_origin in Ht as (line & Hline & ->).
  apply strip_markup_no_timing_tag, H, Hline.
Qed.

(** ** The strip property (C8) *)

(** C8, as stated, fails.  In the line [a<00:00:0<00:00:00.000>0.000>b]
    the only timing tag is the inner one; deleting it splices the text
    around it into a new timing tag, which the single pass of [re.sub]
    does not visit again, so the output holds a timing tag. *)
Lemma strip_property_counterexample :
  Re.search Re.timing_tag nested_tag_input = true
  /\ clean_vtt nested_tag_input = "a<00:00:00.000>b"
  /\ Re.search Re.timing_tag (clean_vtt nested_tag_input) = true.
Proof. vm_compute. repeat split; reflexivity. Qed.

(** C8, amended.  For every caption document the output holds no
    [align:] or [position:] token (the key followed by a character that is
    not white space).  When in every line of the document each [<] opens a
    complete timing tag or a [c] tag, or is followed by the end of the line
    or by a character that is neither a digit nor a [<] (the tags of
    voices, italics and classes, a lone sign), the output holds no timing
    tag.  When each [<] opens a complete timing tag or a [c] tag, the
    output holds no [<] at all. *)
Theorem clean_vtt_strip_property (doc : str) :
  Re.search Re.align_token (clean_vtt doc) = false
  /\ Re.search Re.position_token (clean_vtt doc) = false
  /\ (forallb angles_harmless (Str.split LF doc) = true ->
      Re.search Re.timing_tag (clean_vtt doc) = false)
  /\ (forallb angles_open_tags (Str.split LF doc) = true ->
      LT ∉ clean_vtt doc).
Proof.
  split; [apply clean_vtt_no_align|]. split; [apply clean_vtt_no_position|].
  split; intros H.
  - apply clean_vtt_no_timing_tag. intros line Hline.
    rewrite forallb_forall in H. apply H. apply list_elem_of_In, Hline.
  - apply clean_vtt_no_angle. intros line Hline.
    rewrite forallb_forall in H. apply H. apply list_elem_of_In, Hline.
Qed.

Lemma clean_vtt_strip_property_witness :
  (forallb angles_harmless (Str.split LF markup_input) = true
   /\ Re.search Re.align_token (clean_vtt markup_input) = false
   /\ Re.search Re.position_token (clean_vtt markup_input) = false
   /\ Re.search Re.timing_tag (clean_vtt markup_input) = false)
  /\ (forallb angles_open_tags (Str.split LF tagged_line_input) = true
      /\ LT ∉ clean_vtt tagged_line_input).
Proof.
  assert (H : forallb angles_harmless (Str.split LF markup_input) = true)
    by (vm_compute; reflexivity).
  assert (H' : forallb angles_open_tags (Str.split LF tagged_line_input) = true)
    by (vm_compute; reflexivity).
  destruct (clean_vtt_strip_property markup_input) as (Ha & Hp & Ht & _).
  destruct (clean_vtt_strip_property tagged_line_input) as (_ & _ & _ & Hl).
  split.
  - split; [exact H|]. split; [exact Ha|]. split; [exact Hp|exact (Ht H)].
  - split; [exact H'|exact (Hl H')].
Defined.

(** ** Normalized text is a fixed point (C9) *)

Lemma split_no_sep sep (s : str) :
  forallb (fun c => negb (Char.eqb c sep)) s = true -> Str.split sep s = [s].
Proof.
  induction s as [|c s IH]; [reflexivity|]. simpl.
  intros H. apply andb_true_iff in H as [Hc H].
  destruct (Char.eqb c sep); [discriminate|]. rewrite (IH H). reflexivity.
Qed.

Lemma dropwhile_head f (s : str) :
  match s with [] => false | c :: _ => f c end = false ->
  Str.dropwhile f s = s.
Proof. destruct s as [|c s]; simpl; [auto|]. intros ->. reflexivity. Qed.

Lemma strip_trimmed (s : str) : edges_trimmed s = true -> Str.strip s = s.
Proof.
  unfold edges_trimmed, Str.strip, Str.strip_by, Str.lstrip_by, Str.rstrip_by.
  intros H. apply andb_true_iff in H as [Hl Hr].
  apply negb_true_iff in Hl, Hr.
  rewrite (dropwhile_head _ s Hl), (dropwhile_head _ (rev s) Hr).
  apply rev_involutive.
Qed.

(** C9, as stated, fails: the image of the normalizer holds texts that are
    not normalized.  The line made of a space and the header word is kept
    (the header test looks at the unstripped line) and stripped to the
    header word, which a second pass then discards. *)
Lemma clean_vtt_idempotence_counterexample :
  clean_vtt " WEBVTT" = "WEBVTT"
  /\ clean_vtt (clean_vtt " WEBVTT") = []
  /\ clean_vtt (clean_vtt " WEBVTT") <> clean_vtt " WEBVTT".
Proof. vm_compute. repeat split; discriminate. Qed.

(** C9, amended.  A text that is already normalized (one line, not a
    header, metadata or cue-timing line, free of timing tags, [c] tags and
    annotation tokens, with no white space at either end) is returned
    unchanged; so a second pass changes nothing whenever the output of the
    first is such a text. *)
Theorem clean_vtt_plain_fixed (s : str) :
  plain_text s = true -> clean_vtt s = s.
Proof.
  unfold plain_text. intros H.
  repeat (apply andb_true_iff in H as [H ?]).
  repeat match goal with
         | H : negb _ = true |- _ => apply negb_true_iff in H
         end.
  unfold clean_vtt, clean_lines.
  rewrite (split_no_sep LF s H). simpl.
  destruct s as [|c s]; [reflexivity|].
  assert (Hstrip : Str.strip (c :: s) = c :: s) by (apply strip_trimmed; auto).
  assert (Hskip : skipped_line (c :: s) = false).
  { unfold skipped_line. rewrite Hstrip.
    repeat match goal with
           | H : _ = false |- _ => rewrite H
           end. reflexivity. }
  assert (Hmark : strip_markup (c :: s) = c :: s).
  { unfold strip_markup.
    rewrite (sub_no_match Re.timing_tag) by assumption.
    rewrite (sub_no_match Re.c_tag) by assumption.
    rewrite (sub_no_match Re.align_token) by assumption.
    rewrite (sub_no_match Re.position_token) by assumption.
    exact Hstrip. }
  rewrite Hskip, Hmark.
  destruct (decide (c :: s ∈ (∅ : gset str))) as [Hin|_]; [|reflexivity].
  exfalso. revert Hin. apply not_elem_of_empty.
Qed.

Lemma clean_vtt_plain_fixed_witness :
  plain_text "Hello world Next line" = true
  /\ clean_vtt "Hello world Next line" = "Hello world Next line".
Proof.
  split; [vm_compute; reflexivity|].
  apply (clean_vtt_plain_fixed "Hello world Next line").
  vm_compute. reflexivity.
Defined.

(** * Further properties of the normalizer *)

Lemma split_elem_no_sep sep (s : str) line :
  line ∈ Str.split sep s -> sep ∉ line.
Proof.
  revert line. induction s as [|c s IH]; intros line H; simpl in H.
  - apply list_elem_of_singleton in H. subst. apply not_elem_of_nil.
  - destruct (Char.eqb c sep) eqn:Hc.
    + apply elem_of_cons in H as [->|H]; [apply not_elem_of_nil|auto].
    + destruct (Str.split sep s) as [|w ws] eqn:Hs.
      * apply list_elem_of_singleton in H. subst. intros Hin.
        apply elem_of_cons in Hin as [Hin|Hin]; [|inversion Hin].
        subst. rewrite (proj2 (char_eqb_eq c c) eq_refl) in Hc. discriminate.
      * apply elem_of_cons in H as [->|H].
        -- intros Hin. apply elem_of_cons in Hin as [Hin|Hin].
           ++ subst. rewrite (proj2 (char_eqb_eq c c) eq_refl) in Hc. discriminate.
           ++ revert Hin. apply IH. apply elem_of_cons; auto.
        -- apply IH. apply elem_of_cons; auto.
Qed.

Lemma elem_of_strip_markup c line : c ∈ strip_markup line -> c ∈ line.
Proof.
  unfold strip_markup. intros H.
  apply elem_of_strip_by, elem_of_sub, elem_of_sub, elem_of_sub, elem_of_sub in H.
  exact H.
Qed.

(** Every retained line is the text kept from a line of the document. *)
Lemma clean_lines_kept doc t :
  t ∈ clean_lines doc ->
  exists line, line ∈ Str.split LF doc /\ kept_text line = Some t.
Proof.
  intros Ht. rewrite clean_lines_texts in Ht.
  destruct (dedup_run (texts doc) ([], ∅) dedup_inv_init) as (ext & Heq & _ & Hsub & _).
  rewrite Heq in Ht. simpl in Ht. apply Hsub in Ht.
  unfold texts in Ht. apply list_elem_of_omap in Ht as (line & Hline & Hk).
  eauto.
Qed.

Lemma kept_text_strip line t :
  kept_text line = Some t -> t = strip_markup line /\ t <> [].
Proof.
  unfold kept_text. destruct (skipped_line line); [discriminate|].
  destruct (strip_markup line); [discriminate|].
  intros [= <-]. split; [reflexivity|discriminate].
Qed.

(** X1. The output is a single line. *)
Theorem clean_vtt_single_line (doc : str) : LF ∉ clean_vtt doc.
Proof.
  intros Hin. apply elem_of_join in Hin as [Hin|(t & Ht & Hin)].
  - apply elem_of_cons in Hin as [Hin|Hin]; [discriminate|inversion Hin].
  - apply clean_lines_kept in Ht as (line & Hline & Hk).
    apply kept_text_strip in Hk as [-> _].
    apply elem_of_strip_markup in Hin.
    revert Hin. eapply split_elem_no_sep; eauto.
Qed.

Lemma dropwhile_split f (s : str) :
  exists x, s = x ++ Str.dropwhile f s /\ forallb f x = true.
Proof.
  induction s as [|c s (x & IH & Hx)]; simpl; [exists []; auto|].
  destruct (f c) eqn:Hc; [|exists []; auto].
  exists (c :: x). simpl. rewrite Hc, Hx. split; [f_equal; exact IH|reflexivity].
Qed.

Lemma dropwhile_stops f (s : str) :
  match Str.dropwhile f s with [] => false | c :: _ => f c end = false.
Proof.
  induction s as [|c s IH]; simpl; [reflexivity|].
  destruct (f c) eqn:Hc; [exact IH|exact Hc].
Qed.

Lemma strip_by_edges f (s : str) : edges_free f (Str.strip_by f s) = true.
Proof.
  unfold edges_free, Str.strip_by, Str.lstrip_by.
  set (u := Str.dropwhile f s).
  destruct (rstrip_prefix f u) as [y Hy].
  apply andb_true_iff. split; apply negb_true_iff.
  - destruct (Str.rstrip_by f u) as [|c r] eqn:Hr; [reflexivity|].
    pose proof (dropwhile_stops f s) as Hs. fold u in Hs. rewrite Hy in Hs.
    exact Hs.
  - unfold Str.rstrip_by. rewrite rev_involutive. apply dropwhile_stops.
Qed.

Lemma strip_by_fixed f (s : str) :
  edges_free f s = true -> Str.strip_by f s = s.
Proof.
  unfold edges_free, Str.strip_by, Str.lstrip_by, Str.rstrip_by.
  intros H. apply andb_true_iff in H as [Hl Hr].
  apply negb_true_iff in Hl, Hr.
  rewrite (dropwhile_head _ s Hl), (dropwhile_head _ (rev s) Hr).
  apply rev_involutive.
Qed.

Lemma strip_edges (s : str) : edges_trimmed (Str.strip s) = true.
Proof. apply (strip_by_edges Char.isspace). Qed.

Lemma join_nonempty sep p (ps : list str) :
  p <> [] -> Str.join sep (p :: ps) <> [].
Proof.
  intros Hp. destruct ps as [|q ps]; [exact Hp|].
  change (Str.join sep (p :: q :: ps)) with (p ++ sep ++ Str.join sep (q :: ps)).
  destruct p; [congruence|discriminate].
Qed.

Lemma join_edges f sep (parts : list str) :
  (forall p, p ∈ parts -> p <> [] /\ edges_free f p = true) ->
  edges_free f (Str.join sep parts) = true.
Proof.
  induction parts as [|p ps IH]; intros H; [reflexivity|].
  destruct (H p) as [Hp Hep]; [apply elem_of_cons; auto|].
  destruct ps as [|q ps]; [exact Hep|].
  change (Str.join sep (p :: q :: ps))
    with (p ++ sep ++ Str.join sep (q :: ps)).
  assert (Hq : q <> []) by (apply H; apply elem_of_cons; right; apply elem_of_cons; auto).
  pose proof (join_nonempty sep q ps Hq) as HJ.
  assert (HeJ : edges_free f (Str.join sep (q :: ps)) = true).
  { apply IH. intros p' Hp'. apply H. apply elem_of_cons; auto. }
  set (J := Str.join sep (q :: ps)) in *.
  unfold edges_free in *.
  apply andb_true_iff in Hep as [Hh _]. apply andb_true_iff in HeJ as [_ Hl].
  apply andb_true_iff. split.
  - destruct p; [congruence|exact Hh].
  - rewrite !rev_app_distr, <- app_assoc.
    destruct (rev J) as [|c r] eqn:Hr; [|exact Hl].
    exfalso. apply HJ. rewrite <- (rev_involutive J), Hr. reflexivity.
Qed.

(** X2. The output has no white space at either end. *)
Theorem clean_vtt_trimmed (doc : str) : edges_trimmed (clean_vtt doc) = true.
Proof.
  apply (join_edges Char.isspace). intros t Ht.
  apply clean_lines_kept in Ht as (line & _ & Hk).
  apply kept_text_strip in Hk as [-> Hne]. split; [exact Hne|].
  apply strip_edges.
Qed.

Lemma omap_none {A B} (f : A -> option B) (l : list A) :
  (forall x, x ∈ l -> f x = None) -> omap f l = [].
Proof.
  induction l as [|x l IH]; intros H; [reflexivity|].
  cbn [omap list_omap]. rewrite (H x) by (apply elem_of_cons; auto).
  apply IH. intros y Hy. apply H. apply elem_of_cons; auto.
Qed.

(** X3. The output is empty exactly when no line of the document
    contributes a text: every line is a header, metadata, cue-timing or
    blank line, or is empty once its markup is stripped. *)
Theorem clean_vtt_empty_iff (doc : str) :
  clean_vtt doc = [] <->
  forall line, line ∈ Str.split LF doc -> kept_text line = None.
Proof.
  split.
  - intros Hempty line Hline.
    destruct (kept_text line) as [t|] eqn:Hk; [|reflexivity]. exfalso.
    assert (Ht : t ∈ clean_lines doc).
    { rewrite clean_lines_texts.
      destruct (dedup_run (texts doc) ([], ∅) dedup_inv_init)
        as (ext & Heq & _ & _ & Hsup).
      rewrite Heq. apply Hsup. unfold texts. apply list_elem_of_omap. eauto. }
    unfold clean_vtt in Hempty.
    destruct (clean_lines doc) as [|p ps] eqn:Hcl; [inversion Ht|].
    revert Hempty. apply join_nonempty.
    assert (Hp : p ∈ clean_lines doc) by (rewrite Hcl; apply elem_of_cons; auto).
    apply clean_lines_kept in Hp as (l' & _ & Hk').
    apply kept_text_strip in Hk' as [_ Hne]. exact Hne.
  - intros H. unfold clean_vtt. rewrite clean_lines_texts. unfold texts.
    rewrite (omap_none _ _ H). reflexivity.
Qed.

Lemma length_sub_le m (s : str) : length (Re.sub m s) <= length s.
Proof.
  apply (sub_scan_ind m (fun s r => length r <= length s)).
  - reflexivity.
  - intros c s' _ IH. simpl. lia.
  - intros c s' n _ IH. rewrite length_skipn in IH. simpl. lia.
Qed.

Lemma length_dropwhile_le f (s : str) : length (Str.dropwhile f s) <= length s.
Proof.
  destruct (dropwhile_suffix f s) as [x Hx].
  rewrite Hx at 2. rewrite length_app. lia.
Qed.

Lemma length_strip_by_le f (s : str) : length (Str.strip_by f s) <= length s.
Proof.
  unfold Str.strip_by, Str.rstrip_by, Str.lstrip_by.
  rewrite length_rev.
  etransitivity; [apply length_dropwhile_le|]. rewrite length_rev.
  apply length_dropwhile_le.
Qed.

Lemma length_strip_markup_le line : length (strip_markup line) <= length line.
Proof.
  unfold strip_markup, Str.strip.
  etransitivity; [apply length_strip_by_le|].
  etransitivity; [apply length_sub_le|].
  etransitivity; [apply length_sub_le|].
  etransitivity; [apply length_sub_le|]. apply length_sub_le.
Qed.

Lemma weight_cons l ls : weight (l :: ls) = S (length l + weight ls).
Proof. reflexivity. Qed.

Lemma weight_app a b : weight (a ++ b) = weight a + weight b.
Proof.
  induction a as [|x a IH]; [reflexivity|].
  change ((x :: a) ++ b) with (x :: (a ++ b)). rewrite !weight_cons, IH. lia.
Qed.

Lemma weight_split sep (s : str) : weight (Str.split sep s) = S (length s).
Proof.
  induction s as [|c s IH]; [reflexivity|]. cbn [Str.split].
  destruct (Char.eqb c sep).
  - rewrite weight_cons, IH. simpl. lia.
  - destruct (Str.split sep s) as [|w ws];
      rewrite ?weight_cons in *; simpl in *; lia.
Qed.

Lemma length_join_weight (parts : list str) :
  length (Str.join " " parts) <= pred (weight parts).
Proof.
  induction parts as [|p ps IH]; [reflexivity|].
  destruct ps as [|q ps]; [simpl; lia|].
  change (Str.join " " (p :: q :: ps))
    with (p ++ (" " : str) ++ Str.join " " (q :: ps)).
  rewrite !length_app. rewrite (weight_cons p). rewrite weight_cons in *.
  change (length (" " : str)) with 1. lia.
Qed.

Lemma clean_step_weight st line :
  weight (fst (clean_step st line)) <= weight (fst st) + S (length line).
Proof.
  destruct st as [cl seen]. unfold clean_step.
  destruct (skipped_line line); [simpl; lia|].
  pose proof (length_strip_markup_le line) as Hle.
  destruct (strip_markup line) as [|c t] eqn:Hs; [simpl; lia|].
  destruct (decide (c :: t ∈ seen)); [simpl; lia|].
  cbn [fst]. rewrite weight_app, weight_cons. simpl in *. lia.
Qed.

Lemma foldl_clean_step_weight lines : forall st,
  weight (fst (foldl clean_step st lines)) <= weight (fst st) + weight lines.
Proof.
  induction lines as [|l lines IH]; intros st; [simpl; lia|].
  cbn [foldl]. etransitivity; [apply IH|].
  pose proof (clean_step_weight st l). rewrite weight_cons. lia.
Qed.

(** X4. The output is never longer than the document. *)
Theorem clean_vtt_length_le (doc : str) : length (clean_vtt doc) <= length doc.
Proof.
  unfold clean_vtt. etransitivity; [apply length_join_weight|].
  unfold clean_lines.
  pose proof (foldl_clean_step_weight (Str.split LF doc) ([], ∅)) as H.
  rewrite weight_split in H. simpl in H. lia.
Qed.

Lemma split_app_sep sep (a b : str) :
  Str.split sep (a ++ sep :: b) = Str.split sep a ++ Str.split sep b.
Proof.
  induction a as [|c a IH]; simpl.
  - rewrite (proj2 (char_eqb_eq sep sep) eq_refl). reflexivity.
  - destruct (Char.eqb c sep); [rewrite IH; reflexivity|].
    rewrite IH. destruct (Str.split sep a) as [|w ws] eqn:Hs; [|reflexivity].
    exfalso. clear -Hs. destruct a as [|d a]; simpl in Hs; [discriminate|].
    destruct (Char.eqb d sep); [discriminate|].
    destruct (Str.split sep a); discriminate.
Qed.

Lemma union_absorb (S T : gset str) t :
  t ∈ S -> S ∪ T = S ∪ ({[ t ]} ∪ T).
Proof.
  intros H. apply set_eq. intros x.
  rewrite !elem_of_union, elem_of_singleton.
  split; [intros [?|?]; auto|intros [?|[->|?]]; auto].
Qed.

Lemma union_swap (S T : gset str) t :
  {[ t ]} ∪ (S ∪ T) = S ∪ ({[ t ]} ∪ T).
Proof.
  apply set_eq. intros x. rewrite !elem_of_union, elem_of_singleton.
  split; [intros [?|[?|?]]; auto|intros [?|[?|?]]; auto].
Qed.

Lemma fresh_texts_union ts : forall (S T : gset str),
  fresh_texts (S ∪ T) ts
  = List.filter (fun t => bool_decide (t ∉ S)) (fresh_texts T ts).
Proof.
  induction ts as [|t ts IH]; intros S T; [reflexivity|]. simpl.
  destruct (decide (t ∈ T)) as [HT|HT].
  - destruct (decide (t ∈ S ∪ T)) as [_|Hn]; [apply IH|].
    exfalso. apply Hn. apply elem_of_union. auto.
  - simpl. destruct (decide (t ∈ S)) as [HS|HS].
    + rewrite bool_decide_eq_false_2 by (intros Hn; exact (Hn HS)).
      destruct (decide (t ∈ S ∪ T)) as [_|Hn];
        [|exfalso; apply Hn; apply elem_of_union; auto].
      rewrite <- IH. f_equal. apply union_absorb, HS.
    + rewrite bool_decide_eq_true_2 by exact HS.
      destruct (decide (t ∈ S ∪ T)) as [Hy|_].
      { exfalso. apply elem_of_union in Hy as [Hy|Hy]; auto. }
      f_equal. rewrite <- IH. f_equal. apply union_swap.
Qed.

(** X5. Normalizing two documents put one after the other keeps the
    retained lines of the first and adds those retained lines of the second
    that the first does not have. *)
Theorem clean_lines_append (doc1 doc2 : str) :
  clean_lines (doc1 ++ LF :: doc2)
  = clean_lines doc1
    ++ List.filter (fun t => bool_decide (t ∉ clean_lines doc1))
                   (clean_lines doc2).
Proof.
  rewrite !clean_lines_texts. unfold texts.
  rewrite split_app_sep, omap_app, foldl_app.
  destruct (dedup_run (omap kept_text (Str.split LF doc1)) ([], ∅) dedup_inv_init)
    as (ext & Heq & [Hseen _] & _).
  destruct (foldl dedup_step ([], ∅) (omap kept_text (Str.split LF doc1)))
    as [cl1 seen1] eqn:Hrun.
  cbn [fst snd] in *.
  rewrite !foldl_dedup_fresh. cbn [app]. f_equal.
  rewrite <- (union_empty_r_L seen1) at 1.
  rewrite fresh_texts_union. apply filter_ext. intros t.
  apply bool_decide_ext. rewrite Hseen. reflexivity.
Qed.

(** * Further properties of [sanitize_filename] *)

Lemma search_char_class chars (s : str) :
  forallb (fun c => negb (Char.among chars c)) s = true ->
  Re.search (Re.char_class chars) s = false.
Proof.
  induction s as [|c s IH]; [reflexivity|]. simpl.
  intros H. apply andb_true_iff in H as [Hc H].
  apply negb_true_iff in Hc. rewrite Hc. auto.
Qed.

Lemma forallb_elem_of (f : ascii -> bool) (s : str) :
  forallb f s = true <-> forall c, c ∈ s -> f c = true.
Proof.
  rewrite forallb_forall. split; intros H c Hc; apply H.
  - apply list_elem_of_In, Hc.
  - apply list_elem_of_In, Hc.
Qed.

Lemma sanitize_filename_unchanged (title : str) :
  forallb (fun c => negb (Char.among forbidden_chars c)) title = true ->
  title <> [] ->
  edges_free (Char.among ". ") title = true ->
  length title <= 200 ->
  sanitize_filename title = title.
Proof.
  intros Hchars Hne Hedge Hlen.
  unfold sanitize_filename, Str.strip_chars.
  rewrite (sub_no_match _ _ (search_char_class _ _ Hchars)).
  rewrite (strip_by_fixed _ _ Hedge).
  destruct title as [|c t]; [congruence|].
  unfold Str.slice_to. apply firstn_all2. exact Hlen.
Qed.

(** X6. A title that is already a safe file name is returned unchanged. *)
Theorem sanitize_filename_fixed (title : str) :
  safe_name title = true -> sanitize_filename title = title.
Proof.
  unfold safe_name. intros H.
  apply andb_true_iff in H as [H Hlen]. apply andb_true_iff in H as [H Hedge].
  apply andb_true_iff in H as [Hchars Hne].
  apply sanitize_filename_unchanged; [exact Hchars| |exact Hedge|].
  - destruct title; [discriminate|discriminate].
  - apply Nat.leb_le, Hlen.
Qed.

Lemma sanitize_filename_fixed_witness :
  safe_name "AB Test" = true /\ sanitize_filename "AB Test" = "AB Test".
Proof.
  split; [vm_compute; reflexivity|].
  apply (sanitize_filename_fixed "AB Test"). vm_compute. reflexivity.
Defined.

Lemma edges_free_firstn f n (s : str) :
  length s <= n -> edges_free f s = true -> edges_free f (firstn n s) = true.
Proof. intros H He. rewrite firstn_all2 by exact H. exact He. Qed.

(** The name never starts with a dot or a space. *)
Lemma sanitize_filename_head title :
  match sanitize_filename title with
  | [] => false
  | c :: _ => negb (Char.among ". " c)
  end = true.
Proof.
  unfold sanitize_filename, Str.strip_chars.
  pose proof (strip_by_edges (Char.among ". ")
                (Re.sub (Re.char_class forbidden_chars) title)) as He.
  destruct (Str.strip_by _ _) as [|c t]; [reflexivity|].
  unfold edges_free in He. apply andb_true_iff in He as [Hh _].
  unfold Str.slice_to. simpl. exact Hh.
Qed.

(** X7. The name never starts with a dot or a space, so it is never a
    hidden file; and a title of at most 200 characters gives a safe file
    name, on which a second pass changes nothing. *)
Theorem sanitize_filename_idempotent (title : str) :
  match sanitize_filename title with
  | [] => false
  | c :: _ => negb (Char.among ". " c)
  end = true
  /\ (length title <= 200 ->
      safe_name (sanitize_filename title) = true
      /\ sanitize_filename (sanitize_filename title) = sanitize_filename title).
Proof.
  split; [apply sanitize_filename_head|]. intros Hlen.
  assert (Hsafe : safe_name (sanitize_filename title) = true).
  { unfold sanitize_filename, Str.strip_chars.
    set (u := Re.sub (Re.char_class forbidden_chars) title).
    pose proof (strip_by_edges (Char.among ". ") u) as He.
    pose proof (length_strip_by_le (Char.among ". ") u) as Hl1.
    pose proof (length_sub_le (Re.char_class forbidden_chars) title) as Hl2.
    fold u in Hl2.
    assert (Hchars : forall c, c ∈ Str.strip_by (Char.among ". ") u ->
                               negb (Char.among forbidden_chars c) = true).
    { intros c Hc. apply elem_of_strip_by in Hc. apply sub_char_class in Hc.
      apply negb_true_iff. destruct (Char.among forbidden_chars c) eqn:Ha;
        [|reflexivity]. exfalso. apply Hc, among_elem_of, Ha. }
    destruct (Str.strip_by (Char.among ". ") u) as [|c t] eqn:Hs;
      [vm_compute; reflexivity|].
    unfold Str.slice_to. rewrite firstn_all2 by lia.
    unfold safe_name. rewrite He.
    rewrite (proj2 (forallb_elem_of _ _) Hchars).
    replace (length (c :: t) <=? 200)%nat with true
      by (symmetry; apply Nat.leb_le; lia).
    reflexivity. }
  split; [exact Hsafe|].
  unfold safe_name in Hsafe.
  apply andb_true_iff in Hsafe as [H Hl]. apply andb_true_iff in H as [H He].
  apply andb_true_iff in H as [Hc Hn].
  apply sanitize_filename_unchanged; [exact Hc| |exact He|apply Nat.leb_le, Hl].
  destruct (sanitize_filename title); [discriminate|discriminate].
Qed.

Lemma sanitize_filename_idempotent_witness :
  length scenario_D_title <= 200
  /\ safe_name (sanitize_filename scenario_D_title) = true
  /\ sanitize_filename (sanitize_filename scenario_D_title)
     = sanitize_filename scenario_D_title.
Proof.
  assert (H : length scenario_D_title <= 200) by (vm_compute; lia).
  split; [exact H|].
  exact (proj2 (sanitize_filename_idempotent scenario_D_title) H).
Defined.

(** * Further properties of the enumerator *)

Lemma split1_no_sep sep (s : str) :
  sep ∉ s -> Str.split1 sep s = [s].
Proof.
  induction s as [|c s IH]; intros H; [reflexivity|]. simpl.
  destruct (Char.eqb c sep) eqn:Hc.
  - exfalso. apply char_eqb_eq in Hc. subst. apply H, elem_of_cons. auto.
  - rewrite IH; [reflexivity|]. intros Hin. apply H, elem_of_cons. auto.
Qed.

Lemma split1_at sep (a b : str) :
  sep ∉ a -> Str.split1 sep (a ++ sep :: b) = [a; b].
Proof.
  induction a as [|c a IH]; intros H; simpl.
  - rewrite (proj2 (char_eqb_eq sep sep) eq_refl). reflexivity.
  - destruct (Char.eqb c sep) eqn:Hc.
    + exfalso. apply char_eqb_eq in Hc. subst. apply H, elem_of_cons. auto.
    + rewrite IH; [reflexivity|]. intros Hin. apply H, elem_of_cons. auto.
Qed.

Lemma first_occurrence (c : ascii) (s : str) :
  c ∈ s -> exists a b, s = a ++ c :: b /\ c ∉ a.
Proof.
  induction s as [|d s IH]; intros H; [inversion H|].
  destruct (ascii_dec d c) as [->|Hne].
  - exists [], s. split; [reflexivity|apply not_elem_of_nil].
  - apply elem_of_cons in H as [->|H]; [congruence|].
    destruct (IH H) as (a & b & -> & Ha).
    exists (d :: a), b. split; [reflexivity|].
    intros Hin. apply elem_of_cons in Hin as [Hin|Hin]; [congruence|auto].
Qed.

(** X8. A line of the listing is skipped exactly when, once stripped, it
    holds no tab: blank lines and lines without the separator give no
    video, every other line gives one. *)
Theorem parse_line_none_iff (line : str) :
  parse_line line = None <-> TAB ∉ Str.strip line.
Proof.
  unfold parse_line. split.
  - intros H Hin. destruct (first_occurrence _ _ Hin) as (a & b & Heq & Ha).
    destruct (Str.strip line) as [|h s]; [inversion Hin|].
    rewrite Heq, split1_at in H by exact Ha. discriminate.
  - intros H. destruct (Str.strip line) as [|c s] eqn:Hs; [reflexivity|].
    rewrite split1_no_sep by exact H. reflexivity.
Qed.

Lemma dropwhile_nil f (s : str) :
  Str.dropwhile f s = [] -> forall c, c ∈ s -> f c = true.
Proof.
  induction s as [|d s IH]; intros H c Hc; [inversion Hc|]. simpl in H.
  destruct (f d) eqn:Hd; [|discriminate].
  apply elem_of_cons in Hc as [->|Hc]; auto.
Qed.

Lemma strip_nil (s : str) :
  Str.strip s = [] -> forall c, c ∈ s -> Char.isspace c = true.
Proof.
  unfold Str.strip, Str.strip_by, Str.lstrip_by, Str.rstrip_by.
  intros H c Hc.
  assert (Hd : Str.dropwhile Char.isspace (rev (Str.dropwhile Char.isspace s)) = []).
  { rewrite <- (rev_involutive (Str.dropwhile _ (rev _))), H. reflexivity. }
  destruct (dropwhile_split Char.isspace s) as (x & Hx & Hall).
  rewrite Hx in Hc. apply elem_of_app in Hc as [Hc|Hc].
  - rewrite forallb_forall in Hall. apply Hall, list_elem_of_In, Hc.
  - apply (dropwhile_nil _ _ Hd). apply elem_of_rev. exact Hc.
Qed.

Lemma trimmed_head (s : str) c t :
  edges_trimmed s = true -> s = c :: t -> Char.isspace c = false.
Proof.
  unfold edges_trimmed. intros H ->. apply andb_true_iff in H as [H _].
  apply negb_true_iff, H.
Qed.

Lemma trimmed_last (s : str) c t :
  edges_trimmed s = true -> s = t ++ [c] -> Char.isspace c = false.
Proof.
  unfold edges_trimmed. intros H ->. apply andb_true_iff in H as [_ H].
  rewrite rev_app_distr in H. apply negb_true_iff, H.
Qed.

Lemma tab_isspace : Char.isspace TAB = true.
Proof. reflexivity. Qed.

(** X9. Every video the enumerator returns has a non-empty id and a
    non-empty title, both without white space at their ends and without
    line feed, and an id without tab. *)
Theorem parse_listing_wellformed (out video_id title : str) :
  (video_id, title) ∈ parse_listing out ->
  video_id <> [] /\ title <> []
  /\ edges_trimmed video_id = true /\ edges_trimmed title = true
  /\ (TAB ∉ video_id) /\ (LF ∉ video_id) /\ (LF ∉ title).
Proof.
  unfold parse_listing. intros H.
  apply list_elem_of_omap in H as (line & Hline & Hp).
  apply split_elem_no_sep in Hline.
  unfold parse_line in Hp.
  pose proof (strip_edges line) as Hedge.
  assert (Hsub : forall c, c ∈ Str.strip line -> c ∈ line)
    by (intros c; apply elem_of_strip_by).
  destruct (Str.strip line) as [|h s] eqn:Hs; [discriminate|].
  destruct (decide (TAB ∈ h :: s)) as [Hin|Hnin];
    [|rewrite split1_no_sep in Hp by exact Hnin; discriminate].
  destruct (first_occurrence _ _ Hin) as (a & b & Heq & Ha).
  rewrite Heq, split1_at in Hp by exact Ha. injection Hp as <- <-.
  assert (Ha_ne : exists a0 a', a = a0 :: a' /\ Char.isspace a0 = false).
  { destruct a as [|a0 a'].
    - exfalso. simpl in Heq. pose proof (trimmed_head _ _ _ Hedge Heq) as Hh.
      rewrite tab_isspace in Hh. discriminate.
    - exists a0, a'. split; [reflexivity|].
      simpl in Heq. injection Heq as -> _.
      exact (trimmed_head _ _ _ Hedge eq_refl). }
  assert (Hb_ne : exists b0 b', b = b' ++ [b0] /\ Char.isspace b0 = false).
  { destruct (rev b) as [|b0 rb] eqn:Hrb.
    - exfalso. assert (b = []) by (rewrite <- (rev_involutive b), Hrb; reflexivity).
      subst b. pose proof (trimmed_last _ _ _ Hedge Heq) as Hh.
      rewrite tab_isspace in Hh. discriminate.
    - exists b0, (rev rb). split.
      + rewrite <- (rev_involutive b), Hrb. reflexivity.
      + assert (Hb : b = rev rb ++ [b0])
          by (rewrite <- (rev_involutive b), Hrb; reflexivity).
        rewrite Hb in Heq.
        change (a ++ TAB :: rev rb ++ [b0]) with (a ++ (TAB :: rev rb) ++ [b0]) in Heq.
        rewrite app_assoc in Heq.
        exact (trimmed_last _ _ _ Hedge Heq). }
  destruct Ha_ne as (a0 & a' & -> & Ha0). destruct Hb_ne as (b0 & b' & -> & Hb0).
  split; [|split; [|split; [|split; [|split; [|split]]]]].
  - intros Hnil. pose proof (strip_nil _ Hnil a0) as Hsp.
    rewrite Hsp in Ha0; [discriminate|apply elem_of_cons; auto].
  - intros Hnil. pose proof (strip_nil _ Hnil b0) as Hsp.
    rewrite Hsp in Hb0; [discriminate|].
    apply elem_of_app; right; apply elem_of_cons; auto.
  - apply strip_edges.
  - apply strip_edges.
  - intros Hc. apply elem_of_strip_by in Hc. auto.
  - intros Hc. apply elem_of_strip_by in Hc. apply Hline, Hsub.
    rewrite Heq. apply elem_of_app; auto.
  - intros Hc. apply elem_of_strip_by in Hc. apply Hline, Hsub.
    rewrite Heq. apply elem_of_app; right. apply elem_of_cons; auto.
Qed.

Lemma edges_free_sandwich f (a m b : str) :
  a <> [] -> b <> [] -> edges_free f a = true -> edges_free f b = true ->
  edges_free f (a ++ m ++ b) = true.
Proof.
  unfold edges_free. intros Ha Hb Hea Heb.
  apply andb_true_iff in Hea as [Hh _]. apply andb_true_iff in Heb as [_ Hl].
  apply andb_true_iff. split.
  - destruct a; [congruence|exact Hh].
  - rewrite !rev_app_distr, <- app_assoc.
    destruct (rev b) as [|c r] eqn:Hr; [|exact Hl].
    exfalso. apply Hb. rewrite <- (rev_involutive b), Hr. reflexivity.
Qed.

Lemma listable_spec v :
  listable v = true ->
  fst v <> [] /\ snd v <> []
  /\ edges_trimmed (fst v) = true /\ edges_trimmed (snd v) = true
  /\ (TAB ∉ fst v) /\ (LF ∉ fst v) /\ (LF ∉ snd v).
Proof.
  unfold listable. intros H.
  repeat (apply andb_true_iff in H as [H ?]).
  rewrite forallb_elem_of in *.
  split; [destruct (fst v); [discriminate|discriminate]|].
  split; [destruct (snd v); [discriminate|discriminate]|].
  split; [assumption|]. split; [assumption|].
  split; [|split].
  - intros Hin. match goal with Hf : forall c, c ∈ fst v -> _ |- _ =>
      specialize (Hf _ Hin) end.
    rewrite (proj2 (char_eqb_eq TAB TAB) eq_refl) in *. discriminate.
  - intros Hin. match goal with Hf : forall c, c ∈ fst v -> _ |- _ =>
      specialize (Hf _ Hin) end.
    rewrite (proj2 (char_eqb_eq LF LF) eq_refl) in *.
    rewrite andb_false_r in *. discriminate.
  - intros Hin. match goal with Hf : forall c, c ∈ snd v -> _ |- _ =>
      specialize (Hf _ Hin) end.
    rewrite (proj2 (char_eqb_eq LF LF) eq_refl) in *. discriminate.
Qed.

Lemma listing_line_trimmed v :
  listable v = true ->
  listing_line v <> [] /\ edges_trimmed (listing_line v) = true
  /\ (LF ∉ listing_line v).
Proof.
  intros H. apply listable_spec in H as (Hi & Ht & Hei & Het & _ & Hli & Hlt).
  unfold listing_line. split; [destruct (fst v); [congruence|discriminate]|].
  split.
  - apply (edges_free_sandwich Char.isspace (fst v) [TAB] (snd v)); assumption.
  - intros Hin. apply elem_of_app in Hin as [Hin|Hin]; [auto|].
    apply elem_of_cons in Hin as [Hin|Hin]; [discriminate|auto].
Qed.

Lemma parse_line_listing v :
  listable v = true -> parse_line (listing_line v) = Some v.
Proof.
  intros H. destruct (listing_line_trimmed v H) as (Hne & Hedge & _).
  apply listable_spec in H as (Hi & Ht & Hei & Het & Htab & _ & _).
  unfold parse_line. rewrite (strip_trimmed _ Hedge).
  destruct (listing_line v) as [|c s] eqn:Hl; [congruence|].
  rewrite <- Hl. unfold listing_line. rewrite split1_at by exact Htab.
  rewrite (strip_trimmed _ Hei), (strip_trimmed _ Het).
  destruct v; reflexivity.
Qed.

Lemma concat_lines_join (l : str) (ls : list str) :
  concat (map (fun x => x ++ nl) (l :: ls)) = Str.join nl (l :: ls) ++ nl.
Proof.
  revert l. induction ls as [|m ls IH]; intros l.
  - simpl. rewrite app_nil_r. reflexivity.
  - change (Str.join nl (l :: m :: ls)) with (l ++ nl ++ Str.join nl (m :: ls)).
    cbn [map concat]. cbn [map concat] in IH. rewrite IH.
    rewrite <- !app_assoc. reflexivity.
Qed.

Lemma strip_drop_newline (s : str) :
  s <> [] -> edges_trimmed s = true -> Str.strip (s ++ nl) = s.
Proof.
  intros Hne He. unfold edges_trimmed in He.
  apply andb_true_iff in He as [Hh Hl]. apply negb_true_iff in Hh, Hl.
  unfold Str.strip, Str.strip_by, Str.lstrip_by, Str.rstrip_by.
  rewrite (dropwhile_head Char.isspace (s ++ nl))
    by (destruct s; [congruence|exact Hh]).
  rewrite rev_app_distr. simpl.
  rewrite (dropwhile_head _ (rev s) Hl). apply rev_involutive.
Qed.

Lemma split_join_lines (l : str) (ls : list str) :
  (forall x, x ∈ l :: ls -> LF ∉ x) ->
  Str.split LF (Str.join nl (l :: ls)) = l :: ls.
Proof.
  revert l. induction ls as [|m ls IH]; intros l H.
  - simpl. apply split_no_sep. apply forallb_elem_of. intros c Hc.
    apply negb_true_iff. destruct (Char.eqb c LF) eqn:He; [|reflexivity].
    apply char_eqb_eq in He. subst. exfalso.
    apply (H l); [apply elem_of_cons; auto|exact Hc].
  - change (Str.join nl (l :: m :: ls)) with (l ++ LF :: Str.join nl (m :: ls)).
    rewrite split_app_sep, IH.
    + rewrite split_no_sep; [reflexivity|]. apply forallb_elem_of. intros c Hc.
      apply negb_true_iff. destruct (Char.eqb c LF) eqn:He; [|reflexivity].
      apply char_eqb_eq in He. subst. exfalso.
      apply (H l); [apply elem_of_cons; auto|exact Hc].
    + intros x Hx. apply H. apply elem_of_cons; auto.
Qed.

(** X10. Round trip of the listing: for videos whose id and title the
    listing carries unchanged, parsing the lines the tool prints for them
    gives the same videos back, in the same order. *)
Theorem parse_listing_roundtrip (videos : list (str * str)) :
  forallb listable videos = true ->
  parse_listing (render_listing videos) = videos.
Proof.
  intros H. destruct videos as [|v vs]; [reflexivity|].
  assert (Hall : forall x, x ∈ v :: vs -> listable x = true).
  { intros x Hx. rewrite forallb_forall in H. apply H, list_elem_of_In, Hx. }
  assert (Hrender : render_listing (v :: vs)
            = concat (map (fun x => x ++ nl)
                          (listing_line v :: map listing_line vs))).
  { unfold render_listing. change (listing_line v :: map listing_line vs)
      with (map listing_line (v :: vs)). rewrite map_map. reflexivity. }
  unfold parse_listing. rewrite Hrender, concat_lines_join.
  set (lines := listing_line v :: map listing_line vs).
  assert (Hlines : forall l, l ∈ lines ->
            l <> [] /\ edges_free Char.isspace l = true /\ (LF ∉ l)).
  { intros l Hl. change lines with (map listing_line (v :: vs)) in Hl.
    apply list_elem_of_fmap in Hl as (x & -> & Hx).
    apply listing_line_trimmed, Hall, Hx. }
  rewrite strip_drop_newline.
  - unfold lines. rewrite split_join_lines by (intros x Hx; apply Hlines, Hx).
    fold lines. change lines with (map listing_line (v :: vs)).
    clear -Hall. induction (v :: vs) as [|x xs IH]; [reflexivity|].
    cbn [map omap list_omap]. rewrite parse_line_listing
      by (apply Hall; apply elem_of_cons; auto).
    f_equal. apply IH. intros y Hy. apply Hall. apply elem_of_cons; auto.
  - apply join_nonempty. apply Hlines. apply elem_of_cons; auto.
  - apply (join_edges Char.isspace). intros p Hp.
    destruct (Hlines p Hp) as (? & ? & _). auto.
Qed.

Lemma parse_listing_roundtrip_witness :
  forallb listable (parse_listing scenario_B_stdout) = true
  /\ parse_listing (render_listing (parse_listing scenario_B_stdout))
     = parse_listing scenario_B_stdout.
Proof.
  split; [vm_compute; reflexivity|].
  apply (parse_listing_roundtrip (parse_listing scenario_B_stdout)).
  vm_compute. reflexivity.
Defined.

Lemma parse_listing_wellformed_witness :
  ("video1" : str) <> [] /\ ("One" : str) <> []
  /\ edges_trimmed "video1" = true /\ edges_trimmed "One" = true
  /\ (TAB ∉ ("video1" : str)) /\ (LF ∉ ("video1" : str))
  /\ (LF ∉ ("One" : str)).
Proof.
  apply (parse_listing_wellformed scenario_B_stdout "video1" "One").
  apply (bool_decide_unpack _). vm_compute. exact I.
Defined.

(** * Further properties of the retriever *)

Lemma endswith_app (a p : str) : Str.endswith (a ++ p) p = true.
Proof.
  unfold Str.endswith. rewrite rev_app_distr. apply startswith_app.
Qed.

Lemma endswith_vtt_expected (video_id : str) :
  Str.endswith (video_id ++ ".en.vtt") ".vtt" = true
  /\ Str.endswith (video_id ++ ".en-orig.vtt") ".vtt" = true.
Proof.
  split.
  - change (".en.vtt" : str) with ((".en" : str) ++ (".vtt" : str)).
    rewrite app_assoc. apply endswith_app.
  - change (".en-orig.vtt" : str) with ((".en-orig" : str) ++ (".vtt" : str)).
    rewrite app_assoc. apply endswith_app.
Qed.

Lemma find_vtt_cases video_id d :
  (video_id ++ ".en.vtt" ∈ listdir d
   /\ find_vtt video_id d = Some (video_id ++ ".en.vtt"))
  \/ ((video_id ++ ".en.vtt" ∉ listdir d)
      /\ video_id ++ ".en-orig.vtt" ∈ listdir d
      /\ find_vtt video_id d = Some (video_id ++ ".en-orig.vtt"))
  \/ ((video_id ++ ".en.vtt" ∉ listdir d)
      /\ (video_id ++ ".en-orig.vtt" ∉ listdir d)
      /\ find_vtt video_id d
         = List.find (is_caption_of video_id) (listdir d)).
Proof.
  unfold find_vtt.
  change ("." ++ SUBTITLE_LANG ++ ".vtt") with (".en.vtt" : str).
  change ("." ++ SUBTITLE_LANG ++ "-orig.vtt") with (".en-orig.vtt" : str).
  cbn [List.find].
  destruct (decide (video_id ++ ".en.vtt" ∈ listdir d)) as [H1|H1].
  - left. rewrite bool_decide_eq_true_2 by exact H1. auto.
  - right. rewrite bool_decide_eq_false_2 by exact H1.
    destruct (decide (video_id ++ ".en-orig.vtt" ∈ listdir d)) as [H2|H2].
    + left. rewrite bool_decide_eq_true_2 by exact H2. auto.
    + right. rewrite bool_decide_eq_false_2 by exact H2. auto.
Qed.

Lemma find_vtt_some video_id d name :
  find_vtt video_id d = Some name ->
  name ∈ listdir d
  /\ Str.startswith name video_id = true
  /\ Str.endswith name ".vtt" = true.
Proof.
  destruct (endswith_vtt_expected video_id) as [He1 He2].
  destruct (find_vtt_cases video_id d)
    as [[H1 Hf]|[(H1 & H2 & Hf)|(H1 & H2 & Hf)]]; rewrite Hf.
  - intros [= <-]. split; [exact H1|]. split; [apply startswith_app|exact He1].
  - intros [= <-]. split; [exact H2|]. split; [apply startswith_app|exact He2].
  - intros Hn. apply find_some in Hn as [Hin Hc].
    unfold is_caption_of in Hc. apply andb_true_iff in Hc as [Hs He].
    split; [apply list_elem_of_In, Hin|auto].
Qed.

Lemma find_vtt_none video_id d :
  find_vtt video_id d = None ->
  forall f, f ∈ listdir d ->
            Str.startswith f video_id && Str.endswith f ".vtt" = false.
Proof.
  destruct (find_vtt_cases video_id d)
    as [[H1 Hf]|[(H1 & H2 & Hf)|(H1 & H2 & Hf)]]; rewrite Hf;
    try discriminate.
  intros Hn f Hin. apply list_elem_of_In in Hin.
  exact (find_none _ _ Hn f Hin).
Qed.

(** X11. The file the retriever reads is listed in the scratch directory,
    starts with the video id and ends in [.vtt]; and no file is located
    exactly when the directory lists no such name. *)
Theorem find_vtt_sound_complete (video_id : str) (d : list (str * str)) :
  (forall name, find_vtt video_id d = Some name ->
                name ∈ listdir d
                /\ Str.startswith name video_id = true
                /\ Str.endswith name ".vtt" = true)
  /\ (find_vtt video_id d = None <->
      forall f, f ∈ listdir d ->
                Str.startswith f video_id && Str.endswith f ".vtt" = false).
Proof.
  destruct (endswith_vtt_expected video_id) as [He1 He2].
  destruct (find_vtt_cases video_id d)
    as [[H1 Hf]|[(H1 & H2 & Hf)|(H1 & H2 & Hf)]]; rewrite Hf.
  - split.
    + intros name [= <-]. split; [exact H1|]. split; [apply startswith_app|exact He1].
    + split; [discriminate|]. intros H. specialize (H _ H1).
      rewrite startswith_app, He1 in H. discriminate.
  - split.
    + intros name [= <-]. split; [exact H2|]. split; [apply startswith_app|exact He2].
    + split; [discriminate|]. intros H. specialize (H _ H2).
      rewrite startswith_app, He2 in H. discriminate.
  - split.
    + intros name Hn. apply find_some in Hn as [Hin Hc].
      unfold is_caption_of in Hc. apply andb_true_iff in Hc as [Hs He].
      split; [apply list_elem_of_In, Hin|auto].
    + split.
      * intros Hn f Hin. apply list_elem_of_In in Hin.
        exact (find_none _ _ Hn f Hin).
      * intros H. destruct (List.find _ _) as [f|] eqn:Hn; [|reflexivity].
        apply find_some in Hn as [Hin Hc]. apply list_elem_of_In in Hin.
        unfold is_caption_of in Hc. rewrite (H f Hin) in Hc. discriminate.
Qed.

(** X12. The expected name [id.en.vtt] is taken first, whatever else is
    listed; failing that, [id.en-orig.vtt]; only then the listing is
    scanned. *)
Theorem find_vtt_priority (video_id : str) (d : list (str * str)) :
  (video_id ++ ".en.vtt" ∈ listdir d ->
   find_vtt video_id d = Some (video_id ++ ".en.vtt"))
  /\ (video_id ++ ".en.vtt" ∉ listdir d ->
      video_id ++ ".en-orig.vtt" ∈ listdir d ->
      find_vtt video_id d = Some (video_id ++ ".en-orig.vtt")).
Proof.
  destruct (find_vtt_cases video_id d)
    as [[H1 Hf]|[(H1 & H2 & Hf)|(H1 & H2 & Hf)]].
  - split; [auto|]. intros Hn. contradiction.
  - split; [intros H; contradiction|auto].
  - split; [intros H; contradiction|intros _ H; contradiction].
Qed.

Lemma find_vtt_priority_witness :
  find_vtt "video1" [("video1.en-orig.vtt" : str, ("a" : str));
                     ("video1.en.vtt" : str, ("b" : str))]
  = Some ("video1" ++ ".en.vtt").
Proof.
  apply (proj1 (find_vtt_priority "video1"
                  [("video1.en-orig.vtt" : str, ("a" : str));
                   ("video1.en.vtt" : str, ("b" : str))])).
  apply (bool_decide_unpack _). vm_compute. exact I.
Defined.


(** ** The retriever and the orchestrator *)

(** Projections of an updated world, without unfolding any text. *)
Ltac world_simpl :=
  cbn [dirs files scratch archive stdout stderr tool_calls clock_reads slept
       fs_calls with_dirs with_files with_scratch with_archive with_stdout
       with_stderr tick_tool tick_clock with_slept tick_fs fst snd].

Ltac world_simpl_in H :=
  cbn [dirs files scratch archive stdout stderr tool_calls clock_reads slept
       fs_calls with_dirs with_files with_scratch with_archive with_stdout
       with_stderr tick_tool tick_clock with_slept tick_fs fst snd] in H.

(** The equations of [bind]. *)
Lemma bind_eqn {A B} (c : M A) (k : A -> M B) w o w1 :
  c w = (o, w1) ->
  bind c k w = match o with
               | Ret a => k a w1
               | Exit code => (Exit code, w1)
               | Raised e => (Raised e, w1)
               end.
Proof. intros H. unfold bind. rewrite H. destruct o; reflexivity. Qed.

Lemma bind_modify {B} (f : world -> world) (k : unit -> M B) w :
  bind (modify f) k w = k tt (f w).
Proof. reflexivity. Qed.

Lemma bind_print {B} (s : str) (k : unit -> M B) w :
  bind (print s) k w = k tt (with_stdout (fun o => o ++ s ++ nl) w).
Proof. reflexivity. Qed.

Lemma bind_combined_write {B} (s : str) (k : unit -> M B) w :
  bind (combined_write s) k w = k tt (with_archive (fun t => t ++ s) w).
Proof. reflexivity. Qed.

Lemma bind_ret {A B} (a : A) (k : A -> M B) w : bind (ret a) k w = k a w.
Proof. reflexivity. Qed.

Lemma bind_gets {A B} (f : world -> A) (k : A -> M B) w :
  bind (gets f) k w = k (f w) w.
Proof. reflexivity. Qed.

Lemma bind_assoc {A B C} (c : M A) (k1 : A -> M B) (k2 : B -> M C) w :
  bind (bind c k1) k2 w = bind c (fun a => bind (k1 a) k2) w.
Proof. unfold bind. destruct (c w) as [[a|code|e] w1]; reflexivity. Qed.





Section Retriever.

Variable caption_tool :
  nat -> str -> str -> list (str * str) -> bool * list (str * str).
Variable fs_fault : nat -> fs_call -> option str.

Abbreviation refused := (refusal fs_fault).

Lemma bind_syscall {B} (c : fs_call) (k : unit -> M B) w :
  bind (syscall fs_fault c) k w
  = match refused (fs_calls w) c with
    | Some e => (Raised e, tick_fs w)
    | None => k tt (tick_fs w)
    end.
Proof.
  unfold bind, syscall. destruct (refused (fs_calls w) c); reflexivity.
Qed.

(** The clean-up loop.  Whatever happens, it touches the scratch directory
    only, takes entries out and leaves those whose name does not start
    with the video id; it ends on an exception only when a removal is
    refused; when it ends well, it has removed the listed names that start
    with the video id. *)
Lemma cleanup_spec video_id temp_dir names : forall w,
  exists o w',
    for_each (remove_if_prefixed fs_fault video_id temp_dir) tt names w
      = (o, w')
    /\ same_outputs w w' /\ stdout w' = stdout w
    /\ tool_calls w' = tool_calls w
    /\ fs_calls w <= fs_calls w'
    /\ (forall code, o <> Exit code)
    /\ (forall e, o = Raised e ->
          exists n f, refused n (Remove (path_join temp_dir f)) = Some e)
    /\ (forall e, e ∈ scratch w' -> e ∈ scratch w)
    /\ (forall e, e ∈ scratch w -> Str.startswith (fst e) video_id = false ->
                  e ∈ scratch w')
    /\ (o = Ret tt ->
        scratch w'
        = List.filter (fun e => negb (Str.startswith (fst e) video_id
                                      && bool_decide (fst e ∈ names)))
                      (scratch w)).
Proof.
  induction names as [|f names IH]; intros w.
  - exists (Ret tt), w. split; [reflexivity|].
    split; [repeat split; reflexivity|].
    repeat split; auto; try discriminate.
    symmetry. apply filter_all. intros e _.
    rewrite bool_decide_eq_false_2 by apply not_elem_of_nil.
    rewrite andb_false_r. reflexivity.
  - cbn [for_each]. unfold remove_if_prefixed at 1.
    destruct (Str.startswith f video_id) eqn:Hf.
    + unfold os_remove. rewrite bind_assoc, bind_syscall.
      destruct (refused (fs_calls w) (Remove (path_join temp_dir f)))
        as [e|] eqn:Href.
      * exists (Raised e), (tick_fs w). split; [reflexivity|].
        split; [repeat split; reflexivity|].
        world_simpl. repeat split; auto; try discriminate.
        intros e' [= <-]. eauto.
      * rewrite bind_modify.
        match goal with
        | |- context [for_each _ tt names ?w1] =>
            destruct (IH w1)
              as (o & w' & Hrun & Hsame & Hout & Htool & Hfs & Hexit & Hraise
                  & Hsub & Hkeep & Hret)
        end.
        world_simpl_in Hsame. world_simpl_in Hout. world_simpl_in Htool.
        world_simpl_in Hfs. world_simpl_in Hsub. world_simpl_in Hkeep.
        world_simpl_in Hret.
        exists o, w'. split; [exact Hrun|].
        split; [exact Hsame|]. split; [exact Hout|]. split; [exact Htool|].
        split; [lia|]. split; [exact Hexit|]. split; [exact Hraise|].
        split; [|split].
        -- intros e He. apply Hsub in He.
           apply list_elem_of_In, filter_In in He as [He _].
           apply list_elem_of_In, He.
        -- intros e He Hpre. apply Hkeep; [|exact Hpre].
           apply list_elem_of_In, filter_In. split; [apply list_elem_of_In, He|].
           apply negb_true_iff, bool_decide_eq_false_2.
           intros Heq. rewrite Heq, Hf in Hpre. discriminate.
        -- intros Ho. rewrite (Hret Ho). unfold without_entry.
           rewrite filter_both. apply filter_ext_in. intros e _.
           destruct (decide (fst e = f)) as [Heq|Hne].
           ++ rewrite (bool_decide_eq_true_2 (fst e = f)) by exact Heq.
              rewrite Heq, Hf.
              rewrite (bool_decide_eq_true_2 (f ∈ f :: names))
                by (apply elem_of_cons; auto).
              reflexivity.
           ++ rewrite (bool_decide_eq_false_2 (fst e = f)) by exact Hne.
              cbn [negb andb]. f_equal. f_equal. apply bool_decide_ext.
              rewrite elem_of_cons. tauto.
    + rewrite bind_ret.
      destruct (IH w)
        as (o & w' & Hrun & Hsame & Hout & Htool & Hfs & Hexit & Hraise
            & Hsub & Hkeep & Hret).
      exists o, w'. split; [exact Hrun|].
      split; [exact Hsame|]. split; [exact Hout|]. split; [exact Htool|].
      split; [exact Hfs|]. split; [exact Hexit|]. split; [exact Hraise|].
      split; [exact Hsub|]. split; [exact Hkeep|].
      intros Ho. rewrite (Hret Ho). apply filter_ext_in. intros e _.
      destruct (Str.startswith (fst e) video_id) eqn:He; [|reflexivity].
      cbn [andb]. f_equal. apply bool_decide_ext.
      rewrite elem_of_cons. split; [auto|]. intros [Heq|H]; [|exact H].
      rewrite Heq, Hf in He. discriminate.
Qed.

Lemma remove_listed video_id (d : list (str * str)) :
  List.filter (fun e => negb (Str.startswith (fst e) video_id
                              && bool_decide (fst e ∈ listdir d))) d
  = remove_prefixed video_id d.
Proof.
  unfold remove_prefixed. apply filter_ext_in. intros e He.
  rewrite (bool_decide_eq_true_2 (fst e ∈ listdir d)).
  - rewrite andb_true_r. reflexivity.
  - unfold listdir. apply list_elem_of_fmap. exists e.
    split; [reflexivity|apply list_elem_of_In, He].
Qed.

Lemma find_vtt_expected video_id d :
  expected_listed video_id d = false ->
  find_vtt video_id d
  = List.find (fun f => Str.startswith f video_id && Str.endswith f ".vtt")
              (listdir d).
Proof.
  unfold expected_listed, find_vtt. cbn [existsb List.find].
  destruct (bool_decide (video_id ++ "." ++ SUBTITLE_LANG ++ ".vtt" ∈ listdir d));
    [discriminate|].
  destruct (bool_decide (video_id ++ "." ++ SUBTITLE_LANG ++ "-orig.vtt"
                         ∈ listdir d)); [discriminate|].
  reflexivity.
Qed.

(** A call of the retriever, whatever the caption tool and the file system
    do. *)
Lemma download_subtitle_spec video_id temp_dir w timed_out d :
  caption_tool (tool_calls w) video_id temp_dir (scratch w) = (timed_out, d) ->
  exists o w',
    download_subtitle caption_tool fs_fault video_id temp_dir w = (o, w')
    /\ same_outputs w w'
    /\ tool_calls w' = S (tool_calls w)
    /\ fs_calls w <= fs_calls w'
    /\ (forall code, o <> Exit code)
    /\ (forall e, o = Raised e ->
          timed_out = false
          /\ exists n c,
               refused n c = Some e
               /\ (call_path c = temp_dir
                   \/ exists f, call_path c = path_join temp_dir f))
    /\ (stdout w' = stdout w
        \/ (timed_out = true
            /\ stdout w'
               = stdout w
                 ++ ("  [TIMEOUT] Subtitle download timed out for "
                     ++ video_id) ++ nl))
    /\ (timed_out = true ->
        o = Ret None /\ fs_calls w' = fs_calls w /\ scratch w' = d)
    /\ (find_vtt video_id d = None -> scratch w' = d)
    /\ (forall e, e ∈ scratch w' -> e ∈ d)
    /\ (forall e, e ∈ d -> Str.startswith (fst e) video_id = false ->
                  e ∈ scratch w')
    /\ (forall r, o = Ret r ->
          (r, scratch w')
          = retrieve caption_tool (tool_calls w) video_id temp_dir (scratch w)).
Proof.
  intros Htool.
  unfold download_subtitle. unfold bind at 1. unfold run_caption_tool.
  rewrite Htool. unfold retrieve. rewrite Htool.
  destruct timed_out.
  { rewrite bind_print. unfold ret. eexists _, _. split; [reflexivity|].
    world_simpl. split; [repeat split; reflexivity|].
    split; [reflexivity|]. split; [lia|].
    split; [discriminate|]. split; [discriminate|].
    split; [right; split; reflexivity|].
    split; [intros _; repeat split; reflexivity|].
    split; [reflexivity|]. split; [auto|]. split; [auto|].
    intros r [= <-]. reflexivity. }
  rewrite bind_gets. world_simpl.
  set (w1 := tick_tool (with_scratch d w)).
  assert (Hw1 : same_outputs w w1 /\ stdout w1 = stdout w
                /\ tool_calls w1 = S (tool_calls w)
                /\ fs_calls w1 = fs_calls w /\ scratch w1 = d).
  { unfold w1. repeat split; reflexivity. }
  destruct Hw1 as (Hsame1 & Hout1 & Htool1 & Hfs1 & Hs1).
  clearbody w1.
  (* the scan *)
  assert (Hscan : forall k : unit -> M (option str),
    (exists e, refused (fs_calls w1) (ListDir temp_dir) = Some e
               /\ bind (if expected_listed video_id d then ret tt
                        else syscall fs_fault (ListDir temp_dir)) k w1
                  = (Raised e, tick_fs w1))
    \/ (exists w2,
          same_outputs w1 w2 /\ stdout w2 = stdout w1
          /\ tool_calls w2 = tool_calls w1 /\ scratch w2 = scratch w1
          /\ fs_calls w1 <= fs_calls w2
          /\ bind (if expected_listed video_id d then ret tt
                   else syscall fs_fault (ListDir temp_dir)) k w1
             = k tt w2)).
  { intros k. destruct (expected_listed video_id d) eqn:Hexp.
    - right. exists w1. rewrite bind_ret.
      repeat split; try reflexivity; lia.
    - rewrite bind_syscall.
      destruct (refused (fs_calls w1) (ListDir temp_dir)) as [e|] eqn:Href.
      + left. exists e. repeat split; reflexivity.
      + right. exists (tick_fs w1). repeat split; try reflexivity.
        world_simpl. lia. }
  match goal with
  | |- context [bind (if expected_listed video_id d then _ else _) ?k w1] =>
      destruct (Hscan k)
        as [(e & Href & Hrun)
           |(w2 & Hsame2 & Hout2 & Htool2 & Hs2 & Hfs2 & Hrun)]
  end; clear Hscan.
  { rewrite Hrun. exists (Raised e), (tick_fs w1). split; [reflexivity|].
    world_simpl.
    destruct Hsame1 as (? & ? & ? & ? & ? & ?).
    split; [repeat split; assumption|].
    split; [exact Htool1|]. split; [lia|].
    split; [discriminate|].
    split.
    { intros e' [= <-]. split; [reflexivity|].
      exists (fs_calls w1), (ListDir temp_dir). split; [exact Href|]. left. reflexivity. }
    split; [left; exact Hout1|].
    split; [discriminate|].
    split; [intros _; exact Hs1|].
    split; [rewrite Hs1; auto|]. split; [rewrite Hs1; auto|].
    discriminate. }
  rewrite Hrun. clear Hrun.
  assert (Hsame12 : same_outputs w w2).
  { destruct Hsame1 as (? & ? & ? & ? & ? & ?).
    destruct Hsame2 as (? & ? & ? & ? & ? & ?).
    repeat split; congruence. }
  assert (Hout12 : stdout w2 = stdout w) by congruence.
  assert (Htool12 : tool_calls w2 = S (tool_calls w)) by congruence.
  assert (Hs12 : scratch w2 = d) by congruence.
  assert (Hfs12 : fs_calls w <= fs_calls w2) by lia.
  clear Hsame1 Hout1 Htool1 Hfs1 Hs1 Hsame2 Hout2 Htool2 Hs2 Hfs2 w1.
  destruct (find_vtt video_id d) as [name|] eqn:Hfind.
  2:{ exists (Ret None), w2. split; [reflexivity|].
      split; [exact Hsame12|]. split; [exact Htool12|]. split; [exact Hfs12|].
      split; [discriminate|]. split; [discriminate|].
      split; [left; exact Hout12|]. split; [discriminate|].
      split; [intros _; exact Hs12|].
      split; [rewrite Hs12; auto|]. split; [rewrite Hs12; auto|].
      intros r [= <-]. rewrite Hs12. reflexivity. }
  unfold read_text. rewrite bind_assoc, bind_syscall.
  destruct (refused (fs_calls w2) (ReadText (path_join temp_dir name)))
    as [e|] eqn:Hread.
  { exists (Raised e), (tick_fs w2). split; [reflexivity|]. world_simpl.
    split; [exact Hsame12|]. split; [exact Htool12|]. split; [lia|].
    split; [discriminate|].
    split.
    { intros e' [= <-]. split; [reflexivity|].
      exists (fs_calls w2), (ReadText (path_join temp_dir name)).
      split; [exact Hread|]. right. exists name. reflexivity. }
    split; [left; exact Hout12|]. split; [discriminate|].
    split; [discriminate|].
    split; [rewrite Hs12; auto|]. split; [rewrite Hs12; auto|].
    discriminate. }
  rewrite bind_assoc, bind_gets, bind_ret. world_simpl. rewrite Hs12.
  unfold os_listdir. rewrite bind_assoc, bind_syscall. world_simpl.
  destruct (refused (S (fs_calls w2)) (ListDir temp_dir)) as [e|] eqn:Hlist.
  { exists (Raised e), (tick_fs (tick_fs w2)). split; [reflexivity|].
    world_simpl.
    split; [exact Hsame12|]. split; [exact Htool12|]. split; [lia|].
    split; [discriminate|].
    split.
    { intros e' [= <-]. split; [reflexivity|].
      exists (S (fs_calls w2)), (ListDir temp_dir).
      split; [exact Hlist|]. left. reflexivity. }
    split; [left; exact Hout12|]. split; [discriminate|].
    split; [discriminate|].
    split; [rewrite Hs12; auto|]. split; [rewrite Hs12; auto|].
    discriminate. }
  rewrite bind_assoc, bind_gets, bind_ret. world_simpl. rewrite Hs12.
  set (w3 := tick_fs (tick_fs w2)).
  destruct (cleanup_spec video_id temp_dir (listdir d) w3)
    as (o & w' & Hloop & Hsame3 & Hout3 & Htool3 & Hfs3 & Hexit & Hraise
        & Hsub & Hkeep & Hret).
  assert (Hw3 : same_outputs w w3 /\ stdout w3 = stdout w
                /\ tool_calls w3 = S (tool_calls w)
                /\ fs_calls w <= fs_calls w3 /\ scratch w3 = d).
  { unfold w3. world_simpl. split; [exact Hsame12|].
    repeat split; try assumption. lia. }
  destruct Hw3 as (Hsamew3 & Houtw3 & Htoolw3 & Hfsw3 & Hsw3).
  clearbody w3. rewrite Hsw3 in Hsub, Hkeep, Hret.
  assert (Hsamef : same_outputs w w').
  { destruct Hsamew3 as (? & ? & ? & ? & ? & ?).
    destruct Hsame3 as (? & ? & ? & ? & ? & ?).
    repeat split; congruence. }
  rewrite (bind_eqn _ _ _ _ _ Hloop).
  destruct o as [[]|code|e].
  - unfold ret. exists (Ret (Some (clean_vtt (read_scratch name d)))), w'.
    split; [reflexivity|]. split; [exact Hsamef|].
    split; [congruence|]. split; [lia|].
    split; [discriminate|]. split; [discriminate|].
    split; [left; congruence|]. split; [discriminate|].
    split; [discriminate|]. split; [exact Hsub|]. split; [exact Hkeep|].
    intros r [= <-]. rewrite (Hret eq_refl), remove_listed. reflexivity.
  - exfalso. exact (Hexit code eq_refl).
  - exists (Raised e), w'. split; [reflexivity|]. split; [exact Hsamef|].
    split; [congruence|]. split; [lia|].
    split; [discriminate|].
    split.
    { intros e' [= <-]. split; [reflexivity|].
      destruct (Hraise e eq_refl) as (n & f & Hn).
      exists n, (Remove (path_join temp_dir f)). split; [exact Hn|].
      right. exists f. reflexivity. }
    split; [left; congruence|]. split; [discriminate|].
    split; [discriminate|]. split; [exact Hsub|]. split; [exact Hkeep|].
    discriminate.
Qed.

End Retriever.

(** ** Counting over the loop *)

Lemma foldl_record_outcome vrs : forall st,
  success_count (foldl record_outcome st vrs)
    = success_count st + length (List.filter got vrs)
  /\ fail_count (foldl record_outcome st vrs)
    = fail_count st + length (List.filter (fun vr => negb (got vr)) vrs)
  /\ failed_videos (foldl record_outcome st vrs)
    = failed_videos st ++ map fst (List.filter (fun vr => negb (got vr)) vrs).
Proof.
  induction vrs as [|vr vrs IH]; intros st.
  - simpl. rewrite app_nil_r. repeat split; lia.
  - cbn [foldl List.filter]. destruct (IH (record_outcome st vr)) as (Hs & Hf & Hl).
    rewrite Hs, Hf, Hl. unfold record_outcome, got.
    destruct (obtained (snd vr)); cbn [negb success_count fail_count failed_videos];
      repeat split; cbn [length map]; rewrite <- ?app_assoc; try lia; reflexivity.
Qed.

Lemma filter_partition_length {A} (p : A -> bool) (l : list A) :
  length (List.filter p l) + length (List.filter (fun x => negb (p x)) l)
  = length l.
Proof.
  induction l as [|x l IH]; [reflexivity|]. simpl.
  destruct (p x); simpl; lia.
Qed.

Lemma filter_map_length {A B} (f : A -> B) (p : B -> bool) (l : list A) :
  length (List.filter p (map f l)) = length (List.filter (fun x => p (f x)) l).
Proof.
  induction l as [|x l IH]; [reflexivity|]. simpl.
  destruct (p (f x)); simpl; congruence.
Qed.

Lemma NoDup_fst_inj {A B} (l : list (A * B)) x y :
  NoDup (map fst l) -> x ∈ l -> y ∈ l -> fst x = fst y -> x = y.
Proof.
  induction l as [|z l IH]; intros Hnd Hx Hy Heq; [inversion Hx|].
  simpl in Hnd. apply NoDup_cons in Hnd as [Hz Hnd].
  apply elem_of_cons in Hx as [->|Hx]; apply elem_of_cons in Hy as [->|Hy].
  - reflexivity.
  - exfalso. apply Hz. rewrite Heq. apply list_elem_of_fmap. eauto.
  - exfalso. apply Hz. rewrite <- Heq. apply list_elem_of_fmap. eauto.
  - auto.
Qed.

(** With distinct videos, a video is in the failed list exactly when its
    own retrieval failed. *)
Lemma failed_iff_not_got (vrs : list ((str * str) * option str)) vr :
  NoDup (map fst vrs) -> vr ∈ vrs ->
  (fst vr ∈ map fst (List.filter (fun vr => negb (got vr)) vrs)
   <-> got vr = false).
Proof.
  intros Hnd Hin. split.
  - intros H. apply list_elem_of_fmap in H as (vr' & Heq & Hvr').
    apply list_elem_of_In, filter_In in Hvr' as [Hvr' Hg].
    apply list_elem_of_In in Hvr'.
    rewrite (NoDup_fst_inj vrs vr vr' Hnd Hin Hvr' Heq).
    apply negb_true_iff, Hg.
  - intros Hg. apply list_elem_of_fmap. exists vr. split; [reflexivity|].
    apply list_elem_of_In, filter_In. split; [apply list_elem_of_In, Hin|].
    rewrite Hg. reflexivity.
Qed.

Lemma flags_count (vrs : list ((str * str) * option str)) :
  NoDup (map fst vrs) ->
  List.filter
    (fun vr => bool_decide
                 (fst vr ∉ map fst (List.filter (fun vr => negb (got vr)) vrs)))
    vrs
  = List.filter got vrs.
Proof.
  intros Hnd. apply filter_ext_in. intros vr Hin.
  apply list_elem_of_In in Hin.
  pose proof (failed_iff_not_got vrs vr Hnd Hin) as H.
  destruct (got vr).
  - apply bool_decide_eq_true. intros Hf. apply H in Hf. discriminate.
  - apply bool_decide_eq_false. intros Hf. apply Hf, H. reflexivity.
Qed.

Lemma sections_of_successes vrs :
  sections_of vrs
  = concat (map (fun vt => archive_section (fst (fst vt)) (snd (fst vt)) (snd vt))
                (successes vrs)).
Proof.
  unfold sections_of, successes. induction vrs as [|vr vrs IH]; [reflexivity|].
  cbn [map concat omap list_omap]. unfold section_of at 1.
  destruct (obtained (snd vr)); cbn [map concat]; rewrite IH; reflexivity.
Qed.

(** One step of a computation. *)
Ltac step :=
  cbv beta;
  first [ rewrite bind_assoc | rewrite bind_print | rewrite bind_combined_write
        | rewrite bind_modify | rewrite bind_ret | rewrite bind_gets ].

(** *** Calls that go the same way *)

Lemma respects_ret {A} (a : A) : respects (ret a).
Proof. intros w1 w2 H. split; [reflexivity|exact H]. Qed.

Lemma respects_bind {A B} (c : M A) (k : A -> M B) :
  respects c -> (forall a, respects (k a)) -> respects (bind c k).
Proof.
  intros Hc Hk w1 w2 H. destruct (Hc w1 w2 H) as [Ho Ha].
  unfold bind. destruct (c w1) as [o1 v1], (c w2) as [o2 v2].
  cbn [fst snd] in Ho, Ha. subst o2.
  destruct o1 as [a|code|e]; [apply Hk, Ha| |]; split; auto.
Qed.

Lemma respects_print s : respects (print s).
Proof. intros w1 w2 H. split; [reflexivity|exact H]. Qed.

Lemma respects_for_each {A} (body : unit -> A -> M unit) (l : list A) :
  (forall x, respects (body tt x)) -> respects (for_each body tt l).
Proof.
  intros Hb. induction l as [|x l IH]; [apply respects_ret|].
  cbn [for_each]. apply respects_bind; [apply Hb|]. intros []. exact IH.
Qed.

Section Orchestrator.

Variable list_channel : str -> run_result.
Variable caption_tool :
  nat -> str -> str -> list (str * str) -> bool * list (str * str).
Variable strftime : nat -> str.
Variable fs_fault : nat -> fs_call -> option str.

Abbreviation refused' := (refusal fs_fault).

Lemma respects_syscall c : respects (syscall fs_fault c).
Proof.
  intros w1 w2 (Ht & Hs & Hf). unfold syscall. rewrite Hf.
  destruct (refusal fs_fault (fs_calls w2) c); cbn [fst snd];
    (split; [reflexivity|]); repeat split; world_simpl; congruence.
Qed.

(** The retriever looks at the count of invocations of the caption tool,
    at the scratch directory and at the count of calls to the file system,
    and at nothing else. *)
Lemma download_subtitle_respects video_id temp_dir :
  respects (download_subtitle caption_tool fs_fault video_id temp_dir).
Proof.
  unfold download_subtitle. apply respects_bind.
  { intros w1 w2 (Ht & Hs & Hf). unfold run_caption_tool. rewrite Ht, Hs.
    destruct (caption_tool (tool_calls w2) video_id temp_dir (scratch w2))
      as [timed_out d]. cbn [fst snd].
    split; [reflexivity|]. repeat split; world_simpl; congruence. }
  intros [|].
  { apply respects_bind; [apply respects_print|]. intros _. apply respects_ret. }
  assert (HK : forall d,
    respects
      ((if expected_listed video_id d then ret tt
        else syscall fs_fault (ListDir temp_dir)) ;;;
       match find_vtt video_id d with
       | None => ret None
       | Some vtt_path =>
           vtt_content <- read_text fs_fault temp_dir vtt_path ;;
           names <- os_listdir fs_fault temp_dir ;;
           for_each (remove_if_prefixed fs_fault video_id temp_dir) tt names ;;;
           ret (Some (clean_vtt vtt_content))
       end)).
  2:{ intros w1 w2 H. rewrite !bind_gets.
      destruct H as (Ht & Hs & Hf). rewrite Hs.
      apply (HK (scratch w2)). repeat split; assumption. }
  intros d.
  apply respects_bind.
  { destruct (expected_listed video_id d);
      [apply respects_ret|apply respects_syscall]. }
  intros _. destruct (find_vtt video_id d) as [name|]; [|apply respects_ret].
  apply respects_bind.
  { unfold read_text. apply respects_bind; [apply respects_syscall|].
    intros _ w1 w2 (Ht & Hs & Hf). rewrite !bind_gets. unfold ret.
    cbn [fst snd]. rewrite Hs. split; [reflexivity|].
    repeat split; assumption. }
  intros content. apply respects_bind.
  { unfold os_listdir. apply respects_bind; [apply respects_syscall|].
    intros _ w1 w2 (Ht & Hs & Hf). rewrite !bind_gets. unfold ret.
    cbn [fst snd]. rewrite Hs. split; [reflexivity|].
    repeat split; assumption. }
  intros names. apply respects_bind; [|intros _; apply respects_ret].
  apply respects_for_each. intros f. unfold remove_if_prefixed.
  destruct (Str.startswith f video_id); [|apply respects_ret].
  unfold os_remove. apply respects_bind; [apply respects_syscall|].
  intros _ w1 w2 (Ht & Hs & Hf). unfold modify. cbn [fst snd].
  split; [reflexivity|]. repeat split; world_simpl; congruence.
Qed.

(** One turn of the loop.  It ends with the loop variables updated for what
    the retriever returned, the section and the file written if a
    transcript was obtained; or it ends on the refusal of a call, and then
    neither the archive nor the files have changed. *)
Lemma process_video_spec total out_dir temp_dir st idx v w :
  exists o w',
    process_video caption_tool fs_fault total out_dir temp_dir st (idx, v) w
      = (o, w')
    /\ dirs w' = dirs w /\ stderr w' = stderr w
    /\ clock_reads w' = clock_reads w
    /\ tool_calls w' = S (tool_calls w)
    /\ fs_calls w <= fs_calls w'
    /\ (forall code, o <> Exit code)
    /\ ((exists r,
           o = Ret (record_outcome st (v, r))
           /\ (r, scratch w')
              = retrieve caption_tool (tool_calls w) (fst v) temp_dir
                         (scratch w)
           /\ archive w' = archive w ++ section_of (v, r)
           /\ files w' = individual_files out_dir [(v, r)] (files w)
           /\ slept w' = slept w + (if (idx mod 10 =? 0)%nat then 2 else 0))
        \/ (exists e,
              o = Raised e
              /\ (exists n c, refused' n c = Some e
                              /\ video_path out_dir temp_dir (call_path c))
              /\ archive w' = archive w /\ files w' = files w
              /\ slept w' = slept w)).
Proof.
  destruct v as [video_id title]. unfold process_video. cbn [fst snd].
  set (pause := (idx mod 10 =? 0)%nat). clearbody pause.
  rewrite bind_print.
  set (w1 := with_stdout _ w).
  assert (H1 : same_outputs w w1 /\ tool_calls w1 = tool_calls w
               /\ scratch w1 = scratch w /\ fs_calls w1 = fs_calls w)
    by (repeat split; reflexivity).
  destruct H1 as ((Hd1 & Hf1 & Ha1 & He1 & Hc1 & Hsl1) & Ht1 & Hs1 & Hfs1).
  clearbody w1.
  destruct (caption_tool (tool_calls w1) video_id temp_dir (scratch w1))
    as [timed_out d] eqn:Htool.
  destruct (download_subtitle_spec caption_tool fs_fault video_id temp_dir w1
              timed_out d Htool)
    as (o & w2 & Hd & (Hd2 & Hf2 & Ha2 & He2 & Hc2 & Hsl2) & Ht2 & Hfs2
        & Hexit & Hraise & _ & _ & _ & _ & _ & Hret).
  rewrite (bind_eqn _ _ _ _ _ Hd).
  rewrite Ht1, Hs1 in Hret.
  destruct o as [r|code|e].
  2:{ exfalso. exact (Hexit code eq_refl). }
  2:{ exists (Raised e), w2. split; [reflexivity|].
      split; [congruence|]. split; [congruence|]. split; [congruence|].
      split; [congruence|]. split; [lia|]. split; [discriminate|].
      right. exists e. split; [reflexivity|].
      split.
      { destruct (Hraise e eq_refl) as (_ & n & c & Hn & Hp).
        exists n, c. split; [exact Hn|].
        destruct Hp as [Hp|Hp]; [left; exact Hp|right; left; exact Hp]. }
      split; [congruence|]. split; congruence. }
  specialize (Hret r eq_refl).
  unfold record_outcome, section_of, individual_files, obtained.
  cbn [fst snd foldl].
  destruct r as [[|c t]|].
  - (* the empty transcript *)
    repeat step. destruct pause; unfold sleep; repeat step; unfold ret;
      (eexists _, _; split; [reflexivity|]); world_simpl;
      (split; [congruence|]); (split; [congruence|]); (split; [congruence|]);
      (split; [congruence|]); (split; [lia|]); (split; [discriminate|]);
      left; exists (Some []); cbn [obtained snd];
      (split; [reflexivity|]); (split; [exact Hret|]);
      (split; [rewrite app_nil_r; congruence|]);
      (split; [congruence|]); rewrite ?Nat.add_0_r; congruence.
  - (* a transcript *)
    rewrite bind_assoc. unfold write_file. rewrite bind_assoc, bind_syscall.
    destruct (refused' (fs_calls w2)
                (OpenWrite (individual_path out_dir video_id title)))
      as [e|] eqn:Hopen.
    + exists (Raised e), (tick_fs w2). split; [reflexivity|]. world_simpl.
      split; [congruence|]. split; [congruence|]. split; [congruence|].
      split; [congruence|]. split; [lia|]. split; [discriminate|].
      right. exists e. split; [reflexivity|].
      split.
      { exists (fs_calls w2), (OpenWrite (individual_path out_dir video_id title)).
        split; [exact Hopen|]. right. right. exists video_id, title.
        reflexivity. }
      split; [congruence|]. split; congruence.
    + repeat step. destruct pause; unfold sleep; repeat step; unfold ret;
        (eexists _, _; split; [reflexivity|]); world_simpl;
        (split; [congruence|]); (split; [congruence|]); (split; [congruence|]);
        (split; [congruence|]); (split; [lia|]); (split; [discriminate|]);
        left; exists (Some (c :: t)); cbn [obtained snd];
        (split; [reflexivity|]); (split; [exact Hret|]);
        (split; [rewrite Ha2, Ha1; unfold archive_section;
                 repeat rewrite <- app_assoc; reflexivity|]);
        (split; [rewrite Hf2, Hf1; reflexivity|]);
        rewrite ?Nat.add_0_r; congruence.
  - (* no transcript *)
    repeat step. destruct pause; unfold sleep; repeat step; unfold ret;
      (eexists _, _; split; [reflexivity|]); world_simpl;
      (split; [congruence|]); (split; [congruence|]); (split; [congruence|]);
      (split; [congruence|]); (split; [lia|]); (split; [discriminate|]);
      left; exists None; cbn [obtained snd];
      (split; [reflexivity|]); (split; [exact Hret|]);
      (split; [rewrite app_nil_r; congruence|]);
      (split; [congruence|]); rewrite ?Nat.add_0_r; congruence.
Qed.

Lemma length_retrievals temp_dir vs : forall n d,
  length (retrievals caption_tool n temp_dir vs d) = length vs.
Proof.
  induction vs as [|v vs IH]; intros n d; [reflexivity|].
  cbn [retrievals length]. rewrite IH. reflexivity.
Qed.

(** The loop of [main].  [results] lists what the retriever returned for
    the videos whose turn ended well; when the loop ends well these are all
    the videos. *)
Lemma main_loop_spec total out_dir temp_dir vs : forall st start w,
  exists o w' results,
    for_each (process_video caption_tool fs_fault total out_dir temp_dir) st
             (enumerate start vs) w
      = (o, w')
    /\ length results <= length vs
    /\ archive w' = archive w ++ sections_of (zip vs results)
    /\ files w' = individual_files out_dir (zip vs results) (files w)
    /\ dirs w' = dirs w /\ stderr w' = stderr w
    /\ clock_reads w' = clock_reads w
    /\ tool_calls w' <= tool_calls w + length vs
    /\ fs_calls w <= fs_calls w'
    /\ (forall code, o <> Exit code)
    /\ (forall e, o = Raised e ->
          exists n c, refused' n c = Some e
                      /\ video_path out_dir temp_dir (call_path c))
    /\ (forall st', o = Ret st' ->
          results = retrievals caption_tool (tool_calls w) temp_dir vs
                               (scratch w)
          /\ st' = foldl record_outcome st (zip vs results)
          /\ tool_calls w' = tool_calls w + length vs
          /\ slept w' = slept w + 2 * pauses start (length vs)
          /\ scratch w'
             = scratch_after caption_tool (tool_calls w) temp_dir vs
                             (scratch w)).
Proof.
  induction vs as [|v vs IH]; intros st start w.
  - exists (Ret st), w, []. split; [reflexivity|].
    unfold sections_of. cbn [zip zip_with map concat length].
    rewrite app_nil_r. repeat split; auto; try lia; try discriminate;
      injection H as <-; reflexivity.
  - cbn [enumerate for_each].
    destruct (process_video_spec total out_dir temp_dir st start v w)
      as (o & w1 & Hstep & Hd & He & Hc & Ht & Hfs & Hexit & Hcase).
    rewrite (bind_eqn _ _ _ _ _ Hstep).
    destruct Hcase as [(r & -> & Hret & Harch & Hfiles & Hslept)
                      |(e & -> & Href & Harch & Hfiles & Hslept)].
    + destruct (IH (record_outcome st (v, r)) (S start) w1)
        as (o' & w' & results & Hrun & Hlen & Harch' & Hfiles' & Hd' & He'
            & Hc' & Ht' & Hfs' & Hexit' & Hraise' & Hret').
      exists o', w', (r :: results). split; [exact Hrun|].
      split; [cbn [length]; lia|].
      split.
      { rewrite Harch', Harch. unfold sections_of. cbn [zip zip_with map concat].
        rewrite app_assoc. reflexivity. }
      split; [rewrite Hfiles', Hfiles; reflexivity|].
      split; [congruence|]. split; [congruence|]. split; [congruence|].
      split; [cbn [length]; lia|]. split; [lia|].
      split; [exact Hexit'|]. split; [exact Hraise'|].
      intros st' Ho. destruct (Hret' st' Ho) as (Hres & Hst & Htl & Hsl & Hsc).
      assert (Hr : r = fst (retrieve caption_tool (tool_calls w) (fst v)
                              temp_dir (scratch w)))
        by (rewrite <- Hret; reflexivity).
      assert (Hs : scratch w1 = snd (retrieve caption_tool (tool_calls w) (fst v)
                                       temp_dir (scratch w)))
        by (rewrite <- Hret; reflexivity).
      rewrite Ht, Hs in Hres, Hsc. cbn [retrievals scratch_after].
      split; [rewrite Hres, Hr; reflexivity|].
      split; [exact Hst|].
      split; [cbn [length]; lia|].
      split; [|exact Hsc].
      rewrite Hsl, Hslept. unfold pauses. cbn [length seq List.filter].
      destruct (start mod 10 =? 0)%nat; cbn [length]; lia.
    + exists (Raised e), w1, []. split; [reflexivity|].
      unfold sections_of. cbn [zip zip_with map concat length].
      rewrite app_nil_r.
      split; [lia|]. split; [exact Harch|]. split; [exact Hfiles|].
      split; [exact Hd|]. split; [exact He|]. split; [exact Hc|].
      split; [lia|]. split; [exact Hfs|]. split; [discriminate|].
      split; [intros e' [= <-]; exact Href|]. discriminate.
Qed.

Lemma only_printed_refl w : only_printed w w.
Proof. repeat split; reflexivity. Qed.

Lemma only_printed_print s w : only_printed w (snd (print s w)).
Proof. repeat split; reflexivity. Qed.

Lemma only_printed_trans w1 w2 w3 :
  only_printed w1 w2 -> only_printed w2 w3 -> only_printed w1 w3.
Proof.
  unfold only_printed. intros (?&?&?&?&?&?&?&?&?) (?&?&?&?&?&?&?&?&?).
  repeat split; congruence.
Qed.

Lemma print_each_quiet (f : str * str -> str) l : forall w,
  exists w',
    for_each (fun _ v => print (f v)) tt l w = (Ret tt, w')
    /\ only_printed w w'.
Proof.
  induction l as [|v l IH]; intros w.
  - exists w. split; [reflexivity|apply only_printed_refl].
  - destruct (IH (snd (print (f v) w))) as (w' & Hrun & Hq).
    exists w'. split; [exact Hrun|].
    eapply only_printed_trans; [apply only_printed_print|exact Hq].
Qed.

Lemma print_summary_quiet a total path st w :
  exists w', print_summary a total path st w = (Ret tt, w') /\ only_printed w w'.
Proof.
  unfold print_summary, bind, print, modify.
  destruct (failed_videos st) as [|v l].
  - eexists. split; [reflexivity|]. repeat split; reflexivity.
  - match goal with
    | |- context [for_each ?body tt ?l ?w] =>
        destruct (print_each_quiet
                    (fun v => "  - " ++ snd v ++ " (" ++ fst v ++ ")") l w)
          as (w' & Hrun & Hq)
    end.
    exists w'. split; [exact Hrun|].
    destruct Hq as (?&?&?&?&?&?&?&?&?). repeat split; assumption.
Qed.

End Orchestrator.

(** *** A whole run *)





Section Run.

Variable list_channel : str -> run_result.
Variable caption_tool :
  nat -> str -> str -> list (str * str) -> bool * list (str * str).
Variable strftime : nat -> str.
Variable fs_fault : nat -> fs_call -> option str.

Abbreviation refused_ := (refusal fs_fault).

Lemma bind_syscall_ {B} (c : fs_call) (k : unit -> M B) w :
  bind (syscall fs_fault c) k w
  = match refused_ (fs_calls w) c with
    | Some e => (Raised e, tick_fs w)
    | None => k tt (tick_fs w)
    end.
Proof. apply bind_syscall. Qed.

Lemma bind_now {B} (k : str -> M B) w :
  bind (now strftime) k w = k (strftime (clock_reads w)) (tick_clock w).
Proof. reflexivity. Qed.

(** [try: os.rmdir(temp_dir)  except OSError: pass] *)
Lemma rmdir_scratch_spec temp_dir w :
  exists o w',
    rmdir_scratch fs_fault temp_dir w = (o, w')
    /\ files w' = files w /\ scratch w' = scratch w /\ archive w' = archive w
    /\ stderr w' = stderr w /\ tool_calls w' = tool_calls w
    /\ clock_reads w' = clock_reads w /\ slept w' = slept w
    /\ (forall code, o <> Exit code)
    /\ (forall e, o = Raised e ->
          refused_ (fs_calls w) (Rmdir temp_dir) = Some e)
    /\ ((dirs w' = dirs w ∖ {[ temp_dir ]}
         /\ scratch_is_empty temp_dir w = true
         /\ refused_ (fs_calls w) (Rmdir temp_dir) = None)
        \/ (dirs w' = dirs w
            /\ (scratch_is_empty temp_dir w = false
                \/ refused_ (fs_calls w) (Rmdir temp_dir) <> None))).
Proof.
  unfold rmdir_scratch, try_pass, os_rmdir. rewrite bind_syscall_.
  destruct (refused_ (fs_calls w) (Rmdir temp_dir)) as [e|] eqn:Href.
  - destruct (is_oserror e); (eexists _, _; split; [reflexivity|]);
      world_simpl; repeat split; try reflexivity; try discriminate;
      try (intros e' [= <-]; reflexivity);
      right; (split; [reflexivity|]); right; discriminate.
  - rewrite bind_gets.
    change (scratch_is_empty temp_dir (tick_fs w))
      with (scratch_is_empty temp_dir w).
    destruct (scratch_is_empty temp_dir w) eqn:Hempty.
    + unfold modify. eexists _, _. split; [reflexivity|]. world_simpl.
      repeat split; try reflexivity; try discriminate.
      left. repeat split; reflexivity.
    + unfold raise. change (is_oserror "OSError") with true. cbn iota.
      eexists _, _. split; [reflexivity|]. world_simpl.
      repeat split; try reflexivity; try discriminate.
      right. split; [reflexivity|]. left. reflexivity.
Qed.

(** A run after a successful enumeration, however it ends.  [results]
    lists what the retriever returned for the videos whose turn of the loop
    ended well. *)
Lemma main_spec a w0 out err :
  list_channel (channel_url a) = Completed 0 out err ->
  exists o wF results,
    main list_channel caption_tool strftime fs_fault a w0 = (o, wF)
    /\ (forall code, o <> Exit code)
    /\ (forall e, o = Raised e ->
          exists n c, refused_ n c = Some e /\ run_path a (call_path c))
    /\ length results <= length (parse_listing out)
    /\ tool_calls wF <= tool_calls w0 + length (parse_listing out)
    /\ clock_reads wF <= clock_reads w0 + 2
    /\ stderr wF = stderr w0
    /\ ((results = [] /\ archive wF = archive w0 /\ files wF = files w0
         /\ (exists e, o = Raised e))
        \/ (archive wF
            = archive_header (display_name a) (length (parse_listing out))
                             (strftime (clock_reads w0)) (channel_url a)
              ++ sections_of (zip (parse_listing out) results)
            /\ (files wF
                = <[ combined_file a := Text (archive wF) ]>
                    (individual_files (output_dir a)
                       (zip (parse_listing out) results)
                       (<[ combined_file a := Text [] ]> (files w0)))
                \/ exists m,
                     files wF
                     = <[ manifest_path a := Json m ]>
                         (<[ combined_file a := Text (archive wF) ]>
                            (individual_files (output_dir a)
                               (zip (parse_listing out) results)
                               (<[ combined_file a := Text [] ]> (files w0)))))))
    /\ (o = Ret tt ->
        results = retrievals caption_tool (tool_calls w0) (temp_dir_of a)
                             (parse_listing out) (scratch w0)
        /\ files wF
           = <[ manifest_path a :=
                  Json (make_manifest a (strftime (S (clock_reads w0)))
                          (parse_listing out)
                          (foldl record_outcome (RunState 0 0 [])
                                 (zip (parse_listing out) results))) ]>
               (<[ combined_file a := Text (archive wF) ]>
                  (individual_files (output_dir a)
                     (zip (parse_listing out) results)
                     (<[ combined_file a := Text [] ]> (files w0))))
        /\ tool_calls wF = tool_calls w0 + length (parse_listing out)
        /\ clock_reads wF = clock_reads w0 + 2
        /\ slept wF = slept w0 + 2 * pauses 1 (length (parse_listing out))
        /\ scratch wF
           = scratch_after caption_tool (tool_calls w0) (temp_dir_of a)
                           (parse_listing out) (scratch w0)
        /\ exists wR,
             dirs wR = {[ temp_dir_of a ]} ∪ ({[ output_dir a ]} ∪ dirs w0)
             /\ files wR
                = <[ combined_file a := Text (archive wF) ]>
                    (individual_files (output_dir a)
                       (zip (parse_listing out) results)
                       (<[ combined_file a := Text [] ]> (files w0)))
             /\ scratch wR = scratch wF
             /\ ((dirs wF = dirs wR ∖ {[ temp_dir_of a ]}
                  /\ scratch_is_empty (temp_dir_of a) wR = true
                  /\ refused_ (fs_calls wR) (Rmdir (temp_dir_of a)) = None)
                 \/ (dirs wF = dirs wR
                     /\ (scratch_is_empty (temp_dir_of a) wR = false
                         \/ refused_ (fs_calls wR) (Rmdir (temp_dir_of a))
                            <> None)))).
Proof.
  intros Hlist. set (videos := parse_listing out).
  unfold main, get_all_videos. rewrite Hlist. cbn [Z.eqb negb].
  fold videos. fold (temp_dir_of a). fold (manifest_path a).
  repeat step.
  (* the output directory *)
  unfold makedirs at 1. rewrite bind_assoc, bind_syscall_. world_simpl.
  destruct (refused_ (fs_calls w0) (Mkdir (output_dir a))) as [e|] eqn:Hm1.
  { eexists (Raised e), _, []. split; [reflexivity|]. world_simpl.
    split; [discriminate|].
    split.
    { intros e' [= <-]. exists (fs_calls w0), (Mkdir (output_dir a)).
      split; [exact Hm1|]. left. reflexivity. }
    split; [cbn [length]; lia|]. split; [lia|]. split; [lia|].
    split; [reflexivity|].
    split; [left; repeat split; try reflexivity; eauto|]. discriminate. }
  step.
  (* the scratch directory *)
  unfold makedirs at 1. rewrite bind_assoc, bind_syscall_. world_simpl.
  destruct (refused_ (S (fs_calls w0)) (Mkdir (temp_dir_of a))) as [e|] eqn:Hm2.
  { eexists (Raised e), _, []. split; [reflexivity|]. world_simpl.
    split; [discriminate|].
    split.
    { intros e' [= <-]. exists (S (fs_calls w0)), (Mkdir (temp_dir_of a)).
      split; [exact Hm2|]. right. right. right. left. reflexivity. }
    split; [cbn [length]; lia|]. split; [lia|]. split; [lia|].
    split; [reflexivity|].
    split; [left; repeat split; try reflexivity; eauto|]. discriminate. }
  step.
  (* the archive is opened *)
  unfold with_combined, open_combined.
  rewrite bind_assoc, bind_assoc, bind_syscall_. world_simpl.
  destruct (refused_ (S (S (fs_calls w0))) (OpenWrite (combined_file a)))
    as [e|] eqn:Hopen.
  { eexists (Raised e), _, []. split; [reflexivity|]. world_simpl.
    split; [discriminate|].
    split.
    { intros e' [= <-]. exists (S (S (fs_calls w0))), (OpenWrite (combined_file a)).
      split; [exact Hopen|]. right. left. reflexivity. }
    split; [cbn [length]; lia|]. split; [lia|]. split; [lia|].
    split; [reflexivity|].
    split; [left; repeat split; try reflexivity; eauto|]. discriminate. }
  step.
  (* the header and the loop *)
  unfold finally, bind at 1.
  repeat step. rewrite bind_now. repeat step.
  match goal with
  | |- context [for_each ?body ?st ?l ?w] =>
      destruct (main_loop_spec caption_tool fs_fault (length videos)
                  (output_dir a) (temp_dir_of a) videos st 1 w)
        as (oL & wL & results & Hrun & Hlen & Harch & Hfiles & Hdirs & Herr
            & Hclock & Htool & Hfs & HexitL & HraiseL & HretL)
  end.
  rewrite Hrun.
  world_simpl_in Harch; world_simpl_in Hfiles; world_simpl_in Hdirs;
    world_simpl_in Herr; world_simpl_in Hclock; world_simpl_in Htool;
    world_simpl_in Hfs; world_simpl_in HretL.
  assert (Hhead : archive wL
                  = archive_header (display_name a) (length videos)
                                   (strftime (clock_reads w0)) (channel_url a)
                    ++ sections_of (zip videos results)).
  { rewrite Harch. unfold archive_header. cbn [app].
    repeat rewrite <- app_assoc. reflexivity. }
  clear Harch.
  unfold close_combined, modify. cbn iota.
  destruct oL as [st|code|e].
  2:{ exfalso. exact (HexitL code eq_refl). }
  2:{ eexists (Raised e), _, results. split; [reflexivity|]. world_simpl.
      split; [discriminate|].
      split.
      { intros e' [= <-]. destruct (HraiseL e eq_refl) as (n & c & Hn & Hp).
        exists n, c. split; [exact Hn|]. right. right. right. exact Hp. }
      split; [exact Hlen|]. split; [lia|]. split; [lia|].
      split; [exact Herr|].
      split; [|discriminate].
      right. split; [exact Hhead|]. left. rewrite Hfiles. reflexivity. }
  destruct (HretL st eq_refl) as (Hres & Hst & Htl & Hsl & Hsc).
  clear HretL.
  (* the scratch directory is removed *)
  set (wC := with_files _ wL).
  assert (HwC : dirs wC = {[ temp_dir_of a ]} ∪ ({[ output_dir a ]} ∪ dirs w0)
                /\ files wC
                   = <[ combined_file a := Text (archive wL) ]>
                       (individual_files (output_dir a) (zip videos results)
                          (<[ combined_file a := Text [] ]> (files w0)))
                /\ scratch wC = scratch wL /\ archive wC = archive wL
                /\ stderr wC = stderr w0
                /\ tool_calls wC = tool_calls w0 + length videos
                /\ clock_reads wC = S (clock_reads w0)
                /\ slept wC = slept wL).
  { unfold wC. world_simpl. rewrite Hfiles.
    repeat split; try reflexivity; assumption. }
  destruct HwC as (HdC & HfC & HsC & HaC & HeC & HtC & HcC & HslC).
  clearbody wC.
  destruct (rmdir_scratch_spec (temp_dir_of a) wC)
    as (oR & wR' & Hrm & HfR & HsR & HaR & HeR & HtR & HcR & HslR & HexitR
        & HraiseR & HdR).
  rewrite (bind_eqn _ _ _ _ _ Hrm).
  destruct oR as [[]|code|e].
  2:{ exfalso. exact (HexitR code eq_refl). }
  2:{ eexists (Raised e), _, results. split; [reflexivity|].
      split; [discriminate|].
      split.
      { intros e' [= <-]. exists (fs_calls wC), (Rmdir (temp_dir_of a)).
        split; [exact (HraiseR e eq_refl)|].
        right. right. right. left. reflexivity. }
      split; [exact Hlen|]. split; [lia|]. split; [lia|].
      split; [congruence|].
      split; [|discriminate].
      right. split; [congruence|]. left. rewrite HfR, HfC, HaR, HaC.
      reflexivity. }
  (* the manifest *)
  rewrite bind_now. cbv beta.
  unfold write_file. rewrite bind_assoc, bind_syscall_. world_simpl.
  match goal with
  | |- context [refused_ ?n (OpenWrite (manifest_path a))] =>
      destruct (refused_ n (OpenWrite (manifest_path a))) as [e|] eqn:Hman
  end.
  { eexists (Raised e), _, results. split; [reflexivity|]. world_simpl.
    split; [discriminate|].
    split.
    { intros e' [= <-]. eexists _, (OpenWrite (manifest_path a)).
      split; [exact Hman|]. right. right. left. reflexivity. }
    split; [exact Hlen|]. split; [lia|]. split; [lia|].
    split; [congruence|].
    split; [|discriminate].
    right. split; [congruence|]. left. rewrite HfR, HfC, HaR, HaC.
    reflexivity. }
  step.
  match goal with
  | |- context [print_summary ?a' ?t ?p ?st' ?w] =>
      destruct (print_summary_quiet a' t p st' w)
        as (wF & Hsum & HdF & HfF & HsF & HaF & HeF & HtF & HcF & HslF & HfsF)
  end.
  world_simpl_in HdF; world_simpl_in HfF; world_simpl_in HsF;
    world_simpl_in HaF; world_simpl_in HeF; world_simpl_in HtF;
    world_simpl_in HcF; world_simpl_in HslF.
  exists (Ret tt), wF, results. split; [exact Hsum|].
  split; [discriminate|]. split; [discriminate|].
  split; [exact Hlen|]. split; [lia|]. split; [lia|].
  split; [congruence|].
  assert (HaFL : archive wF = archive wL) by congruence.
  split.
  { right. split; [congruence|]. right. eexists.
    rewrite HfF, HfR, HfC, HaFL. reflexivity. }
  intros _.
  split; [exact Hres|].
  split; [rewrite HfF, HfR, HfC, HaFL, HcR, HcC, Hst; reflexivity|].
  split; [lia|]. split; [lia|].
  split; [rewrite HslF, HslR, HslC, Hsl; reflexivity|].
  split; [rewrite HsF, HsR, HsC, Hsc; reflexivity|].
  exists wC. split; [exact HdC|]. split; [rewrite HfC, HaFL; reflexivity|].
  split; [congruence|].
  rewrite HdF. exact HdR.
Qed.

End Run.

(** *** Paths under the scratch directory *)










Lemma pauses_from_one n : pauses 1 n = n / 10.
Proof.
  unfold pauses. induction n as [|n IH]; [reflexivity|].
  rewrite seq_S, List.filter_app, length_app, IH. cbn [List.filter].
  change (1 + n) with (S n).
  pose proof (Nat.div_mod_eq (S n) 10) as H1.
  pose proof (Nat.div_mod_eq n 10) as H0.
  pose proof (Nat.mod_upper_bound (S n) 10) as B1.
  pose proof (Nat.mod_upper_bound n 10) as B0.
  destruct (S n mod 10 =? 0)%nat eqn:He; cbn [length].
  - apply Nat.eqb_eq in He. lia.
  - apply Nat.eqb_neq in He. lia.
Qed.

Lemma filter_length_le {A} (p q : A -> bool) (l : list A) :
  (forall x, x ∈ l -> p x = true -> q x = true) ->
  length (List.filter p l) <= length (List.filter q l).
Proof.
  induction l as [|x l IH]; intros H; [reflexivity|]. simpl.
  assert (IH' : length (List.filter p l) <= length (List.filter q l)).
  { apply IH. intros y Hy. apply H. apply elem_of_cons; auto. }
  destruct (p x) eqn:Hp.
  - rewrite (H x) by (auto; apply elem_of_cons; auto). simpl. lia.
  - destruct (q x); simpl; lia.
Qed.

(** *** Runs *)

Section Runs.

Variable list_channel : str -> run_result.
Variable caption_tool :
  nat -> str -> str -> list (str * str) -> bool * list (str * str).
Variable strftime : nat -> str.
Variable fs_fault : nat -> fs_call -> option str.

Abbreviation run := (main list_channel caption_tool strftime fs_fault).

(** A run that no exception ends, after a successful enumeration. *)
Lemma main_ret a w0 out err :
  list_channel (channel_url a) = Completed 0 out err ->
  (forall e, fst (run a w0) <> Raised e) ->
  exists wF results,
    run a w0 = (Ret tt, wF)
    /\ results = retrievals caption_tool (tool_calls w0) (temp_dir_of a)
                            (parse_listing out) (scratch w0)
    /\ length results = length (parse_listing out)
    /\ archive wF
       = archive_header (display_name a) (length (parse_listing out))
                        (strftime (clock_reads w0)) (channel_url a)
         ++ sections_of (zip (parse_listing out) results)
    /\ files wF
       = <[ manifest_path a :=
              Json (make_manifest a (strftime (S (clock_reads w0)))
                      (parse_listing out)
                      (foldl record_outcome (RunState 0 0 [])
                             (zip (parse_listing out) results))) ]>
           (<[ combined_file a := Text (archive wF) ]>
              (individual_files (output_dir a)
                 (zip (parse_listing out) results)
                 (<[ combined_file a := Text [] ]> (files w0))))
    /\ tool_calls wF = tool_calls w0 + length (parse_listing out)
    /\ clock_reads wF = clock_reads w0 + 2
    /\ slept wF = slept w0 + 2 * pauses 1 (length (parse_listing out))
    /\ exists wR,
         dirs wR = {[ temp_dir_of a ]} ∪ ({[ output_dir a ]} ∪ dirs w0)
         /\ files wR
            = <[ combined_file a := Text (archive wF) ]>
                (individual_files (output_dir a)
                   (zip (parse_listing out) results)
                   (<[ combined_file a := Text [] ]> (files w0)))
         /\ scratch wR = scratch wF
         /\ ((dirs wF = dirs wR ∖ {[ temp_dir_of a ]}
              /\ scratch_is_empty (temp_dir_of a) wR = true
              /\ refusal fs_fault (fs_calls wR) (Rmdir (temp_dir_of a)) = None)
             \/ (dirs wF = dirs wR
                 /\ (scratch_is_empty (temp_dir_of a) wR = false
                     \/ refusal fs_fault (fs_calls wR) (Rmdir (temp_dir_of a))
                        <> None))).
Proof.
  intros Hlist Hnr.
  destruct (main_spec list_channel caption_tool strftime fs_fault a w0 out err
              Hlist)
    as (o & wF & results & Hrun & Hexit & _ & _ & _ & _ & _ & Hcase & Hret).
  assert (Ho : o = Ret tt).
  { destruct o as [[]|code|e]; [reflexivity| |].
    - exfalso. exact (Hexit code eq_refl).
    - exfalso. apply (Hnr e). rewrite Hrun. reflexivity. }
  subst o.
  destruct (Hret eq_refl) as (Hres & Hfiles & Htc & Hcl & Hsl & _ & HwR).
  exists wF, results. split; [exact Hrun|]. split; [exact Hres|].
  split; [rewrite Hres; apply length_retrievals|].
  split.
  { destruct Hcase as [(_ & _ & _ & e & He)|[Harch _]];
      [discriminate He|exact Harch]. }
  split; [exact Hfiles|]. split; [exact Htc|]. split; [exact Hcl|].
  split; [exact Hsl|exact HwR].
Qed.

(** ** Manifest consistency (C1) *)

(** C1. For a run over an enumerated list of pairwise distinct (id, title)
    pairs that no uncaught exception ends, the manifest written at the end
    satisfies [transcripts_downloaded + transcripts_failed = total_videos];
    the entries of its [videos] array are the enumerated videos in order;
    those with [has_transcript] true number [transcripts_downloaded] and
    the others [transcripts_failed]. *)
Theorem manifest_consistency (a : args) (w0 : world) (out err : str) :
  list_channel (channel_url a) = Completed 0 out err ->
  NoDup (parse_listing out) ->
  (forall e, fst (run a w0) <> Raised e) ->
  exists m,
    fst (run a w0) = Ret tt
    /\ files (snd (run a w0)) !! manifest_path a = Some (Json m)
    /\ total_videos m = length (parse_listing out)
    /\ transcripts_downloaded m + transcripts_failed m = total_videos m
    /\ map (fun e => (ve_id e, ve_title e)) (m_videos m) = parse_listing out
    /\ length (List.filter has_transcript (m_videos m))
       = transcripts_downloaded m
    /\ length (List.filter (fun e => negb (has_transcript e)) (m_videos m))
       = transcripts_failed m.
Proof.
  intros Hlist Hnd Hnr.
  destruct (main_ret a w0 out err Hlist Hnr)
    as (wF & results & Hrun & _ & Hlen & _ & Hfiles & _).
  set (videos := parse_listing out) in *.
  set (vrs := zip videos results) in *.
  assert (Hfst : map fst vrs = videos) by (apply fst_zip; lia).
  assert (Hvl : length vrs = length videos) by (rewrite <- Hfst, length_map; reflexivity).
  destruct (foldl_record_outcome vrs (RunState 0 0 [])) as (Hs & Hf & Hl).
  cbn [success_count fail_count failed_videos app Nat.add] in Hs, Hf, Hl.
  rewrite Hrun. cbn [fst snd]. rewrite Hfiles.
  eexists. split; [reflexivity|]. split; [apply lookup_insert_eq|].
  unfold make_manifest.
  cbn [total_videos transcripts_downloaded transcripts_failed m_videos].
  rewrite Hs, Hf, Hl.
  assert (Hflags :
    length (List.filter
              (fun v => bool_decide
                 (v ∉ map fst (List.filter (fun vr => negb (got vr)) vrs)))
              (map fst vrs))
    = length (List.filter got vrs)).
  { rewrite filter_map_length.
    rewrite flags_count by (rewrite Hfst; exact Hnd). reflexivity. }
  rewrite Hfst in Hflags.
  split; [reflexivity|].
  split; [rewrite filter_partition_length; exact Hvl|].
  split.
  { rewrite map_map. cbn [ve_id ve_title]. clear.
    induction videos as [|[i t] vs IH]; [reflexivity|]. simpl. f_equal. exact IH. }
  split.
  { rewrite filter_map_length. cbn [has_transcript]. exact Hflags. }
  rewrite filter_map_length. cbn [has_transcript].
  pose proof (filter_partition_length
                (fun v => bool_decide
                   (v ∉ map fst (List.filter (fun vr => negb (got vr)) vrs)))
                videos) as Hp.
  pose proof (filter_partition_length got vrs) as Hq.
  rewrite Hflags in Hp. lia.
Qed.

(** ** Fatal enumeration failure (C5) *)

(** C5. When the listing tool exits with a non-zero status, the process
    ends through [sys.exit(1)], the raw error text of the tool is printed
    on the error stream, and no directory, file or archive text has been
    created or changed. *)
Theorem enumeration_failure_fatal (a : args) (w0 : world) (rc : Z)
    (out err : str) :
  list_channel (channel_url a) = Completed rc out err ->
  rc <> 0%Z ->
  fst (run a w0) = Exit 1
  /\ exit_status (fst (run a w0)) <> 0%Z
  /\ stderr (snd (run a w0))
     = stderr w0 ++ ("[ERROR] Failed to list channel videos:" ++ nl ++ err) ++ nl
  /\ dirs (snd (run a w0)) = dirs w0
  /\ files (snd (run a w0)) = files w0
  /\ archive (snd (run a w0)) = archive w0
  /\ scratch (snd (run a w0)) = scratch w0.
Proof.
  intros Hlist Hrc.
  unfold main, get_all_videos. rewrite Hlist.
  apply Z.eqb_neq in Hrc. rewrite Hrc. cbn [negb].
  unfold bind, print, eprint, sys_exit, modify. cbn [fst snd exit_status].
  world_simpl. repeat split; try reflexivity. discriminate.
Qed.

(** ** Empty transcripts count as failures (C10) *)

(** C10. When the tool exits in time, a caption file is located, the
    retriever is not ended by an exception and the normalization of the
    text read is empty, the retriever returns that empty text and the loop
    body takes the failure branch: the failure count grows by one, the
    video joins the failed list, the success count, the files and the
    archive stay as they were; the loop variables end as they do when the
    retriever returns [None]. *)
Theorem empty_transcript_is_failure (total idx : nat)
    (out_dir temp_dir video_id title name : str) (d : list (str * str))
    (st : run_state) (w : world) :
  caption_tool (tool_calls w) video_id temp_dir (scratch w) = (false, d) ->
  find_vtt video_id d = Some name ->
  clean_vtt (read_scratch name d) = [] ->
  (forall e, fst (download_subtitle caption_tool fs_fault video_id temp_dir w)
             <> Raised e) ->
  fst (download_subtitle caption_tool fs_fault video_id temp_dir w)
  = Ret (Some [])
  /\ exists w',
       process_video caption_tool fs_fault total out_dir temp_dir st
                     (idx, (video_id, title)) w
       = (Ret (RunState (success_count st) (S (fail_count st))
                        (failed_videos st ++ [(video_id, title)])), w')
       /\ files w' = files w
       /\ archive w' = archive w
       /\ record_outcome st ((video_id, title), Some [])
          = record_outcome st ((video_id, title), None).
Proof.
  intros Htool Hfind Hclean Hnr.
  assert (Hd : fst (download_subtitle caption_tool fs_fault video_id temp_dir w)
               = Ret (Some [])).
  { destruct (download_subtitle_spec caption_tool fs_fault video_id temp_dir w
                false d Htool)
      as (o & w' & Hrun & _ & _ & _ & Hexit & _ & _ & _ & _ & _ & _ & Hret).
    rewrite Hrun in Hnr |- *. cbn [fst] in Hnr |- *.
    destruct o as [r|code|e].
    - specialize (Hret r eq_refl). unfold retrieve in Hret.
      rewrite Htool, Hfind, Hclean in Hret. injection Hret as -> _.
      reflexivity.
    - exfalso. exact (Hexit code eq_refl).
    - exfalso. exact (Hnr e eq_refl). }
  split; [exact Hd|].
  unfold process_video. cbn [fst snd].
  set (pause := (idx mod 10 =? 0)%nat). clearbody pause.
  rewrite bind_print.
  set (w1 := with_stdout _ w).
  assert (Hag : agree w1 w) by (repeat split; reflexivity).
  assert (H1 : files w1 = files w /\ archive w1 = archive w
               /\ tool_calls w1 = tool_calls w /\ scratch w1 = scratch w)
    by (repeat split; reflexivity).
  destruct H1 as (Hf1 & Ha1 & Ht1 & Hs1). clearbody w1.
  destruct (download_subtitle_respects caption_tool fs_fault video_id temp_dir
              w1 w Hag) as [Hsame _].
  rewrite Hd in Hsame.
  assert (Htool1 : caption_tool (tool_calls w1) video_id temp_dir (scratch w1)
                   = (false, d)) by (rewrite Ht1, Hs1; exact Htool).
  destruct (download_subtitle_spec caption_tool fs_fault video_id temp_dir w1
              false d Htool1)
    as (o & w2 & Hrun & (_ & Hf2 & Ha2 & _) & _).
  rewrite Hrun in Hsame. cbn [fst] in Hsame. subst o.
  rewrite (bind_eqn _ _ _ _ _ Hrun).
  repeat step.
  destruct pause; unfold sleep; repeat step; unfold ret;
    (eexists; split; [reflexivity|]); world_simpl;
    (split; [congruence|]); (split; [congruence|]); reflexivity.
Qed.

(** ** Exit status, calls and pauses *)


(** X17. When the listing tool is cut off by its timeout, the exception
    is not caught: the run ends on it with a non-zero status before any
    directory, file or archive text is created. *)
Theorem main_listing_timeout (a : args) (w0 : world) :
  list_channel (channel_url a) = TimeoutExpired ->
  fst (run a w0) = Raised "TimeoutExpired"
  /\ exit_status (fst (run a w0)) <> 0%Z
  /\ dirs (snd (run a w0)) = dirs w0
  /\ files (snd (run a w0)) = files w0
  /\ archive (snd (run a w0)) = archive w0
  /\ scratch (snd (run a w0)) = scratch w0
  /\ tool_calls (snd (run a w0)) = tool_calls w0.
Proof.
  intros Hlist. unfold main, get_all_videos. rewrite Hlist.
  unfold bind, print, raise, modify. cbn [fst snd exit_status]. world_simpl.
  repeat split; try reflexivity. discriminate.
Qed.

(** X18. There is no retry: a run invokes the caption tool at most once
    per enumerated video and reads the clock at most twice; a run that no
    exception ends invokes the tool exactly once per video, whatever the
    outcomes, and reads the clock exactly twice. *)
Theorem main_single_attempt (a : args) (w0 : world) (out err : str) :
  list_channel (channel_url a) = Completed 0 out err ->
  tool_calls (snd (run a w0)) <= tool_calls w0 + length (parse_listing out)
  /\ clock_reads (snd (run a w0)) <= clock_reads w0 + 2
  /\ ((forall e, fst (run a w0) <> Raised e) ->
      tool_calls (snd (run a w0)) = tool_calls w0 + length (parse_listing out)
      /\ clock_reads (snd (run a w0)) = clock_reads w0 + 2).
Proof.
  intros Hlist.
  destruct (main_spec list_channel caption_tool strftime fs_fault a w0 out err
              Hlist)
    as (o & wF & results & Hrun & Hexit & _ & _ & Htc & Hcl & _ & _ & Hret).
  rewrite Hrun. cbn [fst snd].
  split; [exact Htc|]. split; [exact Hcl|].
  intros Hnr.
  destruct o as [[]|code|e].
  - destruct (Hret eq_refl) as (_ & _ & Ht & Hc & _). split; assumption.
  - exfalso. exact (Hexit code eq_refl).
  - exfalso. exact (Hnr e eq_refl).
Qed.

(** X19. A run over [n] videos that no exception ends pauses after every
    tenth video: it sleeps 2 seconds [n / 10] times. *)
Theorem main_pacing (a : args) (w0 : world) (out err : str) :
  list_channel (channel_url a) = Completed 0 out err ->
  (forall e, fst (run a w0) <> Raised e) ->
  slept (snd (run a w0)) = slept w0 + 2 * (length (parse_listing out) / 10).
Proof.
  intros Hlist Hnr.
  destruct (main_ret a w0 out err Hlist Hnr)
    as (wF & results & Hrun & _ & _ & _ & _ & _ & _ & Hs & _).
  rewrite Hrun. cbn [snd]. rewrite Hs, pauses_from_one. reflexivity.
Qed.


(** X21. For any enumeration, repeated videos included, the counts of the
    manifest a run writes add up to the total, and the entries flagged
    [has_transcript] never outnumber the transcripts downloaded. *)
Theorem manifest_counts_any_listing (a : args) (w0 : world) (out err : str) :
  list_channel (channel_url a) = Completed 0 out err ->
  (forall e, fst (run a w0) <> Raised e) ->
  exists m,
    files (snd (run a w0)) !! manifest_path a = Some (Json m)
    /\ total_videos m = length (parse_listing out)
    /\ transcripts_downloaded m + transcripts_failed m = total_videos m
    /\ length (List.filter has_transcript (m_videos m))
       <= transcripts_downloaded m.
Proof.
  intros Hlist Hnr.
  destruct (main_ret a w0 out err Hlist Hnr)
    as (wF & results & Hrun & _ & Hlen & _ & Hfiles & _).
  set (videos := parse_listing out) in *.
  set (vrs := zip videos results) in *.
  assert (Hfst : map fst vrs = videos) by (apply fst_zip; lia).
  assert (Hvl : length vrs = length videos)
    by (rewrite <- Hfst, length_map; reflexivity).
  destruct (foldl_record_outcome vrs (RunState 0 0 [])) as (Hs & Hf & Hl).
  cbn [success_count fail_count failed_videos app Nat.add] in Hs, Hf, Hl.
  rewrite Hrun. cbn [snd]. rewrite Hfiles.
  eexists. split; [apply lookup_insert_eq|].
  unfold make_manifest.
  cbn [total_videos transcripts_downloaded transcripts_failed m_videos].
  rewrite Hs, Hf, Hl.
  split; [reflexivity|].
  split; [rewrite filter_partition_length; exact Hvl|].
  rewrite filter_map_length. cbn [has_transcript].
  rewrite <- Hfst, filter_map_length.
  apply filter_length_le. intros vr Hvr Hflag.
  apply bool_decide_eq_true in Hflag.
  destruct (got vr) eqn:Hg; [reflexivity|]. exfalso. apply Hflag.
  apply list_elem_of_fmap. exists vr. split; [reflexivity|].
  apply list_elem_of_In, filter_In. split; [apply list_elem_of_In, Hvr|].
  rewrite Hg. reflexivity.
Qed.

End Runs.

Lemma manifest_consistency_witness :
  exists m,
    fst scenario_B_run = Ret tt
    /\ files (snd scenario_B_run) !! manifest_path (default_args scenario_B_url)
       = Some (Json m)
    /\ total_videos m = length (parse_listing scenario_B_stdout)
    /\ transcripts_downloaded m + transcripts_failed m = total_videos m
    /\ map (fun e => (ve_id e, ve_title e)) (m_videos m)
       = parse_listing scenario_B_stdout
    /\ length (List.filter has_transcript (m_videos m))
       = transcripts_downloaded m
    /\ length (List.filter (fun e => negb (has_transcript e)) (m_videos m))
       = transcripts_failed m.
Proof.
  apply (manifest_consistency scenario_B_listing scenario_B_tool
           scenario_B_clock no_fault (default_args scenario_B_url) empty_world
           scenario_B_stdout []).
  - reflexivity.
  - apply (bool_decide_unpack _). vm_compute. exact I.
  - intros e. vm_compute. discriminate.
Defined.

Lemma enumeration_failure_fatal_witness :
  let res := main failing_listing scenario_B_tool scenario_B_clock no_fault
                  (default_args scenario_B_url) empty_world in
  fst res = Exit 1
  /\ exit_status (fst res) <> 0%Z
  /\ stderr (snd res)
     = stderr empty_world
       ++ ("[ERROR] Failed to list channel videos:" ++ nl
           ++ "ERROR: unable to download") ++ nl
  /\ dirs (snd res) = dirs empty_world
  /\ files (snd res) = files empty_world
  /\ archive (snd res) = archive empty_world
  /\ scratch (snd res) = scratch empty_world.
Proof.
  apply (enumeration_failure_fatal failing_listing scenario_B_tool
           scenario_B_clock no_fault (default_args scenario_B_url) empty_world
           1%Z [] "ERROR: unable to download").
  - reflexivity.
  - discriminate.
Defined.

Lemma empty_transcript_is_failure_witness :
  fst (download_subtitle header_only_tool no_fault "video1" "transcripts/.tmp"
                         empty_world) = Ret (Some [])
  /\ exists w',
       process_video header_only_tool no_fault 1 "transcripts"
                     "transcripts/.tmp"
                     (RunState 0 0 []) (1, ("video1" : str, "One" : str))
                     empty_world
       = (Ret (RunState 0 1 [("video1" : str, "One" : str)]), w')
       /\ files w' = files empty_world
       /\ archive w' = archive empty_world
       /\ record_outcome (RunState 0 0 [])
                         (("video1" : str, "One" : str), Some [])
          = record_outcome (RunState 0 0 [])
                           (("video1" : str, "One" : str), None).
Proof.
  apply (empty_transcript_is_failure header_only_tool no_fault 1 1 "transcripts"
           "transcripts/.tmp" "video1" "One" "video1.en.vtt"
           [("video1.en.vtt" : str, header_only_input)]
           (RunState 0 0 []) empty_world).
  - reflexivity.
  - vm_compute. reflexivity.
  - vm_compute. reflexivity.
  - intros e. vm_compute. discriminate.
Defined.

(** ** Archive sections (C6) *)




(** ** Scratch clean-up (C4) *)

(** The path that locates a caption file and is not ended by an exception
    removes every scratch entry whose name starts with the video id. *)
Lemma download_subtitle_success_cleans caption_tool fs_fault video_id temp_dir
    w d name :
  caption_tool (tool_calls w) video_id temp_dir (scratch w) = (false, d) ->
  find_vtt video_id d = Some name ->
  (forall e, fst (download_subtitle caption_tool fs_fault video_id temp_dir w)
             <> Raised e) ->
  scratch (snd (download_subtitle caption_tool fs_fault video_id temp_dir w))
  = remove_prefixed video_id d
  /\ forall f, f ∈ listdir (scratch (snd (download_subtitle caption_tool
                                            fs_fault video_id temp_dir w))) ->
               Str.startswith f video_id = false.
Proof.
  intros Htool Hfind Hnr.
  assert (Hs : scratch (snd (download_subtitle caption_tool fs_fault video_id
                               temp_dir w))
               = remove_prefixed video_id d).
  { destruct (download_subtitle_spec caption_tool fs_fault video_id temp_dir w
                false d Htool)
      as (o & w' & Hrun & _ & _ & _ & Hexit & _ & _ & _ & _ & _ & _ & Hret).
    rewrite Hrun in Hnr |- *. cbn [fst snd] in Hnr |- *.
    destruct o as [r|code|e].
    - specialize (Hret r eq_refl). unfold retrieve in Hret.
      rewrite Htool, Hfind in Hret. injection Hret as _ ->. reflexivity.
    - exfalso. exact (Hexit code eq_refl).
    - exfalso. exact (Hnr e eq_refl). }
  split; [exact Hs|]. rewrite Hs. intros f Hf.
  unfold listdir, remove_prefixed in Hf.
  apply list_elem_of_fmap in Hf as (e & -> & He).
  apply list_elem_of_In, filter_In in He as [_ He].
  apply negb_true_iff, He.
Qed.

(** C4 fails on the two early returns of the retriever.  Cut off by the
    timeout after the tool has started a file, or finding no [.vtt] file
    among what the tool wrote, the retriever returns [None] and leaves in
    the scratch directory every file whose name starts with the video id
    (the file system refuses nothing here). *)
Theorem download_subtitle_early_return_leaves_files :
  (fst (download_subtitle partial_tool no_fault "video1" "transcripts/.tmp"
                          empty_world)
   = Ret None
   /\ scratch (snd (download_subtitle partial_tool no_fault "video1"
                                      "transcripts/.tmp" empty_world))
      = [("video1.en.vtt.part" : str, "WEBVTT" : str)])
  /\ (fst (download_subtitle other_format_tool no_fault "video1"
                             "transcripts/.tmp" empty_world)
      = Ret None
      /\ scratch (snd (download_subtitle other_format_tool no_fault "video1"
                                         "transcripts/.tmp" empty_world))
         = [("video1.en.ttml" : str, "<tt></tt>" : str)]).
Proof. vm_compute. repeat split; reflexivity. Qed.

(** * Further properties of the retriever *)

Lemma stored_text_listed name (d : list (str * str)) :
  name ∈ listdir d -> (name, stored_text name d) ∈ d.
Proof.
  unfold stored_text, listdir. intros H.
  apply list_elem_of_fmap in H as (e & -> & He).
  destruct (List.find _ d) as [e'|] eqn:Hf.
  - apply find_some in Hf as [Hin Heq]. apply bool_decide_eq_true in Heq.
    rewrite <- Heq. destruct e'. apply list_elem_of_In, Hin.
  - exfalso. apply list_elem_of_In in He.
    pose proof (find_none _ _ Hf e He) as Hn. simpl in Hn.
    apply bool_decide_eq_false in Hn. congruence.
Qed.

Lemma prefix_same_length (s a b : str) :
  Str.startswith s a = true -> Str.startswith s b = true ->
  length a = length b -> a = b.
Proof.
  intros Ha Hb Hl. apply startswith_spec in Ha as [x Hx].
  apply startswith_spec in Hb as [y Hy]. rewrite Hx in Hy.
  apply app_inj_1 in Hy as [H _]; auto.
Qed.

Section RetrieverCalls.

Variable caption_tool :
  nat -> str -> str -> list (str * str) -> bool * list (str * str).
Variable fs_fault : nat -> fs_call -> option str.

(** X13. What the retriever returns when it returns, in terms of what the
    tool did: [None] exactly when the tool was cut off by the timeout or
    left no file that starts with the video id and ends in [.vtt];
    otherwise the normalization of the text of a file the tool left under
    such a name, as text mode reads it: with every carriage return and
    line feed pair, and every lone carriage return, turned into a line
    feed. *)
Theorem download_subtitle_result (video_id temp_dir : str) (w : world)
    (timed_out : bool) (d : list (str * str)) (r : option str) :
  caption_tool (tool_calls w) video_id temp_dir (scratch w) = (timed_out, d) ->
  fst (download_subtitle caption_tool fs_fault video_id temp_dir w) = Ret r ->
  (r = None <->
   timed_out = true
   \/ forall f, f ∈ listdir d ->
                Str.startswith f video_id && Str.endswith f ".vtt" = false)
  /\ (forall t, r = Some t ->
        exists name content,
          (name, content) ∈ d
          /\ Str.startswith name video_id = true
          /\ Str.endswith name ".vtt" = true
          /\ t = clean_vtt (universal_newlines content)).
Proof.
  intros Htool Hr.
  destruct (download_subtitle_spec caption_tool fs_fault video_id temp_dir w
              timed_out d Htool)
    as (o & w' & Hrun & _ & _ & _ & _ & _ & _ & _ & _ & _ & _ & Hret).
  rewrite Hrun in Hr. cbn [fst] in Hr. subst o.
  specialize (Hret r eq_refl). unfold retrieve in Hret. rewrite Htool in Hret.
  pose proof (find_vtt_some video_id d) as Hsound.
  pose proof (find_vtt_none video_id d) as Hnone.
  destruct timed_out.
  - injection Hret as -> _. split; [tauto|discriminate].
  - destruct (find_vtt video_id d) as [name|] eqn:Hf.
    + injection Hret as -> _. split.
      * split; [discriminate|]. intros [Ht|Hall]; [discriminate|]. exfalso.
        destruct (Hsound name eq_refl) as (Hin & Hs & He).
        specialize (Hall name Hin). rewrite Hs, He in Hall. discriminate.
      * intros t [= <-]. destruct (Hsound name eq_refl) as (Hin & Hs & He).
        exists name, (stored_text name d).
        split; [apply stored_text_listed, Hin|auto].
    + injection Hret as -> _. split; [|discriminate].
      split; [|reflexivity]. intros _. right. apply Hnone. reflexivity.
Qed.


(** X15. When a caption file is located and no exception ends the call,
    the scratch directory is left with exactly the entries whose name does
    not start with the video id; and however the call ends, the files
    named after another id of the same length all stay. *)
Theorem download_subtitle_cleanup (video_id temp_dir name : str) (w : world)
    (d : list (str * str)) :
  caption_tool (tool_calls w) video_id temp_dir (scratch w) = (false, d) ->
  find_vtt video_id d = Some name ->
  ((forall e, fst (download_subtitle caption_tool fs_fault video_id temp_dir w)
              <> Raised e) ->
   forall e,
     e ∈ scratch (snd (download_subtitle caption_tool fs_fault video_id
                         temp_dir w))
     <-> e ∈ d /\ Str.startswith (fst e) video_id = false)
  /\ (forall other e,
        length other = length video_id -> other <> video_id ->
        e ∈ d -> Str.startswith (fst e) other = true ->
        e ∈ scratch (snd (download_subtitle caption_tool fs_fault video_id
                            temp_dir w))).
Proof.
  intros Htool Hfind.
  destruct (download_subtitle_spec caption_tool fs_fault video_id temp_dir w
              false d Htool)
    as (o & w' & Hrun & _ & _ & _ & Hexit & _ & _ & _ & _ & _ & Hkeep & Hret).
  rewrite Hrun. cbn [fst snd].
  split.
  - intros Hnr e. destruct o as [r|code|x].
    + specialize (Hret r eq_refl). unfold retrieve in Hret.
      rewrite Htool, Hfind in Hret. injection Hret as _ ->.
      unfold remove_prefixed.
      rewrite !list_elem_of_In, filter_In, negb_true_iff. reflexivity.
    + exfalso. exact (Hexit code eq_refl).
    + exfalso. exact (Hnr x eq_refl).
  - intros other e Hlen Hne He Hpre. apply Hkeep; [exact He|].
    destruct (Str.startswith (fst e) video_id) eqn:Hv; [|reflexivity].
    exfalso. apply Hne. eapply prefix_same_length; eauto.
Qed.

End RetrieverCalls.

Lemma download_subtitle_result_witness :
  (Some ("Hello World Again" : str) = None <->
   false = true
   \/ forall f, f ∈ listdir [("video1.en.vtt" : str, cr_input)] ->
                Str.startswith f "video1" && Str.endswith f ".vtt" = false)
  /\ (forall t, Some ("Hello World Again" : str) = Some t ->
        exists name content,
          (name, content) ∈ [("video1.en.vtt" : str, cr_input)]
          /\ Str.startswith name "video1" = true
          /\ Str.endswith name ".vtt" = true
          /\ t = clean_vtt (universal_newlines content)).
Proof.
  apply (download_subtitle_result cr_tool no_fault "video1" "transcripts/.tmp"
           empty_world false [("video1.en.vtt" : str, cr_input)]
           (Some ("Hello World Again" : str))).
  - reflexivity.
  - vm_compute. reflexivity.
Defined.


Lemma download_subtitle_cleanup_witness :
  (forall e,
      e ∈ scratch (snd (download_subtitle scenario_B_tool no_fault "video1"
                          "transcripts/.tmp"
                          (with_scratch [("video2.en.ttml" : str, ("x" : str))]
                                        empty_world)))
      <-> e ∈ [("video2.en.ttml" : str, ("x" : str));
               ("video1.en.vtt" : str, scenario_A_input)]
          /\ Str.startswith (fst e) "video1" = false)
  /\ (forall other e,
        length other = length ("video1" : str) -> other <> ("video1" : str) ->
        e ∈ [("video2.en.ttml" : str, ("x" : str));
             ("video1.en.vtt" : str, scenario_A_input)] ->
        Str.startswith (fst e) other = true ->
        e ∈ scratch (snd (download_subtitle scenario_B_tool no_fault "video1"
                            "transcripts/.tmp"
                            (with_scratch [("video2.en.ttml" : str, ("x" : str))]
                                          empty_world)))).
Proof.
  destruct (download_subtitle_cleanup scenario_B_tool no_fault "video1"
              "transcripts/.tmp" "video1.en.vtt"
              (with_scratch [("video2.en.ttml" : str, ("x" : str))] empty_world)
              [("video2.en.ttml" : str, ("x" : str));
               ("video1.en.vtt" : str, scenario_A_input)])
    as [Hclean Hkeep].
  - reflexivity.
  - vm_compute. reflexivity.
  - split; [|exact Hkeep]. apply Hclean. intros e. vm_compute. discriminate.
Defined.

(** Witnesses of the properties of runs. *)


Lemma main_listing_timeout_witness :
  let res := main timeout_listing scenario_B_tool scenario_B_clock no_fault
                  (default_args scenario_B_url) empty_world in
  fst res = Raised "TimeoutExpired"
  /\ exit_status (fst res) <> 0%Z
  /\ dirs (snd res) = dirs empty_world
  /\ files (snd res) = files empty_world
  /\ archive (snd res) = archive empty_world
  /\ scratch (snd res) = scratch empty_world
  /\ tool_calls (snd res) = tool_calls empty_world.
Proof.
  apply (main_listing_timeout timeout_listing scenario_B_tool scenario_B_clock
           no_fault (default_args scenario_B_url) empty_world).
  reflexivity.
Defined.

Lemma main_single_attempt_witness :
  tool_calls (snd scenario_B_run)
  = tool_calls empty_world + length (parse_listing scenario_B_stdout)
  /\ clock_reads (snd scenario_B_run) = clock_reads empty_world + 2.
Proof.
  apply (main_single_attempt scenario_B_listing scenario_B_tool
           scenario_B_clock no_fault (default_args scenario_B_url) empty_world
           scenario_B_stdout []).
  - reflexivity.
  - intros e. vm_compute. discriminate.
Defined.

Lemma main_pacing_witness :
  slept (snd scenario_B_run)
  = slept empty_world + 2 * (length (parse_listing scenario_B_stdout) / 10).
Proof.
  apply (main_pacing scenario_B_listing scenario_B_tool
           scenario_B_clock no_fault (default_args scenario_B_url) empty_world
           scenario_B_stdout []).
  - reflexivity.
  - intros e. vm_compute. discriminate.
Defined.


Lemma manifest_counts_any_listing_witness :
  exists m,
    files (snd scenario_B_run) !! manifest_path (default_args scenario_B_url)
    = Some (Json m)
    /\ total_videos m = length (parse_listing scenario_B_stdout)
    /\ transcripts_downloaded m + transcripts_failed m = total_videos m
    /\ length (List.filter has_transcript (m_videos m))
       <= transcripts_downloaded m.
Proof.
  apply (manifest_counts_any_listing scenario_B_listing scenario_B_tool
           scenario_B_clock no_fault (default_args scenario_B_url) empty_world
           scenario_B_stdout []).
  - reflexivity.
  - intros e. vm_compute. discriminate.
Defined.
(** * Paths and names *)

Lemma sanitize_filename_chars title c :
  c ∈ sanitize_filename title -> c ∉ forbidden_chars.
Proof.
  unfold sanitize_filename.
  destruct (Str.strip_chars ". " (Re.sub (Re.char_class forbidden_chars) title))
    as [|a safe] eqn:Hsafe.
  - intros Hin Hc. apply among_elem_of in Hc.
    change (c ∈ ["u"; "n"; "t"; "i"; "t"; "l"; "e"; "d"]%char) in Hin.
    repeat (apply elem_of_cons in Hin as [->|Hin];
            [vm_compute in Hc; discriminate Hc|]).
    inversion Hin.
  - intros Hin. unfold Str.slice_to in Hin.
    assert (Hin' : c ∈ a :: safe) by (eapply elem_of_firstn; eauto).
    rewrite <- Hsafe in Hin'. apply elem_of_strip_by in Hin'.
    apply sub_char_class in Hin'. exact Hin'.
Qed.

Lemma first_split_unique (x : ascii) (a a' b b' : str) :
  a ++ x :: b = a' ++ x :: b' -> x ∉ a -> x ∉ a' -> a = a'.
Proof.
  revert a'. induction a as [|c a IH]; intros [|c' a'] H Ha Ha'.
  - reflexivity.
  - exfalso. simpl in H. injection H as <- _. apply Ha', elem_of_cons. auto.
  - exfalso. simpl in H. injection H as -> _. apply Ha, elem_of_cons. auto.
  - simpl in H. injection H as -> H. f_equal. apply (IH a' H).
    + intros Hin. apply Ha, elem_of_cons. auto.
    + intros Hin. apply Ha', elem_of_cons. auto.
Qed.

Lemma file_name_relative title (rest : str) :
  Str.startswith (sanitize_filename title ++ rest) "/" = false.
Proof.
  pose proof (sanitize_filename_head title) as Hh.
  destruct (sanitize_filename title) as [|c s] eqn:Hs; [discriminate|].
  change ((c :: s) ++ rest) with (c :: (s ++ rest)).
  change ("/" : str) with [SLASH]. rewrite startswith_cons.
  destruct (Char.eqb SLASH c) eqn:He; [|reflexivity]. exfalso.
  apply char_eqb_eq in He. subst c.
  apply (sanitize_filename_chars title SLASH).
  - rewrite Hs. apply elem_of_cons. auto.
  - apply among_elem_of. reflexivity.
Qed.

Lemma path_join_relative_inj (out_dir n1 n2 : str) :
  Str.startswith n1 "/" = false -> Str.startswith n2 "/" = false ->
  path_join out_dir n1 = path_join out_dir n2 -> n1 = n2.
Proof.
  unfold path_join. intros -> ->. destruct out_dir as [|c o]; [auto|].
  destruct (Str.endswith (c :: o) "/"); intros H.
  - apply app_inv_head in H. exact H.
  - apply app_inv_head in H. apply app_inv_head in H. exact H.
Qed.

Lemma file_name_inj (id1 s1 id2 s2 : str) :
  LBRACKET ∉ id1 -> LBRACKET ∉ id2 ->
  s1 ++ " [" ++ id1 ++ "].txt" = s2 ++ " [" ++ id2 ++ "].txt" ->
  id1 = id2 /\ s1 = s2.
Proof.
  intros H1 H2 Hp.
  assert (Hrev : rev id1 ++ LBRACKET :: " "%char :: rev s1
                 = rev id2 ++ LBRACKET :: " "%char :: rev s2).
  { apply (f_equal (@rev ascii)) in Hp.
    rewrite !rev_app_distr, <- !app_assoc in Hp.
    apply app_inv_head in Hp. exact Hp. }
  assert (Hid : rev id1 = rev id2).
  { apply (first_split_unique _ _ _ _ _ Hrev).
    - intros Hin. apply H1, elem_of_rev, Hin.
    - intros Hin. apply H2, elem_of_rev, Hin. }
  rewrite Hid in Hrev. apply app_inv_head in Hrev. injection Hrev as Hs.
  split.
  - rewrite <- (rev_involutive id1), Hid. apply rev_involutive.
  - rewrite <- (rev_involutive s1), Hs. apply rev_involutive.
Qed.

(** X22. The path of an individual file determines the video id: two
    videos whose ids differ (and hold no opening bracket) never share a
    file, whatever their titles. *)
Theorem individual_path_injective (out_dir id1 title1 id2 title2 : str) :
  LBRACKET ∉ id1 -> LBRACKET ∉ id2 ->
  individual_path out_dir id1 title1 = individual_path out_dir id2 title2 ->
  id1 = id2 /\ sanitize_filename title1 = sanitize_filename title2.
Proof.
  intros H1 H2 Hp. unfold individual_path in Hp.
  apply path_join_relative_inj in Hp; try apply file_name_relative.
  exact (file_name_inj _ _ _ _ H1 H2 Hp).
Qed.

Lemma individual_path_injective_witness :
  ("video1" : str) = "video1"
  /\ sanitize_filename "A/B" = sanitize_filename "AB".
Proof.
  apply (individual_path_injective "transcripts" "video1" "A/B" "video1" "AB").
  - intros Hin. repeat (apply elem_of_cons in Hin as [Hin|Hin];
                        [discriminate Hin|]). inversion Hin.
  - intros Hin. repeat (apply elem_of_cons in Hin as [Hin|Hin];
                        [discriminate Hin|]). inversion Hin.
  - vm_compute. reflexivity.
Defined.

Lemma not_elem_forallb sep (s : str) :
  sep ∉ s -> forallb (fun c => negb (Char.eqb c sep)) s = true.
Proof.
  intros H. apply forallb_elem_of. intros c Hc. apply negb_true_iff.
  destruct (Char.eqb c sep) eqn:He; [|reflexivity].
  apply char_eqb_eq in He. subst. contradiction.
Qed.

Lemma split_nonempty sep (s : str) : Str.split sep s <> [].
Proof.
  destruct s as [|c s]; simpl; [discriminate|].
  destruct (Char.eqb c sep); [discriminate|].
  destruct (Str.split sep s); discriminate.
Qed.

Lemma last_app_nonempty {A} (l l' : list A) d :
  l' <> [] -> List.last (l ++ l') d = List.last l' d.
Proof.
  intros H. induction l as [|x l IH]; [reflexivity|].
  simpl. destruct (l ++ l') eqn:Hl; [|exact IH].
  apply app_eq_nil in Hl as [_ Hl]. contradiction.
Qed.

(** X23. The name shown in the headers: a non-empty [--channel-name] is
    used as given; without one (or with an empty one) the name is the
    handle of the URL, the text between the last [@] and the next [/]. *)
Theorem display_name_from_url (pre handle rest out_dir comb name : str) :
  AT ∉ handle -> SLASH ∉ handle -> AT ∉ rest ->
  display_name (Args (pre ++ AT :: handle ++ SLASH :: rest) out_dir comb None)
  = handle
  /\ display_name (Args (pre ++ AT :: handle ++ SLASH :: rest) out_dir comb
                        (Some []))
     = handle
  /\ (name <> [] ->
      display_name (Args (pre ++ AT :: handle ++ SLASH :: rest) out_dir comb
                         (Some name))
      = name).
Proof.
  intros Hat Hsl Hrest.
  assert (Hurl : hd [] (Str.split "/"
                   (List.last (Str.split "@" (pre ++ AT :: handle ++ SLASH :: rest)) []))
                 = handle).
  { change "@"%char with AT. change "/"%char with SLASH.
    rewrite (split_app_sep AT pre), last_app_nonempty by apply split_nonempty.
    rewrite (split_no_sep AT (handle ++ SLASH :: rest)).
    - cbn [List.last]. rewrite (split_app_sep SLASH handle rest).
      rewrite (split_no_sep SLASH handle) by (apply not_elem_forallb, Hsl).
      reflexivity.
    - apply not_elem_forallb. intros Hin.
      apply elem_of_app in Hin as [Hin|Hin]; [auto|].
      apply elem_of_cons in Hin as [Hin|Hin]; [discriminate|auto]. }
  unfold display_name. cbn [channel_name channel_url].
  split; [exact Hurl|]. split; [exact Hurl|].
  intros Hne. destruct name; [congruence|reflexivity].
Qed.

Lemma display_name_from_url_witness :
  display_name (Args ("https://www.youtube.com/" ++ AT :: "AlexHormozi"
                      ++ SLASH :: "videos")
                     "transcripts" "all_transcripts.txt" None)
  = "AlexHormozi"
  /\ display_name (Args ("https://www.youtube.com/" ++ AT :: "AlexHormozi"
                         ++ SLASH :: "videos")
                        "transcripts" "all_transcripts.txt" (Some []))
     = "AlexHormozi"
  /\ (("Alex Hormozi" : str) <> [] ->
      display_name (Args ("https://www.youtube.com/" ++ AT :: "AlexHormozi"
                          ++ SLASH :: "videos")
                         "transcripts" "all_transcripts.txt"
                         (Some ("Alex Hormozi" : str)))
      = "Alex Hormozi").
Proof.
  apply (display_name_from_url "https://www.youtube.com/" "AlexHormozi"
           "videos" "transcripts" "all_transcripts.txt" "Alex Hormozi").
  - intros Hin. repeat (apply elem_of_cons in Hin as [Hin|Hin];
                        [discriminate Hin|]). inversion Hin.
  - intros Hin. repeat (apply elem_of_cons in Hin as [Hin|Hin];
                        [discriminate Hin|]). inversion Hin.
  - intros Hin. repeat (apply elem_of_cons in Hin as [Hin|Hin];
                        [discriminate Hin|]). inversion Hin.
Defined.

(** X24. A URL without [@] gives as name the text before its first [/]. *)
Theorem display_name_without_handle (scheme rest out_dir comb : str) :
  AT ∉ scheme -> AT ∉ rest -> SLASH ∉ scheme ->
  display_name (Args (scheme ++ SLASH :: rest) out_dir comb None) = scheme.
Proof.
  intros Hs Hr Hsl. unfold display_name. cbn [channel_name channel_url].
  change "@"%char with AT. change "/"%char with SLASH.
  rewrite (split_no_sep AT (scheme ++ SLASH :: rest)).
  - cbn [List.last]. rewrite (split_app_sep SLASH scheme rest).
    rewrite (split_no_sep SLASH scheme) by (apply not_elem_forallb, Hsl).
    reflexivity.
  - apply not_elem_forallb. intros Hin.
    apply elem_of_app in Hin as [Hin|Hin]; [auto|].
    apply elem_of_cons in Hin as [Hin|Hin]; [discriminate|auto].
Qed.

Lemma display_name_without_handle_witness :
  display_name (Args ("https:" ++ SLASH :: "/www.youtube.com/channel/UC123")
                     "transcripts" "all_transcripts.txt" None)
  = "https:".
Proof.
  apply (display_name_without_handle "https:" "/www.youtube.com/channel/UC123"
           "transcripts" "all_transcripts.txt").
  - intros Hin. repeat (apply elem_of_cons in Hin as [Hin|Hin];
                        [discriminate Hin|]). inversion Hin.
  - intros Hin. repeat (apply elem_of_cons in Hin as [Hin|Hin];
                        [discriminate Hin|]). inversion Hin.
  - intros Hin. repeat (apply elem_of_cons in Hin as [Hin|Hin];
                        [discriminate Hin|]). inversion Hin.
Defined.

(** * Individual files *)

Lemma individual_path_ne_manifest (out_dir video_id title : str) :
  individual_path out_dir video_id title <> path_join out_dir "_manifest.json".
Proof.
  unfold individual_path. intros H.
  apply path_join_relative_inj in H;
    [|apply file_name_relative|reflexivity].
  apply (f_equal (@rev ascii)) in H. rewrite !rev_app_distr in H.
  simpl in H. discriminate H.
Qed.

Lemma individual_files_cons out_dir x xs fs :
  individual_files out_dir (x :: xs) fs
  = individual_files out_dir xs
      (match obtained (snd x) with
       | Some transcript =>
           <[ individual_path out_dir (fst (fst x)) (snd (fst x))
              := Text (individual_body (fst (fst x)) (snd (fst x))
                                       transcript) ]> fs
       | None => fs
       end).
Proof. reflexivity. Qed.

Lemma individual_files_untouched out_dir vrs p : forall fs,
  (forall vr, vr ∈ vrs ->
     individual_path out_dir (fst (fst vr)) (snd (fst vr)) <> p) ->
  individual_files out_dir vrs fs !! p = fs !! p.
Proof.
  induction vrs as [|x xs IH]; intros fs H; [reflexivity|].
  rewrite individual_files_cons.
  rewrite IH by (intros vr Hvr; apply H; apply elem_of_cons; auto).
  destruct (obtained (snd x)); [|reflexivity].
  apply lookup_insert_ne. apply H. apply elem_of_cons; auto.
Qed.

Lemma individual_files_lookup out_dir vrs : forall fs vt,
  NoDup (map (fun vr => fst (fst vr)) vrs) ->
  (forall vr, vr ∈ vrs -> LBRACKET ∉ fst (fst vr)) ->
  vt ∈ successes vrs ->
  individual_files out_dir vrs fs
    !! individual_path out_dir (fst (fst vt)) (snd (fst vt))
  = Some (Text (individual_body (fst (fst vt)) (snd (fst vt)) (snd vt))).
Proof.
  induction vrs as [|x xs IH]; intros fs vt Hnd Hbr Hvt; [inversion Hvt|].
  cbn [map] in Hnd. apply NoDup_cons in Hnd as [Hx Hnd].
  rewrite individual_files_cons.
  unfold successes in Hvt. cbn [omap list_omap] in Hvt.
  fold (successes xs) in Hvt.
  assert (Hrest : vt ∈ successes xs ->
            individual_files out_dir xs
              (match obtained (snd x) with
               | Some transcript =>
                   <[ individual_path out_dir (fst (fst x)) (snd (fst x))
                      := Text (individual_body (fst (fst x)) (snd (fst x))
                                               transcript) ]> fs
               | None => fs
               end)
              !! individual_path out_dir (fst (fst vt)) (snd (fst vt))
            = Some (Text (individual_body (fst (fst vt)) (snd (fst vt)) (snd vt)))).
  { intros H. apply IH; [exact Hnd| |exact H].
    intros vr Hvr. apply Hbr. apply elem_of_cons; auto. }
  destruct (obtained (snd x)) as [t|] eqn:Hob; [|exact (Hrest Hvt)].
  apply elem_of_cons in Hvt as [->|Hvt]; [|exact (Hrest Hvt)].
  cbn [fst snd].
  rewrite individual_files_untouched; [apply lookup_insert_eq|].
  intros vr Hvr Hp. unfold individual_path in Hp.
  apply path_join_relative_inj in Hp; try apply file_name_relative.
  apply file_name_inj in Hp as [Hid _].
  - apply Hx. rewrite <- Hid. apply list_elem_of_fmap. exists vr. auto.
  - apply Hbr. apply elem_of_cons; auto.
  - apply Hbr. apply elem_of_cons; auto.
Qed.


(** * The individual files *)

Lemma zip_fst_prefix {A B} (l : list A) : forall k : list B,
  exists t, l = map fst (zip l k) ++ t.
Proof.
  induction l as [|x l IH]; intros k; [exists []; reflexivity|].
  destruct k as [|y k]; [exists (x :: l); reflexivity|].
  destruct (IH k) as [t Ht]. exists t. simpl. f_equal. exact Ht.
Qed.

Section IndividualFiles.

Variable list_channel : str -> run_result.
Variable caption_tool :
  nat -> str -> str -> list (str * str) -> bool * list (str * str).
Variable strftime : nat -> str.
Variable fs_fault : nat -> fs_call -> option str.

(** X25. The archive and the individual files agree, however the run
    ends: when the enumerated ids are pairwise distinct (and hold no
    opening bracket), every video that has a section in the archive has, at
    its own path, an individual file with the same transcript under the
    file header, provided that path is not that of the archive itself.  The
    archive is the header block followed by those sections in every run
    that no exception ends, and in every other run unless the exception
    came before the archive was opened. *)
Theorem main_individual_files (a : args) (w0 : world) (out err : str) :
  list_channel (channel_url a) = Completed 0 out err ->
  NoDup (map fst (parse_listing out)) ->
  (forall v, v ∈ parse_listing out -> LBRACKET ∉ fst v) ->
  exists got : list ((str * str) * str),
    ((forall e, fst (main list_channel caption_tool strftime fs_fault a w0)
                <> Raised e) ->
     archive (snd (main list_channel caption_tool strftime fs_fault a w0))
     = archive_header (display_name a) (length (parse_listing out))
                      (strftime (clock_reads w0)) (channel_url a)
       ++ concat (map (fun vt => archive_section (fst (fst vt)) (snd (fst vt))
                                                 (snd vt)) got))
    /\ (archive (snd (main list_channel caption_tool strftime fs_fault a w0))
        = archive_header (display_name a) (length (parse_listing out))
                         (strftime (clock_reads w0)) (channel_url a)
          ++ concat (map (fun vt => archive_section (fst (fst vt))
                                      (snd (fst vt)) (snd vt)) got)
        \/ (got = []
            /\ archive (snd (main list_channel caption_tool strftime fs_fault
                                  a w0))
               = archive w0))
    /\ forall vt, vt ∈ got ->
         individual_path (output_dir a) (fst (fst vt)) (snd (fst vt))
           <> combined_file a ->
         files (snd (main list_channel caption_tool strftime fs_fault a w0))
           !! individual_path (output_dir a) (fst (fst vt)) (snd (fst vt))
         = Some (Text (individual_body (fst (fst vt)) (snd (fst vt)) (snd vt))).
Proof.
  intros Hlist Hnd Hbr.
  destruct (main_spec list_channel caption_tool strftime fs_fault a w0 out err
              Hlist)
    as (o & wF & results & Hrun & _ & _ & _ & _ & _ & _ & Hcase & _).
  set (videos := parse_listing out) in *.
  set (vrs := zip videos results) in *.
  destruct (zip_fst_prefix videos results) as [rest Hfst]. fold vrs in Hfst.
  rewrite Hrun. cbn [fst snd].
  destruct Hcase as [(_ & Harch & _ & e & He)|[Harch Hfiles]].
  - exists []. split; [intros Hnr; exfalso; exact (Hnr e He)|].
    split; [right; split; [reflexivity|exact Harch]|].
    intros vt Hvt. inversion Hvt.
  - exists (successes vrs).
    assert (Hsec : archive wF
              = archive_header (display_name a) (length videos)
                               (strftime (clock_reads w0)) (channel_url a)
                ++ concat (map (fun vt => archive_section (fst (fst vt))
                                            (snd (fst vt)) (snd vt))
                               (successes vrs)))
      by (rewrite Harch, sections_of_successes; reflexivity).
    split; [intros _; exact Hsec|]. split; [left; exact Hsec|].
    intros vt Hvt Hne.
    assert (Hlook :
      (<[ combined_file a := Text (archive wF) ]>
         (individual_files (output_dir a) vrs
            (<[ combined_file a := Text [] ]> (files w0))))
        !! individual_path (output_dir a) (fst (fst vt)) (snd (fst vt))
      = Some (Text (individual_body (fst (fst vt)) (snd (fst vt)) (snd vt)))).
    { rewrite lookup_insert_ne by (intros Heq; apply Hne; symmetry; exact Heq).
      apply individual_files_lookup; [| |exact Hvt].
      - rewrite Hfst, map_app in Hnd. apply NoDup_app in Hnd as [Hnd _].
        rewrite map_map in Hnd. exact Hnd.
      - intros vr Hvr. apply Hbr. rewrite Hfst. apply elem_of_app. left.
        apply list_elem_of_fmap. exists vr. auto. }
    destruct Hfiles as [->|[m ->]]; [exact Hlook|].
    rewrite lookup_insert_ne
      by (intros Heq; symmetry in Heq; revert Heq;
          apply individual_path_ne_manifest).
    exact Hlook.
Qed.

End IndividualFiles.

Lemma main_individual_files_witness :
  exists got : list ((str * str) * str),
    archive (snd scenario_B_run)
    = archive_header (display_name (default_args scenario_B_url))
                     (length (parse_listing scenario_B_stdout))
                     (scenario_B_clock (clock_reads empty_world))
                     (channel_url (default_args scenario_B_url))
      ++ concat (map (fun vt => archive_section (fst (fst vt)) (snd (fst vt))
                                                (snd vt)) got)
    /\ forall vt, vt ∈ got ->
         individual_path (output_dir (default_args scenario_B_url))
                         (fst (fst vt)) (snd (fst vt))
           <> combined_file (default_args scenario_B_url) ->
         files (snd scenario_B_run)
           !! individual_path (output_dir (default_args scenario_B_url))
                              (fst (fst vt)) (snd (fst vt))
         = Some (Text (individual_body (fst (fst vt)) (snd (fst vt)) (snd vt))).
Proof.
  destruct (main_individual_files scenario_B_listing scenario_B_tool
              scenario_B_clock no_fault (default_args scenario_B_url)
              empty_world scenario_B_stdout [])
    as (got & Harch & _ & Hfiles).
  - reflexivity.
  - apply (bool_decide_unpack _). vm_compute. exact I.
  - intros v Hv.
    change (parse_listing scenario_B_stdout)
      with [("video1" : str, "One" : str); ("video2" : str, "Two" : str);
            ("video3" : str, "Three" : str)] in Hv.
    repeat (apply elem_of_cons in Hv as [->|Hv];
            [intros Hin; cbn [fst] in Hin;
             repeat (apply elem_of_cons in Hin as [Hin|Hin];
                     [discriminate Hin|]); inversion Hin|]).
    inversion Hv.
  - exists got. split; [|exact Hfiles].
    apply Harch. intros e. vm_compute. discriminate.
Defined.
